(** * up: checking and upgrading globally installed packages

    A shallow embedding of [src/utils/pm.ts], [src/utils/registry.ts],
    [src/cli.ts] and [src/index.ts], and the properties of the
    specification proved (or refuted) on it.

    JavaScript strings are modelled by Rocq strings holding their UTF-8
    encoding.  The operations used by the program only look for ASCII
    characters ([.], [@], digits, line feeds) or for whole white space
    and box drawing characters, so they can be carried out on the bytes.
    JavaScript numbers are IEEE 754 binary64 values, modelled by
    [spec_float] with precision 53 and maximal exponent 1024. *)

From Stdlib Require Import String Ascii List ZArith NArith Bool Lia.
From Stdlib Require Import DecimalString DecimalN DecimalPos Permutation.
From Stdlib Require Import Floats.SpecFloat.
Import ListNotations.
Open Scope string_scope.

(** ** The JavaScript runtime: strings *)

Module JS.

Definition bytes (codes : list nat) : string :=
  string_of_list_ascii (map ascii_of_nat codes).

Definition string_rev (s : string) : string :=
  string_of_list_ascii (rev (list_ascii_of_string s)).

(** [starts_with p s] is the rest of [s] after the prefix [p], when [s]
    starts with [p]. *)
Fixpoint starts_with (p s : string) : option string :=
  match p with
  | EmptyString => Some s
  | String a p' =>
      match s with
      | EmptyString => None
      | String b s' => if Ascii.eqb a b then starts_with p' s' else None
      end
  end.

Fixpoint first_prefix (ps : list string) (s : string) : option string :=
  match ps with
  | [] => None
  | p :: ps' =>
      match starts_with p s with
      | Some r => Some r
      | None => first_prefix ps' s
      end
  end.

(** Removes from the start of [s] every leading occurrence of one of
    [toks]; [fuel] bounds the number of occurrences removed. *)
Fixpoint drop_leading (toks : list string) (fuel : nat) (s : string) : string :=
  match fuel with
  | 0 => s
  | S fuel' =>
      match first_prefix toks s with
      | Some r => drop_leading toks fuel' r
      | None => s
      end
  end.

(** The characters of WhiteSpace and LineTerminator (ECMAScript 12.2 and
    12.3), which are those [String.prototype.trim], the class [\s] and
    the conversion of a string to a number treat as white space:
    U+0009 to U+000D, U+0020, U+00A0, U+1680, U+2000 to U+200A, U+2028,
    U+2029, U+202F, U+205F, U+3000 and U+FEFF. *)
Definition whiteSpace : list string :=
  map bytes
    [ [9]; [10]; [11]; [12]; [13]; [32]; [194; 160]; [225; 154; 128];
      [226; 128; 128]; [226; 128; 129]; [226; 128; 130]; [226; 128; 131];
      [226; 128; 132]; [226; 128; 133]; [226; 128; 134]; [226; 128; 135];
      [226; 128; 136]; [226; 128; 137]; [226; 128; 138]; [226; 128; 168];
      [226; 128; 169]; [226; 128; 175]; [226; 129; 159]; [227; 128; 128];
      [239; 187; 191] ].

Definition trimStart (s : string) : string :=
  drop_leading whiteSpace (String.length s) s.

Definition trimEnd (s : string) : string :=
  string_rev
    (drop_leading (map string_rev whiteSpace) (String.length s) (string_rev s)).

(** [s.trim()] *)
Definition trim (s : string) : string := trimEnd (trimStart s).

(** [s.split(sep)] for a separator of one ASCII character. *)
Fixpoint split (sep : ascii) (s : string) : list string :=
  match s with
  | EmptyString => [EmptyString]
  | String c s' =>
      if Ascii.eqb c sep then EmptyString :: split sep s'
      else
        match split sep s' with
        | x :: xs => String c x :: xs
        | [] => [String c EmptyString]
        end
  end.

(** [xs.join(sep)] *)
Fixpoint join (sep : string) (xs : list string) : string :=
  match xs with
  | [] => EmptyString
  | [x] => x
  | x :: xs' => x ++ sep ++ join sep xs'
  end.

Definition is_digit (c : ascii) : bool :=
  let n := nat_of_ascii c in (48 <=? n)%nat && (n <=? 57)%nat.

(** The longest prefix of characters satisfying [p], and the rest. *)
Fixpoint span (p : ascii -> bool) (s : string) : string * string :=
  match s with
  | EmptyString => (EmptyString, EmptyString)
  | String c s' =>
      if p c then let (a, b) := span p s' in (String c a, b)
      else (EmptyString, s)
  end.

(** ** The JavaScript runtime: numbers *)

(** A Number is a binary64 value. *)
Definition number : Type := spec_float.
Definition prec : Z := 53.
Definition emax : Z := 1024.
Definition NaN : number := S754_nan.
Definition zero : number := S754_zero false.

(** The Number nearest to [m * 10 ^ e] ([m >= 0]), with the sign [neg];
    ties go to the even significand, values too large to Infinity.
    (ECMAScript lets an implementation round a literal of more than 20
    significant digits less exactly; V8 rounds it this way.) *)
Definition of_decimal (neg : bool) (m e : Z) : number :=
  match m with
  | Z0 => S754_zero neg
  | Zpos _ =>
      if (0 <=? e)%Z then
        binary_normalize prec emax (cond_Zopp neg (m * 10 ^ e)) 0 neg
      else
        let '(mz, ez, lz) :=
          SFdiv_core_binary prec emax m 0 (10 ^ (- e)) 0 in
        binary_round_aux prec emax neg mz ez lz
  | Zneg _ => NaN
  end.

Definition digit_value (c : ascii) : option Z :=
  let n := nat_of_ascii c in
  if (48 <=? n)%nat && (n <=? 57)%nat then Some (Z.of_nat (n - 48))
  else if (97 <=? n)%nat && (n <=? 122)%nat then Some (Z.of_nat (n - 87))
  else if (65 <=? n)%nat && (n <=? 90)%nat then Some (Z.of_nat (n - 55))
  else None.

Fixpoint digits_from (radix acc : Z) (s : string) : option Z :=
  match s with
  | EmptyString => Some acc
  | String c s' =>
      match digit_value c with
      | Some d =>
          if (d <? radix)%Z then digits_from radix (acc * radix + d) s'
          else None
      | None => None
      end
  end.

(** The value of a non-empty string of digits of the given radix. *)
Definition digits (radix : Z) (s : string) : option Z :=
  match s with
  | EmptyString => None
  | _ => digits_from radix 0 s
  end.

(** NonDecimalIntegerLiteral: [0x], [0o] or [0b] (either case) and digits. *)
Definition non_decimal (s : string) : option Z :=
  match s with
  | String "0" (String c r) =>
      if Ascii.eqb c "x" || Ascii.eqb c "X" then digits 16 r
      else if Ascii.eqb c "o" || Ascii.eqb c "O" then digits 8 r
      else if Ascii.eqb c "b" || Ascii.eqb c "B" then digits 2 r
      else None
  | _ => None
  end.

Definition signed (s : string) : bool * string :=
  match s with
  | String "+" r => (false, r)
  | String "-" r => (true, r)
  | _ => (false, s)
  end.

(** ExponentPart, or nothing: the exponent it denotes. *)
Definition exponent (s : string) : option Z :=
  match s with
  | EmptyString => Some 0%Z
  | String c r =>
      if Ascii.eqb c "e" || Ascii.eqb c "E" then
        let (neg, d) := signed r in
        match digits 10 d with
        | Some n => Some (if neg then (- n)%Z else n)
        | None => None
        end
      else None
  end.

(** StrDecimalLiteral: a sign, then [Infinity] or digits with an optional
    fraction and exponent. *)
Definition decimal (s : string) : number :=
  let (neg, r) := signed s in
  if String.eqb r "Infinity" then S754_infinity neg
  else
    let (ip, r1) := span is_digit r in
    let (fp, r2) :=
      match r1 with
      | String "." r' => span is_digit r'
      | _ => (EmptyString, r1)
      end in
    match digits 10 (ip ++ fp), exponent r2 with
    | Some m, Some e => of_decimal neg m (e - Z.of_nat (String.length fp))
    | _, _ => NaN
    end.

(** [Number(s)] for a string [s] (StringToNumber, ECMAScript 7.1.4.1.1):
    white space is trimmed, the empty string is [+0], and what is no
    StringNumericLiteral is [NaN]. *)
Definition Number (str : string) : number :=
  let s := trim str in
  if String.eqb s "" then zero
  else
    match non_decimal s with
    | Some m => of_decimal false m 0
    | None => decimal s
    end.

(** [a < b], [a > b] and [a === b] on Numbers: false as soon as one
    is [NaN]. *)
Definition lt (a b : number) : bool := SFltb a b.
Definition gt (a b : number) : bool := SFltb b a.
Definition equal (a b : number) : bool := SFeqb a b.

Definition is_NaN (x : number) : bool :=
  match x with
  | S754_nan => true
  | _ => false
  end.

(** ToBoolean on a Number: [+0], [-0] and [NaN] are falsy. *)
Definition number_truthy (x : number) : bool :=
  match x with
  | S754_zero _ | S754_nan => false
  | _ => true
  end.

(** [xs[i] || 0] on an array of Numbers: [xs[i]] is [undefined] past the
    end of the array, and [undefined], [NaN] and the zeros are falsy. *)
Definition index_or_zero (xs : list number) (i : nat) : number :=
  match nth_error xs i with
  | Some x => if number_truthy x then x else zero
  | None => zero
  end.

(** ** The JavaScript runtime: values read from JSON *)

(** What [JSON.parse] and [response.json()] produce.  The properties of
    an object have distinct keys, and are listed in the order
    [Object.entries] enumerates them. *)
#[warnings="-register-all"]
Inductive JValue : Type :=
| JNull
| JBool (b : bool)
| JNum (x : number)
| JStr (s : string)
| JArr (items : list JValue)
| JObj (props : list (string * JValue)).

(** ToBoolean *)
Definition truthy (v : JValue) : bool :=
  match v with
  | JNull => false
  | JBool b => b
  | JNum x => number_truthy x
  | JStr s => negb (String.eqb s "")
  | JArr _ | JObj _ => true
  end.

(** ToBoolean on a value that may be [undefined] *)
Definition truthy_opt (v : option JValue) : bool :=
  match v with
  | Some v => truthy v
  | None => false
  end.

Fixpoint lookup (key : string) (props : list (string * JValue)) : option JValue :=
  match props with
  | [] => None
  | (k, v) :: props' => if String.eqb k key then Some v else lookup key props'
  end.

(** [v.key], for a [key] that no prototype defines (the program reads
    [dependencies], [version], [type], [data] and [body]): [None] is a
    TypeError, thrown on [null], and [Some None] is [undefined]. *)
Definition get (v : JValue) (key : string) : option (option JValue) :=
  match v with
  | JNull => None
  | JObj props => Some (lookup key props)
  | _ => Some None
  end.

Definition show_nat (n : nat) : string :=
  NilEmpty.string_of_uint (Nat.to_uint n).

Fixpoint indexed {A : Type} (i : nat) (xs : list A) : list (string * A) :=
  match xs with
  | [] => []
  | x :: xs' => (show_nat i, x) :: indexed (S i) xs'
  end.

(** The characters of a string as strings, one for each byte, where
    JavaScript has one for each code unit or code point.  The program
    reads a property of them that no string has, or looks in them for a
    match of three characters at least, which none has. *)
Definition chars (s : string) : list JValue :=
  map (fun c => JStr (String c EmptyString)) (list_ascii_of_string s).

(** [Object.entries(v)]; [None] is a TypeError. *)
Definition Object_entries (v : JValue) : option (list (string * JValue)) :=
  match v with
  | JNull => None
  | JBool _ | JNum _ => Some []
  | JStr s => Some (indexed 0 (chars s))
  | JArr items => Some (indexed 0 items)
  | JObj props => Some props
  end.

(** The values [for (const item of v)] goes through; [None] is a
    TypeError ([v] is not iterable). *)
Definition iterate (v : JValue) : option (list JValue) :=
  match v with
  | JArr items => Some items
  | JStr s => Some (chars s)
  | _ => None
  end.

(** ** The JavaScript runtime: the regular expressions of the program *)

(** The LineTerminator characters, which [.] does not match: U+000A,
    U+000D, U+2028 and U+2029. *)
Definition lineTerminator : list string :=
  map bytes [ [10]; [13]; [226; 128; 168]; [226; 128; 169] ].

Fixpoint has_line_terminator (s : string) : bool :=
  match first_prefix lineTerminator s with
  | Some _ => true
  | None =>
      match s with
      | EmptyString => false
      | String _ s' => has_line_terminator s'
      end
  end.

(** What [(.+)$] captures at [s]: all of [s], when it is not empty and
    has no line terminator. *)
Definition dots_to_end (s : string) : option string :=
  if String.eqb s "" || has_line_terminator s then None else Some s.

(** [(.+?)] then [k], after the characters [.+?] has already taken:
    [k] is tried first, and [.+?] takes one more character when [k]
    fails. *)
Fixpoint lazy_dots (k : string -> option string) (s : string)
    : option (string * string) :=
  match k s with
  | Some v => Some (EmptyString, v)
  | None =>
      match first_prefix lineTerminator s, s with
      | None, String c s' =>
          match lazy_dots k s' with
          | Some (a, v) => Some (String c a, v)
          | None => None
          end
      | _, _ => None
      end
  end.

(** [^(.+?)] then [k]: the first group has one character at least. *)
Definition lazy_group (k : string -> option string) (s : string)
    : option (string * string) :=
  match first_prefix lineTerminator s, s with
  | None, String c s' =>
      match lazy_dots k s' with
      | Some (a, v) => Some (String c a, v)
      | None => None
      end
  | _, _ => None
  end.

(** [@(.+)$] *)
Definition at_then_rest (s : string) : option string :=
  match s with
  | String "@" r => dots_to_end r
  | _ => None
  end.

(** [\s*(.+)$] after [\s+] has taken one character: as many white space
    characters as leave a match for [(.+)$]. *)
Fixpoint more_space_then_rest (fuel : nat) (s : string) : option string :=
  match fuel with
  | 0 => dots_to_end s
  | S fuel' =>
      match first_prefix whiteSpace s with
      | Some r =>
          match more_space_then_rest fuel' r with
          | Some v => Some v
          | None => dots_to_end s
          end
      | None => dots_to_end s
      end
  end.

(** [\s+(.+)$] *)
Definition space_then_rest (s : string) : option string :=
  match first_prefix whiteSpace s with
  | Some r => more_space_then_rest (String.length r) r
  | None => None
  end.

(** [s.match(/^(.+?)@(.+)$/)]: the two groups. *)
Definition match_name_at_version (s : string) : option (string * string) :=
  lazy_group at_then_rest s.

(** [s.match(/^(.+?)\s+(.+)$/)]: the two groups. *)
Definition match_name_space_version (s : string) : option (string * string) :=
  lazy_group space_then_rest s.

(** The pieces of [s] between line terminators; [skip] counts the bytes
    of a terminator still to pass. *)
Fixpoint segments_from (skip : nat) (s : string) : list string :=
  match s with
  | EmptyString => [EmptyString]
  | String c s' =>
      match skip with
      | S skip' => segments_from skip' s'
      | 0 =>
          match first_prefix lineTerminator s with
          | Some r =>
              EmptyString ::
              segments_from (String.length s' - String.length r) s'
          | None =>
              match segments_from 0 s' with
              | x :: xs => String c x :: xs
              | [] => [String c EmptyString]
              end
          end
      end
  end.

Definition segments (s : string) : list string := segments_from 0 s.

(** The last [@] of [s] that has a character after it: what is before
    it and what is after it. *)
Fixpoint last_at (s : string) : option (string * string) :=
  match s with
  | EmptyString => None
  | String c s' =>
      match last_at s' with
      | Some (a, b) => Some (String c a, b)
      | None =>
          if Ascii.eqb c "@" && negb (String.eqb s' "") then
            Some (EmptyString, s')
          else None
      end
  end.

(** [(.+)@(.+)] inside one piece without line terminators: both groups
    take as much as they can. *)
Definition greedy_groups (segment : string) : option (string * string) :=
  match segment with
  | EmptyString => None
  | String c r =>
      match last_at r with
      | Some (a, b) => Some (String c a, b)
      | None => None
      end
  end.

Fixpoint first_some {A B : Type} (f : A -> option B) (xs : list A) : option B :=
  match xs with
  | [] => None
  | x :: xs' =>
      match f x with
      | Some y => Some y
      | None => first_some f xs'
      end
  end.

(** [s.match(/(.+)@(.+)/)]: the two groups of the leftmost match. *)
Definition match_greedy_name_at_version (s : string) : option (string * string) :=
  first_some greedy_groups (segments s).

End JS.

(** ** The data model *)

Module Model.

(** [type PackageManager = "npm" | "pnpm" | "yarn" | "bun"] *)
Inductive PackageManager : Type := npm | pnpm | yarn | bun.

Definition PackageManager_eqb (a b : PackageManager) : bool :=
  match a, b with
  | npm, npm | pnpm, pnpm | yarn, yarn | bun, bun => true
  | _, _ => false
  end.

(** The string a manager is at run time. *)
Definition pm_name (pm : PackageManager) : string :=
  match pm with
  | npm => "npm"
  | pnpm => "pnpm"
  | yarn => "yarn"
  | bun => "bun"
  end.

(** [interface GlobalPackage].  [version] is declared a string; the npm
    listing stores there whatever truthy value the JSON document holds. *)
Record GlobalPackage : Type := {
  name : string;
  version : JS.JValue;
  pm : PackageManager
}.

(** [interface PackageWithLatest extends GlobalPackage] *)
Record PackageWithLatest : Type := {
  pkg : GlobalPackage;
  latestVersion : JS.JValue;
  hasUpdate : bool
}.

End Model.

(** ** The outside world: processes, the registry, the terminal *)

Module Runtime.
Import Model.

(** What [await execAsync(command)] gives: the standard output of the
    command, or a rejection, with the text [String(error)]. *)
Inductive ExecResult : Type :=
| ExecOk (stdout : string)
| ExecFailed (detail : string).

(** What [await fetch(url)] gives: a rejection, or a response with its
    [ok] flag and what [await response.json()] gives on it ([None] when
    that rejects). *)
Inductive FetchResult : Type :=
| FetchRejected
| FetchResponse (ok : bool) (json : option JS.JValue).

(** What [await multiselect(...)] gives: the cancel symbol or the values
    of the options the user picked. *)
Inductive SelectResult : Type :=
| SelectCancelled
| Selected (values : list PackageWithLatest).

(** What [await confirm(...)] gives: the cancel symbol or the answer. *)
Inductive ConfirmResult : Type :=
| ConfirmCancelled
| Confirmed (answer : bool).

(** What can be thrown. *)
Inductive Exn : Type :=
| ExecError (detail : string)
| FetchError
| SyntaxError
| TypeError
| Error (message : string).

(** [String(error)], as in a template literal. *)
Definition String_of_Exn (e : Exn) : string :=
  match e with
  | ExecError detail => detail
  | FetchError => "TypeError: fetch failed"
  | SyntaxError => "SyntaxError"
  | TypeError => "TypeError"
  | Error message => "Error: " ++ message
  end.

(** Calls that write to the terminal: [console], the prompts library
    ([p.intro], [p.outro], [p.cancel], [p.log.error] and its spinner
    [s.start], [s.stop], [s.message]) and the spinner of kly
    ([spinner], [s.succeed], [s.fail], [s.update]). *)
Inductive Output : Type :=
| console_clear
| console_error (text : string) (error : Exn)
| p_intro (text : string)
| p_outro (text : string)
| p_cancel (text : string)
| p_log_error (text : string)
| s_start (text : string)
| s_stop (text : string)
| s_message (text : string)
| spinner (text : string)
| s_succeed (text : string)
| s_fail (text : string)
| s_update (text : string).

(** One interaction with the outside world, with its answer. *)
Inductive Event : Type :=
| EvExec (command : string) (result : ExecResult)
| EvFetch (url : string) (result : FetchResult)
| EvMultiselect (message : string) (options : list PackageWithLatest)
    (result : SelectResult)
| EvConfirm (message : string) (result : ConfirmResult)
| EvOutput (o : Output).

(** The interactions of a run so far, oldest first. *)
Definition Trace : Type := list Event.

Inductive Color : Type := cyan | red | yellow | green | dim | bgCyan | black.

(** The outside world answers each request from what happened so far,
    so that an answer may depend on the commands run before it.
    [JSON_parse] is [JSON.parse] ([None] when it throws); [pc] is the
    formatter of picocolors and [colors] the one of kly. *)
Class World : Type := {
  JSON_parse : string -> option JS.JValue;
  pc : Color -> string -> string;
  colors : Color -> string -> string;
  exec_answer : Trace -> string -> ExecResult;
  fetch_answer : Trace -> string -> FetchResult;
  multiselect_answer : Trace -> string -> list PackageWithLatest -> SelectResult;
  confirm_answer : Trace -> string -> ConfirmResult
}.

(** How a computation ends: with a value, with an exception, or with the
    process exited by [process.exit(code)]. *)
Inductive Outcome (A : Type) : Type :=
| Return (a : A)
| Throw (e : Exn)
| Exit (code : Z).
Arguments Return {A} a.
Arguments Throw {A} e.
Arguments Exit {A} code.

(** An asynchronous function: from the trace before the call to the way
    it ends and the trace after it. *)
Definition M (A : Type) : Type := Trace -> Outcome A * Trace.

Definition ret {A : Type} (a : A) : M A := fun t => (Return a, t).

Definition bind {A B : Type} (m : M A) (k : A -> M B) : M B :=
  fun t =>
    match m t with
    | (Return a, t') => k a t'
    | (Throw e, t') => (Throw e, t')
    | (Exit code, t') => (Exit code, t')
    end.

Definition throw {A : Type} (e : Exn) : M A := fun t => (Throw e, t).

(** [process.exit(code)] *)
Definition process_exit {A : Type} (code : Z) : M A := fun t => (Exit code, t).

(** [try { m } catch (error) { handler error }]; an exited process runs
    no handler. *)
Definition try_catch {A : Type} (m : M A) (handler : Exn -> M A) : M A :=
  fun t =>
    match m t with
    | (Throw e, t') => handler e t'
    | r => r
    end.

(** A value that may be a TypeError. *)
Definition or_TypeError {A : Type} (o : option A) : M A :=
  match o with
  | Some a => ret a
  | None => throw TypeError
  end.

Notation "x <- m ;; k" := (bind m (fun x => k))
  (at level 61, m at next level, right associativity).
Notation "m ;;; k" := (bind m (fun _ => k))
  (at level 61, right associativity).

(** [for (const x of xs) body], with the variables the body assigns
    threaded through as [s]. *)
Fixpoint for_of {A S : Type} (xs : list A) (body : S -> A -> M S) (s : S) : M S :=
  match xs with
  | [] => ret s
  | x :: xs' => s' <- body s x ;; for_of xs' body s'
  end.

Section Requests.
Context {W : World}.

Definition output (o : Output) : M unit :=
  fun t => (Return tt, (t ++ [EvOutput o])%list).

(** [await execAsync(command)], resolved to [stdout]. *)
Definition execAsync (command : string) : M string :=
  fun t =>
    let r := exec_answer t command in
    let t' := (t ++ [EvExec command r])%list in
    match r with
    | ExecOk stdout => (Return stdout, t')
    | ExecFailed detail => (Throw (ExecError detail), t')
    end.

(** [await fetch(url)], with what [response.json()] gives later. *)
Definition fetch (url : string) : M (bool * option JS.JValue) :=
  fun t =>
    let r := fetch_answer t url in
    let t' := (t ++ [EvFetch url r])%list in
    match r with
    | FetchRejected => (Throw FetchError, t')
    | FetchResponse ok json => (Return (ok, json), t')
    end.

(** [await response.json()] *)
Definition response_json (response : bool * option JS.JValue) : M JS.JValue :=
  match snd response with
  | Some data => ret data
  | None => throw SyntaxError
  end.

Definition multiselect (message : string) (options : list PackageWithLatest)
    : M SelectResult :=
  fun t =>
    let r := multiselect_answer t message options in
    (Return r, (t ++ [EvMultiselect message options r])%list).

Definition confirm (message : string) : M ConfirmResult :=
  fun t =>
    let r := confirm_answer t message in
    (Return r, (t ++ [EvConfirm message r])%list).

End Requests.

(** [m] started on any trace ends in a way [o], having added the
    interactions [new] to the trace, such that [Q o new]. *)
Definition obeys {A : Type} (m : M A) (Q : Outcome A -> list Event -> Prop) : Prop :=
  forall t, exists o new, m t = (o, (t ++ new)%list) /\ Q o new.

(** How a computation may end: with a value satisfying [I], an
    exception satisfying [T] or an exit code satisfying [X]. *)
Definition ends {A : Type} (I : A -> Prop) (T : Exn -> Prop) (X : Z -> Prop)
    (o : Outcome A) : Prop :=
  match o with
  | Return a => I a
  | Throw e => T e
  | Exit code => X code
  end.

Definition never (e : Event) : bool := false.

(** [m] adds interactions that satisfy [P] only. *)
Definition emits {A : Type} (P : Event -> bool) (m : M A) : Prop :=
  obeys m (fun _ new => forallb P new = true).

(** The commands run during some interactions. *)
Definition commands_of (events : list Event) : list string :=
  flat_map (fun e => match e with EvExec command _ => [command] | _ => [] end) events.

End Runtime.

(** ** [src/utils/registry.ts]: the version comparator *)

Module Registry.
Import Model Runtime.

(** [v.replace(/^[^0-9]+/, "")]: the leading characters that are no
    digits are removed. *)
Definition strip_non_digit_prefix (v : string) : string :=
  snd (JS.span (fun c => negb (JS.is_digit c)) v).

(** [clean.split(".").map(Number)] *)
Definition parts (clean : string) : list JS.number :=
  map JS.Number (JS.split "." clean).

(** The loop of [compareVersions] from index [i] on, with [n] iterations
    left before [i] reaches [Math.max(currentParts.length,
    latestParts.length)]. *)
Fixpoint compare_from (currentParts latestParts : list JS.number)
    (i n : nat) : bool :=
  match n with
  | 0 => false
  | S n' =>
      let curr := JS.index_or_zero currentParts i in
      let lat := JS.index_or_zero latestParts i in
      if JS.gt lat curr then true
      else if JS.lt lat curr then false
      else compare_from currentParts latestParts (S i) n'
  end.

Definition compareVersions (current latest : string) : bool :=
  if String.eqb current "" || String.eqb latest "" then false
  else
    let cleanCurrent := strip_non_digit_prefix current in
    let cleanLatest := strip_non_digit_prefix latest in
    let currentParts := parts cleanCurrent in
    let latestParts := parts cleanLatest in
    compare_from currentParts latestParts 0
      (Nat.max (List.length currentParts) (List.length latestParts)).

(** [currentParts] (for [current]) and [latestParts] (for [latest]). *)
Definition components (v : string) : list JS.number :=
  parts (strip_non_digit_prefix v).

(** The value of [curr] (for [current]) and of [lat] (for [latest]) at
    the iteration [i] of the loop of [compareVersions]. *)
Definition component (v : string) (i : nat) : JS.number :=
  JS.index_or_zero (components v) i.


(** The call [compareVersions(pkg.version, latestVersion)] of the
    orchestrators, on the values they hold: a value that is no string is
    falsy, or else has no [replace] method, which is a TypeError. *)
Definition call_compareVersions (current latest : JS.JValue) : M bool :=
  match current, latest with
  | JS.JStr c, JS.JStr l => ret (compareVersions c l)
  | _, _ =>
      if negb (JS.truthy current) || negb (JS.truthy latest) then ret false
      else throw TypeError
  end.

Section WithWorld.
Context {W : World}.

(** [getLatestVersion(packageName)]: the truthy [version] of the
    registry's answer, or [null]. *)
Definition getLatestVersion (packageName : string) : M (option JS.JValue) :=
  try_catch
    (response <- fetch ("https://registry.npmjs.org/" ++ packageName ++ "/latest") ;;
     if negb (fst response) then ret None
     else
       data <- response_json response ;;
       version <- or_TypeError (JS.get data "version") ;;
       ret (if JS.truthy_opt version then version else None))
    (fun _ => ret None).

End WithWorld.

End Registry.

(** ** [src/utils/pm.ts]: the package manager adapter *)

Module PM.
Import Model Runtime.

Section WithWorld.
Context {W : World}.

Definition commandExists (command : string) : M bool :=
  try_catch
    (execAsync ("which " ++ command) ;;; ret true)
    (fun _ => ret false).

Definition managers : list PackageManager := [npm; pnpm; yarn; bun].

Definition detectPackageManagers : M (list PackageManager) :=
  for_of managers
    (fun available pm =>
       found <- commandExists (pm_name pm) ;;
       ret (if found then (available ++ [pm])%list else available))
    [].

(** The answers the four probes get when detection starts at [t]. *)
Definition detection_answers (t : Trace) : list ExecResult :=
  let r1 := exec_answer t "which npm" in
  let t1 := (t ++ [EvExec "which npm" r1])%list in
  let r2 := exec_answer t1 "which pnpm" in
  let t2 := (t1 ++ [EvExec "which pnpm" r2])%list in
  let r3 := exec_answer t2 "which yarn" in
  let t3 := (t2 ++ [EvExec "which yarn" r3])%list in
  let r4 := exec_answer t3 "which bun" in
  [r1; r2; r3; r4].

(** The command of the [switch] of [getGlobalPackages]. *)
Definition list_command (pm : PackageManager) : string :=
  match pm with
  | npm => "npm list -g --depth=0 --json"
  | pnpm => "pnpm list -g --depth 0"
  | yarn => "yarn global list --json"
  | bun => "bun pm ls -g"
  end.

(** [stdout.split("\n").filter((line) => line.trim())] *)
Definition lines_of (stdout : string) : list string :=
  filter (fun line => negb (String.eqb (JS.trim line) ""))
    (JS.split (ascii_of_nat 10) stdout).

(** The characters of the class of [/^[│├└─\s]+/]. *)
Definition tree_characters : list string :=
  (["│"; "├"; "└"; "─"] ++ JS.whiteSpace)%list.

(** [line.replace(/^[│├└─\s]+/, "").trim()] *)
Definition clean (line : string) : string :=
  JS.trim (JS.drop_leading tree_characters (String.length line) line).

(** The body of the loop over the lines of [bun pm ls -g] and of
    [pnpm list -g], for the match [m] of the line. *)
Definition push_match (pm : PackageManager) (packages : list GlobalPackage)
    (m : option (string * string)) : list GlobalPackage :=
  match m with
  | Some (m1, m2) =>
      if negb (String.eqb m1 "") && negb (String.eqb m2 "") then
        (packages ++
         [{| name := JS.trim m1; version := JS.JStr (JS.trim m2); pm := pm |}])%list
      else packages
  | None => packages
  end.

Definition bun_packages (pm : PackageManager) (stdout : string) : list GlobalPackage :=
  fold_left
    (fun packages line => push_match pm packages (JS.match_name_at_version (clean line)))
    (lines_of stdout) [].

Definition pnpm_packages (pm : PackageManager) (stdout : string) : list GlobalPackage :=
  fold_left
    (fun packages line => push_match pm packages (JS.match_name_space_version (clean line)))
    (lines_of stdout) [].

(** The loop over [data.data.body] of the yarn listing.  An item that is
    no string has no [match] method: the call throws, the [catch] of
    the line ends the loop, and what was pushed stays in [packages]. *)
Fixpoint push_items (pm : PackageManager) (packages : list GlobalPackage)
    (items : list JS.JValue) : list GlobalPackage :=
  match items with
  | [] => packages
  | JS.JStr item :: items' =>
      match JS.match_greedy_name_at_version item with
      | Some (m1, m2) =>
          push_items pm
            (packages ++ [{| name := m1; version := JS.JStr m2; pm := pm |}])%list
            items'
      | None => push_items pm packages items'
      end
  | _ :: _ => packages
  end.

(** [data.type === "list"] *)
Definition is_list_type (ty : option JS.JValue) : bool :=
  match ty with
  | Some (JS.JStr s) => String.eqb s "list"
  | _ => false
  end.

(** [data.data?.body], for a [data] that is not [null]. *)
Definition data_body (data : JS.JValue) : option JS.JValue :=
  match JS.get data "data" with
  | Some (Some d) =>
      match JS.get d "body" with
      | Some body => body
      | None => None
      end
  | _ => None
  end.

(** The [try] of the loop over the lines of [yarn global list --json],
    with its empty [catch]. *)
Definition push_line (pm : PackageManager) (packages : list GlobalPackage)
    (line : string) : list GlobalPackage :=
  match JSON_parse line with
  | None => packages
  | Some data =>
      match JS.get data "type" with
      | None => packages
      | Some ty =>
          if is_list_type ty && JS.truthy_opt (data_body data) then
            match data_body data with
            | Some body =>
                match JS.iterate body with
                | Some items => push_items pm packages items
                | None => packages
                end
            | None => packages
            end
          else packages
      end
  end.

Definition yarn_packages (pm : PackageManager) (stdout : string) : list GlobalPackage :=
  fold_left (push_line pm) (lines_of stdout) [].

(** The end of the [try] of [getGlobalPackages], for the npm listing. *)
Definition npm_packages (pm : PackageManager) (stdout : string) : M (list GlobalPackage) :=
  match JSON_parse stdout with
  | None => throw SyntaxError
  | Some data =>
      dependencies <- or_TypeError (JS.get data "dependencies") ;;
      match dependencies with
      | Some deps =>
          if JS.truthy deps then
            entries <- or_TypeError (JS.Object_entries deps) ;;
            for_of entries
              (fun packages entry =>
                 let '(name, info) := entry in
                 version <- or_TypeError (JS.get info "version") ;;
                 ret match version with
                     | Some v =>
                         if JS.truthy v then
                           (packages ++ [{| name := name; version := v; pm := pm |}])%list
                         else packages
                     | None => packages
                     end)
              []
          else ret []
      | None => ret []
      end
  end.

Definition getGlobalPackages (pm : PackageManager) : M (list GlobalPackage) :=
  try_catch
    (let command := list_command pm in
     stdout <- execAsync command ;;
     if PackageManager_eqb pm bun then ret (bun_packages pm stdout)
     else if PackageManager_eqb pm pnpm then ret (pnpm_packages pm stdout)
     else if PackageManager_eqb pm yarn then ret (yarn_packages pm stdout)
     else npm_packages pm stdout)
    (fun _ => ret []).

(** The output of the listing command of a manager that has no global
    package: a JSON document without dependencies for npm, no line
    that is not blank for the others. *)
Definition lists_nothing (pm : PackageManager) (stdout : string) : Prop :=
  match pm with
  | npm =>
      exists data,
        JSON_parse stdout = Some data /\
        (JS.get data "dependencies" = Some None \/
         JS.get data "dependencies" = Some (Some (JS.JObj [])))
  | _ => lines_of stdout = []
  end.

(** The command of the [switch] of [upgradePackages]. *)
Definition upgrade_command (pm : PackageManager) (packages : string) : string :=
  match pm with
  | npm => "npm install -g " ++ packages
  | pnpm => "pnpm add -g " ++ packages
  | yarn => "yarn global add " ++ packages
  | bun => "bun add -g " ++ packages
  end.

Definition upgradePackages (pm : PackageManager) (packageNames : list string) : M unit :=
  if (List.length packageNames =? 0)%nat then ret tt
  else
    let packages := JS.join " " (map (fun name => name ++ "@latest") packageNames) in
    let command := upgrade_command pm packages in
    execAsync command ;;; ret tt.

End WithWorld.

End PM.

(** ** The steps the two orchestrators share *)

Module Orchestrator.
Import Model Runtime.

(** [n > 1 ? "s" : ""] *)
Definition plural (n : nat) : string := if (1 <? n)%nat then "s" else "".

(** A [Map] keyed by managers, in insertion order. *)
Definition Map (V : Type) : Type := list (PackageManager * V).

Definition Map_has {V : Type} (m : Map V) (k : PackageManager) : bool :=
  existsb (fun e => PackageManager_eqb (fst e) k) m.

Definition Map_set {V : Type} (m : Map V) (k : PackageManager) (v : V) : Map V :=
  if Map_has m k then
    map (fun e => if PackageManager_eqb (fst e) k then (k, v) else e) m
  else (m ++ [(k, v)])%list.

(** [m.get(k)?.push(x)] *)
Definition Map_push {A : Type} (m : Map (list A)) (k : PackageManager) (x : A)
    : Map (list A) :=
  map (fun e => if PackageManager_eqb (fst e) k then (fst e, (snd e ++ [x])%list) else e) m.

(** The body of the loop that groups the packages to upgrade. *)
Definition group_step (packagesByPM : Map (list PackageWithLatest))
    (p : PackageWithLatest) : Map (list PackageWithLatest) :=
  let packagesByPM' :=
    if negb (Map_has packagesByPM (pm (pkg p))) then
      Map_set packagesByPM (pm (pkg p)) []
    else packagesByPM in
  Map_push packagesByPM' (pm (pkg p)) p.

(** The loop that groups the packages to upgrade by package manager. *)
Definition group_by_pm (packagesToUpgrade : list PackageWithLatest)
    : Map (list PackageWithLatest) :=
  fold_left group_step packagesToUpgrade [].

(** A group that has a package at least, all of its manager. *)
Definition well_grouped (g : PackageManager * list PackageWithLatest) : Prop :=
  snd g <> [] /\ Forall (fun p => pm (pkg p) = fst g) (snd g).

(** The text of [s.message] and [s.update] before a group is upgraded. *)
Definition progress (processedCount size totalCount : nat) (packageList : string)
    (pm : PackageManager) : string :=
  "[" ++ JS.show_nat (processedCount + 1) ++ "-" ++
  JS.show_nat (processedCount + size) ++ "/" ++ JS.show_nat totalCount ++
  "] Upgrading " ++ packageList ++ " via " ++ pm_name pm.

Section WithWorld.
Context {W : World}.

(** The loop over the detected managers that fills [allPackages]. *)
Definition enumerate (packageManagers : list PackageManager) : M (list GlobalPackage) :=
  for_of packageManagers
    (fun allPackages pm =>
       packages <- PM.getGlobalPackages pm ;;
       ret (allPackages ++ packages)%list)
    [].

(** The loop over [allPackages] that fills [packagesWithLatest]. *)
Definition check (allPackages : list GlobalPackage) : M (list PackageWithLatest) :=
  for_of allPackages
    (fun packagesWithLatest p =>
       latestVersion <- Registry.getLatestVersion (name p) ;;
       match latestVersion with
       | Some latest =>
           if JS.truthy latest then
             hasUpdate <- Registry.call_compareVersions (version p) latest ;;
             ret (packagesWithLatest ++
                  [{| pkg := p; latestVersion := latest; hasUpdate := hasUpdate |}])%list
           else ret packagesWithLatest
       | None => ret packagesWithLatest
       end)
    [].

End WithWorld.

End Orchestrator.

(** ** [src/cli.ts]: the interactive run *)

Module Cli.
Import Model Runtime Orchestrator.

Section WithWorld.
Context {W : World}.

(** The body of the loop over [packagesByPM] of [run]: the upgrade of
    one group, which gives the new value of [processedCount]. *)
Definition upgrade_group (totalCount processedCount : nat)
    (group : PackageManager * list PackageWithLatest) : M nat :=
  let '(pm, packages) := group in
  let packageNames := map (fun p => name (pkg p)) packages in
  let packageList := JS.join ", " packageNames in
  output (s_message
            (progress processedCount (List.length packages) totalCount
               packageList pm)) ;;;
  try_catch
    (PM.upgradePackages pm packageNames ;;;
     ret (processedCount + List.length packages)%nat)
    (fun error =>
       output (s_stop ("Failed to upgrade packages via " ++ pm_name pm)) ;;;
       output (p_log_error (pm_name pm ++ ": " ++ String_of_Exn error)) ;;;
       ret processedCount).

(** The Upgrading state of [run], from [s.start("Upgrading packages")]
    to the end. *)
Definition upgrade (packagesToUpgrade : list PackageWithLatest) : M unit :=
  output (s_start "Upgrading packages") ;;;
  let packagesByPM := group_by_pm packagesToUpgrade in
  let totalCount := List.length packagesToUpgrade in
  processedCount <- for_of packagesByPM (upgrade_group totalCount) 0%nat ;;
  output (s_stop "All packages upgraded") ;;;
  output (p_outro (pc green "Successfully upgraded all selected packages!")).

(** [run()].  The options of the prompt are recorded by their values;
    their labels and hints are texts made from the values. *)
Definition run : M unit :=
  output console_clear ;;;
  output (p_intro (pc bgCyan (pc black " @xystack/up "))) ;;;
  output (s_start "Detecting package managers") ;;;
  packageManagers <- PM.detectPackageManagers ;;
  (if (List.length packageManagers =? 0)%nat then
     output (s_stop "No package managers found") ;;;
     output (p_outro (pc red "No package managers (npm, pnpm, yarn, bun) found on your system")) ;;;
     process_exit 1
   else ret tt) ;;;
  output (s_stop ("Found " ++ pc cyan (JS.show_nat (List.length packageManagers)) ++
                  " package manager" ++ plural (List.length packageManagers) ++ ": " ++
                  pc cyan (JS.join ", " (map pm_name packageManagers)))) ;;;
  output (s_start "Fetching global packages") ;;;
  allPackages <- enumerate packageManagers ;;
  (if (List.length allPackages =? 0)%nat then
     output (s_stop "No global packages found") ;;;
     output (p_outro (pc yellow "No global packages found to update")) ;;;
     process_exit 0
   else ret tt) ;;;
  output (s_stop ("Found " ++ pc cyan (JS.show_nat (List.length allPackages)) ++
                  " global package" ++ plural (List.length allPackages))) ;;;
  output (s_start "Checking for updates") ;;;
  packagesWithLatest <- check allPackages ;;
  let updatablePackages := filter hasUpdate packagesWithLatest in
  (if (List.length updatablePackages =? 0)%nat then
     output (s_stop "Check complete") ;;;
     output (p_outro (pc green "All packages are up to date!")) ;;;
     process_exit 0
   else ret tt) ;;;
  output (s_stop ("Found " ++ pc cyan (JS.show_nat (List.length updatablePackages)) ++
                  " package" ++ plural (List.length updatablePackages) ++
                  " with updates")) ;;;
  selected <- multiselect "Select packages to upgrade:" updatablePackages ;;
  packagesToUpgrade <-
    match selected with
    | SelectCancelled =>
        output (p_cancel "Operation cancelled") ;;;
        process_exit 0
    | Selected values => ret values
    end ;;
  (if (List.length packagesToUpgrade =? 0)%nat then
     output (p_outro (pc yellow "No packages selected")) ;;;
     process_exit 0
   else ret tt) ;;;
  answer <- confirm ("Upgrade " ++ JS.show_nat (List.length packagesToUpgrade) ++
                     " package" ++ plural (List.length packagesToUpgrade) ++ "?") ;;
  match answer with
  | Confirmed true => ret tt
  | _ =>
      output (p_cancel "Operation cancelled") ;;;
      process_exit 0
  end ;;;
  upgrade packagesToUpgrade.

(** The entry point: [run().catch(...)]. *)
Definition main : M unit :=
  try_catch run
    (fun error =>
       output (console_error "Fatal error:" error) ;;;
       process_exit 1).

End WithWorld.

End Cli.

(** ** [src/index.ts]: the upgrade tool *)

Module Index.
Import Model Runtime Orchestrator.

(** What [execute] returns: [{ success, message }], or the summary of
    the upgrades [{ success, upgraded, total, failed, message }]. *)
Inductive ToolResult : Type :=
| Outcome_of (success : bool) (message : string)
| Summary (success : bool) (upgraded total : nat) (failed : list string)
    (message : string).

Definition success_of (r : ToolResult) : bool :=
  match r with
  | Outcome_of success _ => success
  | Summary success _ _ _ _ => success
  end.

Definition failed_of (r : ToolResult) : list string :=
  match r with
  | Outcome_of _ _ => []
  | Summary _ _ _ failed _ => failed
  end.

Section WithWorld.
Context {W : World}.

(** [promptPackageSelection(packages)] *)
Definition promptPackageSelection (packages : list PackageWithLatest)
    : M (list PackageWithLatest) :=
  selected <- multiselect "Select packages to upgrade:" packages ;;
  match selected with
  | SelectCancelled => ret []
  | Selected values =>
      if (List.length values =? 0)%nat then ret []
      else
        let packagesToUpgrade := values in
        confirmUpgrade <-
          confirm ("Upgrade " ++ JS.show_nat (List.length packagesToUpgrade) ++
                   " package" ++ plural (List.length packagesToUpgrade) ++ "?") ;;
        match confirmUpgrade with
        | Confirmed true => ret packagesToUpgrade
        | _ => ret []
        end
  end.

(** The body of the loop over [packagesByPM] of [execute]: the upgrade
    of one group, which gives the new values of [processedCount] and
    [failed]. *)
Definition upgrade_group (totalCount : nat) (state : nat * list string)
    (group : PackageManager * list PackageWithLatest) : M (nat * list string) :=
  let '(processedCount, failed) := state in
  let '(pm, packages) := group in
  let packageNames := map (fun p => name (pkg p)) packages in
  let packageList := JS.join ", " packageNames in
  output (s_update
            (progress processedCount (List.length packages) totalCount
               packageList pm)) ;;;
  try_catch
    (PM.upgradePackages pm packageNames ;;;
     ret ((processedCount + List.length packages)%nat, failed))
    (fun error =>
       output (s_fail ("Failed to upgrade packages via " ++ pm_name pm)) ;;;
       ret (processedCount,
            (failed ++ [(pm_name pm ++ ": " ++ String_of_Exn error)%string])%list)).

(** The message of the result of [execute] after the upgrades. *)
Definition summary_message (processedCount totalCount : nat) (failed : list string)
    : string :=
  if (List.length failed =? 0)%nat then
    "Successfully upgraded " ++ JS.show_nat processedCount ++ " package" ++
    plural processedCount ++ "!"
  else
    "Upgraded " ++ JS.show_nat processedCount ++ "/" ++ JS.show_nat totalCount ++
    " packages. " ++ JS.show_nat (List.length failed) ++ " failed.".

(** The Upgrading state of [execute], from [spinner("Upgrading
    packages")] to the result. *)
Definition upgrade (packagesToUpgrade : list PackageWithLatest) : M ToolResult :=
  output (spinner "Upgrading packages") ;;;
  let packagesByPM := group_by_pm packagesToUpgrade in
  let totalCount := List.length packagesToUpgrade in
  state <- for_of packagesByPM (upgrade_group totalCount) (0%nat, []) ;;
  let '(processedCount, failed) := state in
  (if (processedCount =? totalCount)%nat then output (s_succeed "All packages upgraded")
   else output (s_fail "Upgrade completed with errors")) ;;;
  ret (Summary
         (List.length failed =? 0)%nat processedCount totalCount failed
         (summary_message processedCount totalCount failed)).

(** [upgradeTool.execute(args)], for [args.all] truthy or not. *)
Definition execute (all : bool) : M ToolResult :=
  output (spinner "Detecting package managers") ;;;
  packageManagers <- PM.detectPackageManagers ;;
  (if (List.length packageManagers =? 0)%nat then
     output (s_fail "No package managers found") ;;;
     throw (Error "No package managers (npm, pnpm, yarn, bun) found on your system")
   else ret tt) ;;;
  output (s_succeed ("Found " ++ colors cyan (JS.show_nat (List.length packageManagers)) ++
                     " package manager" ++ plural (List.length packageManagers) ++ ": " ++
                     colors cyan (JS.join ", " (map pm_name packageManagers)))) ;;;
  output (spinner "Fetching global packages") ;;;
  allPackages <- enumerate packageManagers ;;
  if (List.length allPackages =? 0)%nat then
    output (s_succeed "No global packages found") ;;;
    ret (Outcome_of true "No global packages found to update")
  else
  output (s_succeed ("Found " ++ colors cyan (JS.show_nat (List.length allPackages)) ++
                     " global package" ++ plural (List.length allPackages))) ;;;
  output (spinner "Checking for updates") ;;;
  packagesWithLatest <- check allPackages ;;
  let updatablePackages := filter hasUpdate packagesWithLatest in
  if (List.length updatablePackages =? 0)%nat then
    output (s_succeed "All packages are up to date!") ;;;
    ret (Outcome_of true "All packages are up to date!")
  else
  output (s_succeed ("Found " ++ colors cyan (JS.show_nat (List.length updatablePackages)) ++
                     " package" ++ plural (List.length updatablePackages) ++
                     " with updates")) ;;;
  packagesToUpgrade <-
    (if all then ret updatablePackages
     else promptPackageSelection updatablePackages) ;;
  if (List.length packagesToUpgrade =? 0)%nat then
    ret (Outcome_of false "No packages selected for upgrade")
  else upgrade packagesToUpgrade.

End WithWorld.

End Index.

(** ** Kinds of interactions *)

Module Events.
Import Model Runtime.

(** The lines written with [p.log.error]. *)
Definition logged_errors (events : list Event) : list string :=
  flat_map
    (fun e => match e with EvOutput (p_log_error text) => [text] | _ => [] end)
    events.

(** A command [upgradePackages] runs starts in one of these ways. *)
Definition upgrade_prefixes : list string :=
  ["npm install -g "; "pnpm add -g "; "yarn global add "; "bun add -g "].

Definition is_upgrade_command (command : string) : bool :=
  existsb
    (fun p => match JS.starts_with p command with Some _ => true | None => false end)
    upgrade_prefixes.

(** The run of an upgrade command. *)
Definition is_upgrade (e : Event) : bool :=
  match e with
  | EvExec command _ => is_upgrade_command command
  | _ => false
  end.

(** A prompt the user cancelled, left without a selection or declined. *)
Definition is_cancel (e : Event) : bool :=
  match e with
  | EvMultiselect _ _ SelectCancelled => true
  | EvMultiselect _ _ (Selected []) => true
  | EvConfirm _ ConfirmCancelled => true
  | EvConfirm _ (Confirmed false) => true
  | _ => false
  end.

Definition is_prompt (e : Event) : bool :=
  match e with
  | EvMultiselect _ _ _ | EvConfirm _ _ => true
  | _ => false
  end.

(** Neither a prompt nor an upgrade. *)
Definition is_calm (e : Event) : bool := negb (is_upgrade e) && negb (is_prompt e).

Definition not_prompt (e : Event) : bool := negb (is_prompt e).

Definition is_output (e : Event) : bool :=
  match e with
  | EvOutput _ => true
  | _ => false
  end.

Definition is_fetch (e : Event) : bool :=
  match e with
  | EvFetch _ _ => true
  | _ => false
  end.

(** The run of the listing command of one of [pms]. *)
Definition is_listing_of (pms : list PackageManager) (e : Event) : bool :=
  match e with
  | EvExec command _ => existsb (fun pm => String.eqb command (PM.list_command pm)) pms
  | _ => false
  end.

(** The [version] a registry answer [data] has: a truthy value under
    that key. *)
Definition version_of (data : JS.JValue) : option JS.JValue :=
  match JS.get data "version" with
  | Some (Some v) => if JS.truthy v then Some v else None
  | _ => None
  end.

(** The address [getLatestVersion] asks. *)
Definition latest_url (packageName : string) : string :=
  "https://registry.npmjs.org/" ++ packageName ++ "/latest".

(** On a run where a prompt was cancelled, the end is a [good] one and
    no upgrade command was run. *)
Definition cancel_safe {A : Type} (good : Outcome A -> Prop) (o : Outcome A)
    (new : list Event) : Prop :=
  existsb is_cancel new = true -> good o /\ existsb is_upgrade new = false.

Definition succeeded (r : ExecResult) : bool :=
  match r with
  | ExecOk _ => true
  | ExecFailed _ => false
  end.

(** The probe of a manager and its answer, as an interaction. *)
Definition probe (p : PackageManager * ExecResult) : Event :=
  EvExec ("which " ++ pm_name (fst p)) (snd p).

(** The command that upgrades a group. *)
Definition group_command (group : PackageManager * list PackageWithLatest) : string :=
  let packageNames := map (fun p => name (pkg p)) (snd group) in
  PM.upgrade_command (fst group)
    (JS.join " " (map (fun name => name ++ "@latest") packageNames)).

Definition is_exec (e : Event) : bool :=
  match e with
  | EvExec _ _ => true
  | _ => false
  end.

(** The run of the command that upgrades a group, with its answer. *)
Definition attempt
    (a : (PackageManager * list PackageWithLatest) * ExecResult) : Event :=
  EvExec (group_command (fst a)) (snd a).

(** The line reported for a group whose upgrade failed. *)
Definition failure_line
    (a : (PackageManager * list PackageWithLatest) * ExecResult) : list string :=
  match snd a with
  | ExecOk _ => []
  | ExecFailed detail => [pm_name (fst (fst a)) ++ ": " ++ detail]
  end.

(** The number of packages of the groups whose upgrade succeeded. *)
Fixpoint upgraded_count
    (attempts : list ((PackageManager * list PackageWithLatest) * ExecResult)) : nat :=
  match attempts with
  | [] => 0
  | (group, ExecOk _) :: attempts' => List.length (snd group) + upgraded_count attempts'
  | (_, ExecFailed _) :: attempts' => upgraded_count attempts'
  end.

(** The probes of the four managers, for the answers they got. *)
Definition probes (answers : list ExecResult) : list (PackageManager * ExecResult) :=
  combine PM.managers answers.

(** The managers whose probe succeeded. *)
Definition present (answers : list ExecResult) : list PackageManager :=
  map fst (filter (fun p => succeeded (snd p)) (probes answers)).

Definition mem (pm : PackageManager) (pms : list PackageManager) : bool :=
  existsb (PackageManager_eqb pm) pms.

(** An interaction that involves no other manager than [pms]: the
    command is the listing command of none of the others, and the
    options of the prompt are packages of none of the others. *)
Definition within (pms : list PackageManager) (e : Event) : bool :=
  match e with
  | EvExec command _ =>
      forallb
        (fun pm => implb (String.eqb command (PM.list_command pm)) (mem pm pms))
        PM.managers
  | EvMultiselect _ options _ => forallb (fun p => mem (pm (pkg p)) pms) options
  | _ => true
  end.

(** The probe of [pm] succeeded during [events]. *)
Definition detected (events : list Event) (pm : PackageManager) : Prop :=
  exists stdout, In (EvExec ("which " ++ pm_name pm) (ExecOk stdout)) events.

(** The listing commands run during [events] and the packages offered
    for upgrade are those of managers detected during [events]. *)
Definition attributed (events : list Event) : Prop :=
  (forall pm r, In (EvExec (PM.list_command pm) r) events -> detected events pm) /\
  (forall message options r p,
     In (EvMultiselect message options r) events -> In p options ->
     detected events (pm (pkg p))).

(** A run that starts with messages and the four probes and then
    involves the managers found present only. *)
Definition starts_with_detection (events : list Event) : Prop :=
  exists answers before rest,
    List.length answers = 4 /\
    events = (before ++ map probe (probes answers) ++ rest)%list /\
    forallb is_output before = true /\
    forallb (within (present answers)) rest = true.

End Events.

(** ** The components of a version *)

Module Components.

(** What is left of a version after its leading characters that are no
    digits. *)
Fixpoint without_prefix (v : string) : string :=
  match v with
  | EmptyString => EmptyString
  | String c rest => if JS.is_digit c then v else without_prefix rest
  end.

(** The parts of a version: what its dots separate, after the prefix. *)
Definition parts_of (v : string) : list string := JS.split "." (without_prefix v).

(** The component of a version at the position [i]: the number its part
    converts to, or 0 when the part is missing or converts to 0 or to
    no number. *)
Definition number_at (v : string) (i : nat) : JS.number :=
  match nth_error (parts_of v) i with
  | Some part =>
      match JS.Number part with
      | S754_nan | S754_zero _ => JS.zero
      | x => x
      end
  | None => JS.zero
  end.

(** The number of positions compared. *)
Definition positions (current latest : string) : nat :=
  Nat.max (List.length (parts_of current)) (List.length (parts_of latest)).

End Components.

(** ** The comparison of versions as the specification words it *)

Module Claimed.

(** The numeric components of a version are the numbers obtained by
    splitting on [.] what is left after the prefix of non-digits, which
    is [Registry.components]; a missing component is treated as 0. *)
Definition component (v : string) (i : nat) : JS.number :=
  nth i (Registry.components v) JS.zero.

(** Left to right from position [i], for [n] more positions: at the
    first position where the components differ, whether the component
    of [latest] exceeds the one of [current]; false when they are all
    equal. *)
Fixpoint newer_from (current latest : string) (i n : nat) : bool :=
  match n with
  | 0 => false
  | S n' =>
      if negb (JS.equal (component current i) (component latest i)) then
        JS.gt (component latest i) (component current i)
      else newer_from current latest (S i) n'
  end.

Definition isNewer (current latest : string) : bool :=
  newer_from current latest 0
    (Nat.max (List.length (Registry.components current))
       (List.length (Registry.components latest))).

End Claimed.

(** ** The order of Numbers *)

Module Ranking.

(** The place of a Number in the order of Numbers, for a Number that is
    not [NaN]: its sign, then its exponent and its significand, which
    count downwards for a negative Number. *)
Definition rank (x : JS.number) : Z * (Z * Z) :=
  match x with
  | S754_zero _ | S754_nan => (0, (0, 0))
  | S754_infinity false => (2, (0, 0))
  | S754_infinity true => (-2, (0, 0))
  | S754_finite false m e => (1, (e, Zpos m))
  | S754_finite true m e => (-1, (- e, Zneg m))
  end%Z.

Definition before (a b : Z * (Z * Z)) : Prop :=
  (fst a < fst b \/
   (fst a = fst b /\
    (fst (snd a) < fst (snd b) \/
     (fst (snd a) = fst (snd b) /\ snd (snd a) < snd (snd b)))))%Z.

(** [latest] is ahead of [current] at the first position where their
    components differ. *)
Definition ahead (currentParts latestParts : list JS.number) : Prop :=
  exists k,
    (forall j, j < k ->
       rank (JS.index_or_zero currentParts j) = rank (JS.index_or_zero latestParts j)) /\
    before (rank (JS.index_or_zero currentParts k))
      (rank (JS.index_or_zero latestParts k)).

End Ranking.

(** ** Kinds of texts *)

Module Text.

(** Every character of [s] satisfies [P]. *)
Fixpoint all_chars (P : ascii -> bool) (s : string) : bool :=
  match s with
  | EmptyString => true
  | String c s' => P c && all_chars P s'
  end.

Definition no_digit (s : string) : bool :=
  all_chars (fun c => negb (JS.is_digit c)) s.

(** A printable ASCII character that is no space. *)
Definition is_graph (c : ascii) : bool :=
  let n := nat_of_ascii c in (33 <=? n)%nat && (n <=? 126)%nat.

(** A printable ASCII character. *)
Definition is_print (c : ascii) : bool :=
  let n := nat_of_ascii c in (32 <=? n)%nat && (n <=? 126)%nat.

Definition begins_with (P : ascii -> bool) (s : string) : bool :=
  match s with
  | String c _ => P c
  | EmptyString => false
  end.

Fixpoint ends_with (P : ascii -> bool) (s : string) : bool :=
  match s with
  | EmptyString => false
  | String c EmptyString => P c
  | String _ s' => ends_with P s'
  end.

(** Printable characters, the first and the last of which are no
    spaces. *)
Definition phrase (s : string) : bool :=
  all_chars is_print s && begins_with is_graph s && ends_with is_graph s.

(** Printable characters without a space, one at least. *)
Definition word (s : string) : bool :=
  negb (String.eqb s "") && all_chars is_graph s.

(** A word with no [@] after its first character. *)
Definition package_name (s : string) : bool :=
  match s with
  | String c r =>
      is_graph c && all_chars (fun c => is_graph c && negb (Ascii.eqb c "@")) r
  | EmptyString => false
  end.

End Text.

(** ** The listings the package managers print *)

Module Listings.
Import Model Text.

Definition newline : ascii := ascii_of_nat 10.

(** The lines of a listing, as a manager prints them. *)
Definition listing (lines : list string) : string :=
  JS.join (String newline "") lines.

(** A line of [bun pm ls -g]: a line without [@], as the header is, or
    the line of a package, after the branch of the tree. *)
Inductive BunLine : Type :=
| BunOther (text : string)
| BunPackage (last : bool) (name version : string).

Definition bun_line (l : BunLine) : string :=
  match l with
  | BunOther text => text
  | BunPackage last name version =>
      (if last then "└── " else "├── ") ++ name ++ "@" ++ version
  end.

Definition bun_line_ok (l : BunLine) : bool :=
  match l with
  | BunOther text =>
      all_chars (fun c => negb (Ascii.eqb c "@") && negb (Ascii.eqb c newline)) text
  | BunPackage _ name version => package_name name && phrase version
  end.

Definition bun_line_records (pm : PackageManager) (l : BunLine) : list GlobalPackage :=
  match l with
  | BunOther _ => []
  | BunPackage _ name version =>
      [{| name := name; version := JS.JStr version; pm := pm |}]
  end.

(** A line of [pnpm list -g --depth 0]: a line without white space
    (an empty line, a path, a title), or a word, a space and what
    follows it. *)
Inductive PnpmLine : Type :=
| PnpmWord (text : string)
| PnpmPair (first rest : string).

Definition pnpm_line (l : PnpmLine) : string :=
  match l with
  | PnpmWord text => text
  | PnpmPair first rest => first ++ " " ++ rest
  end.

Definition pnpm_line_ok (l : PnpmLine) : bool :=
  match l with
  | PnpmWord text => all_chars is_graph text
  | PnpmPair first rest => word first && phrase rest
  end.

Definition pnpm_line_records (pm : PackageManager) (l : PnpmLine) : list GlobalPackage :=
  match l with
  | PnpmWord _ => []
  | PnpmPair first rest =>
      [{| name := first; version := JS.JStr rest; pm := pm |}]
  end.




(** The record of an entry of [dependencies] in the listing of npm. *)
Definition npm_entry_records (pm : PackageManager) (entry : string * JS.JValue)
    : list GlobalPackage :=
  match JS.get (snd entry) "version" with
  | Some (Some v) =>
      if JS.truthy v then [{| name := fst entry; version := v; pm := pm |}] else []
  | _ => []
  end.

End Listings.

(** ** The groups of packages *)

Module Grouping.
Import Model.

(** The managers of [l], each once, in the order they first occur. *)
Fixpoint first_occurrences (l : list PackageManager) : list PackageManager :=
  match l with
  | [] => []
  | k :: l' =>
      k :: filter (fun k' => negb (PackageManager_eqb k' k)) (first_occurrences l')
  end.

(** The packages of the manager [k], in their order. *)
Definition packages_of (k : PackageManager) (packages : list PackageWithLatest)
    : list PackageWithLatest :=
  filter (fun p => PackageManager_eqb (pm (pkg p)) k) packages.

End Grouping.

(** ** The shapes of a run *)

Module Shapes.
Import Model Runtime Events Orchestrator.

(** The run of the listing command of a manager, with its answer. *)
Definition listing_of (p : PackageManager * ExecResult) : Event :=
  EvExec (PM.list_command (fst p)) (snd p).

(** A package that has an update: [compareVersions] finds its latest
    version newer than the version installed, both being strings. *)
Definition newer (p : PackageWithLatest) : bool :=
  hasUpdate p &&
  match version (pkg p), latestVersion p with
  | JS.JStr current, JS.JStr latest => Registry.compareVersions current latest
  | _, _ => false
  end.

(** The interactions of the loop over the groups of [values]: messages
    and the upgrade command of each group, with its answer. *)
Definition upgrades_of (values : list PackageWithLatest) (answers : list ExecResult)
    (middle : list Event) : Prop :=
  List.length answers = List.length (group_by_pm values) /\
  filter is_exec middle = map attempt (combine (group_by_pm values) answers) /\
  forallb (fun e => is_output e || is_exec e) middle = true.

(** The question of the confirmation prompt. *)
Definition confirm_message (values : list PackageWithLatest) : string :=
  "Upgrade " ++ JS.show_nat (List.length values) ++ " package" ++
  plural (List.length values) ++ "?".

(** The prompts of [promptPackageSelection] when it returns no package:
    the selection is cancelled or empty, or the confirmation is cancelled
    or declined. *)
Definition declined (options : list PackageWithLatest) (prompts : list Event) : Prop :=
  prompts = [EvMultiselect "Select packages to upgrade:" options SelectCancelled] \/
  prompts = [EvMultiselect "Select packages to upgrade:" options (Selected [])] \/
  exists values answer,
    values <> [] /\ answer <> Confirmed true /\
    prompts =
      [EvMultiselect "Select packages to upgrade:" options (Selected values);
       EvConfirm (confirm_message values) answer].

(** The prompts before the packages [values] are upgraded: none with
    [all], when every package that has an update is upgraded, or a
    selection that is not empty and its confirmation. *)
Definition accepted (all : bool) (options values : list PackageWithLatest)
    (prompts : list Event) : Prop :=
  (all = true /\ values = options /\ prompts = []) \/
  (all = false /\ values <> [] /\
   prompts =
     [EvMultiselect "Select packages to upgrade:" options (Selected values);
      EvConfirm (confirm_message values) (Confirmed true)]).

(** A confirmation answered yes. *)
Definition is_yes (e : Event) : bool :=
  match e with
  | EvConfirm _ (Confirmed true) => true
  | _ => false
  end.

(** Every upgrade command of [events] comes after a confirmation
    answered yes; [confirmed] says whether one came before [events]. *)
Fixpoint confirmed_first (confirmed : bool) (events : list Event) : bool :=
  match events with
  | [] => true
  | e :: events' =>
      if is_upgrade e then confirmed && confirmed_first confirmed events'
      else confirmed_first (confirmed || is_yes e) events'
  end.

(** The upgrade commands run during [events], in their order. *)
Definition upgrade_commands (events : list Event) : list string :=
  commands_of (filter is_upgrade events).

(** A selection prompt offers packages that have an update, one at
    least. *)
Definition offers_updates (e : Event) : bool :=
  match e with
  | EvMultiselect _ options _ =>
      negb (List.length options =? 0)%nat && forallb newer options
  | _ => true
  end.


Section WithWorld.
Context {W : World}.

(** The ways a run of [run] goes: how it ends and what it adds to the
    trace.  [calm] holds the messages, the probes, the listings and the
    requests to the registry that come first. *)
Inductive run_shape : Outcome unit -> list Event -> Prop :=
| run_no_manager (calm : list Event) :
    forallb is_calm calm = true ->
    run_shape (Exit 1)
      (calm ++
       [EvOutput (s_stop "No package managers found");
        EvOutput
          (p_outro (pc red "No package managers (npm, pnpm, yarn, bun) found on your system"))])
| run_no_package (calm : list Event) :
    forallb is_calm calm = true ->
    run_shape (Exit 0)
      (calm ++
       [EvOutput (s_stop "No global packages found");
        EvOutput (p_outro (pc yellow "No global packages found to update"))])
| run_check_threw (calm : list Event) (e : Exn) :
    forallb is_calm calm = true -> run_shape (Throw e) calm
| run_up_to_date (calm : list Event) :
    forallb is_calm calm = true ->
    run_shape (Exit 0)
      (calm ++
       [EvOutput (s_stop "Check complete");
        EvOutput (p_outro (pc green "All packages are up to date!"))])
| run_selection_cancelled (calm : list Event) (options : list PackageWithLatest) :
    forallb is_calm calm = true -> options <> [] -> forallb newer options = true ->
    run_shape (Exit 0)
      (calm ++
       [EvMultiselect "Select packages to upgrade:" options SelectCancelled;
        EvOutput (p_cancel "Operation cancelled")])
| run_nothing_selected (calm : list Event) (options : list PackageWithLatest) :
    forallb is_calm calm = true -> options <> [] -> forallb newer options = true ->
    run_shape (Exit 0)
      (calm ++
       [EvMultiselect "Select packages to upgrade:" options (Selected []);
        EvOutput (p_outro (pc yellow "No packages selected"))])
| run_not_confirmed (calm : list Event) (options values : list PackageWithLatest)
    (answer : ConfirmResult) :
    forallb is_calm calm = true -> options <> [] -> forallb newer options = true ->
    values <> [] -> answer <> Confirmed true ->
    run_shape (Exit 0)
      (calm ++
       [EvMultiselect "Select packages to upgrade:" options (Selected values);
        EvConfirm (confirm_message values) answer;
        EvOutput (p_cancel "Operation cancelled")])
| run_upgraded (calm : list Event) (options values : list PackageWithLatest)
    (answers : list ExecResult) (middle : list Event) :
    forallb is_calm calm = true -> options <> [] -> forallb newer options = true ->
    values <> [] -> upgrades_of values answers middle ->
    run_shape (Return tt)
      (calm ++
       [EvMultiselect "Select packages to upgrade:" options (Selected values);
        EvConfirm (confirm_message values) (Confirmed true);
        EvOutput (s_start "Upgrading packages")] ++
       middle ++
       [EvOutput (s_stop "All packages upgraded");
        EvOutput (p_outro (pc green "Successfully upgraded all selected packages!"))]).

(** The ways a run of [execute] goes. *)
Inductive execute_shape (all : bool) : Outcome Index.ToolResult -> list Event -> Prop :=
| execute_no_manager (calm : list Event) :
    forallb is_calm calm = true ->
    execute_shape all
      (Throw (Error "No package managers (npm, pnpm, yarn, bun) found on your system"))
      (calm ++ [EvOutput (s_fail "No package managers found")])
| execute_no_package (calm : list Event) :
    forallb is_calm calm = true ->
    execute_shape all
      (Return (Index.Outcome_of true "No global packages found to update"))
      (calm ++ [EvOutput (s_succeed "No global packages found")])
| execute_check_threw (calm : list Event) (e : Exn) :
    forallb is_calm calm = true -> execute_shape all (Throw e) calm
| execute_up_to_date (calm : list Event) :
    forallb is_calm calm = true ->
    execute_shape all
      (Return (Index.Outcome_of true "All packages are up to date!"))
      (calm ++ [EvOutput (s_succeed "All packages are up to date!")])
| execute_none_selected (calm : list Event) (options : list PackageWithLatest)
    (prompts : list Event) :
    forallb is_calm calm = true -> options <> [] -> forallb newer options = true ->
    all = false -> declined options prompts ->
    execute_shape all
      (Return (Index.Outcome_of false "No packages selected for upgrade"))
      (calm ++ prompts)
| execute_upgraded (calm : list Event) (options values : list PackageWithLatest)
    (prompts : list Event) (answers : list ExecResult) (middle : list Event) :
    forallb is_calm calm = true -> options <> [] -> forallb newer options = true ->
    accepted all options values prompts -> upgrades_of values answers middle ->
    let attempts := combine (group_by_pm values) answers in
    execute_shape all
      (Return
         (Index.Summary (forallb succeeded answers) (upgraded_count attempts)
            (List.length values) (flat_map failure_line attempts)
            (Index.summary_message (upgraded_count attempts) (List.length values)
               (flat_map failure_line attempts))))
      (calm ++ prompts ++
       [EvOutput (spinner "Upgrading packages")] ++ middle ++
       [EvOutput (if forallb succeeded answers then s_succeed "All packages upgraded"
                  else s_fail "Upgrade completed with errors")]).



End WithWorld.

End Shapes.

(** ** The search for updates *)

Module Searches.
Import Model Runtime Events Orchestrator Shapes.

(** The four candidates, in the order they are probed. *)
Definition candidates : list PackageManager := [npm; pnpm; yarn; bun].

(** The probes of the candidates, for the answers they got. *)
Definition probes_of (answers : list ExecResult) : list Event :=
  map probe (combine candidates answers).

(** The candidates whose probe succeeded. *)
Definition found (answers : list ExecResult) : list PackageManager :=
  map fst (filter (fun p => succeeded (snd p)) (combine candidates answers)).

(** The listings of [managers], for the answers they got. *)
Definition listings_of (managers : list PackageManager) (results : list ExecResult)
    : list Event :=
  map listing_of (combine managers results).

(** The request for the latest version of a package, with its answer. *)
Definition lookup_of (p : GlobalPackage * FetchResult) : Event :=
  EvFetch ("https://registry.npmjs.org/" ++ name (fst p) ++ "/latest") (snd p).

(** The latest version an answer of the registry gives: the truthy
    [version] of the body of a successful response. *)
Definition latest_in (r : FetchResult) : option JS.JValue :=
  match r with
  | FetchResponse true (Some data) => version_of data
  | _ => None
  end.

(** Whether a package has an update, for its version and a latest
    version that are strings or falsy; [None] when one is neither, and
    the comparison throws a TypeError. *)
Definition has_update (current latest : JS.JValue) : option bool :=
  match current, latest with
  | JS.JStr c, JS.JStr l => Some (Registry.compareVersions c l)
  | _, _ => if JS.truthy current && JS.truthy latest then None else Some false
  end.

(** What the check of a package adds to [packagesWithLatest], for the
    answer of the registry: nothing without a latest version; [None]
    when the comparison throws. *)
Definition checked (p : GlobalPackage * FetchResult) : option (list PackageWithLatest) :=
  match latest_in (snd p) with
  | None => Some []
  | Some latest =>
      match has_update (version (fst p)) latest with
      | Some b => Some [{| pkg := fst p; latestVersion := latest; hasUpdate := b |}]
      | None => None
      end
  end.

Fixpoint all_checked (pairs : list (GlobalPackage * FetchResult))
    : option (list PackageWithLatest) :=
  match pairs with
  | [] => Some []
  | p :: pairs' =>
      match checked p, all_checked pairs' with
      | Some entry, Some entries => Some (entry ++ entries)%list
      | _, _ => None
      end
  end.

(** The interactions that are no messages. *)
Definition requests (events : list Event) : list Event :=
  filter (fun e => negb (is_output e)) events.

(** What a search ends with: no manager, no package, an exception of
    the check, no update, or the packages that have an update. *)
Inductive Found : Type :=
| NoManager
| NoPackage
| CheckThrew
| UpToDate
| Updates (options : list PackageWithLatest).

(** The packages to offer or to upgrade. *)
Definition updates (f : Found) : list PackageWithLatest :=
  match f with
  | Updates options => options
  | _ => []
  end.

(** The packages of the selection that was confirmed: the values of a
    selection prompt that a confirmation answered yes follows. *)
Fixpoint confirmed_selection (events : list Event) : list PackageWithLatest :=
  match events with
  | [] => []
  | e :: events' =>
      match e, events' with
      | EvMultiselect _ _ (Selected values), EvConfirm _ (Confirmed true) :: _ => values
      | _, _ => confirmed_selection events'
      end
  end.

Section WithWorld.
Context {W : World}.

(** The packages the listing of a manager gives, for the answer of its
    command: none when the command failed, or when the document of npm
    cannot be read. *)
Definition listed (p : PackageManager * ExecResult) : list GlobalPackage :=
  match snd p with
  | ExecFailed _ => []
  | ExecOk stdout =>
      match fst p with
      | bun => PM.bun_packages bun stdout
      | pnpm => PM.pnpm_packages pnpm stdout
      | yarn => PM.yarn_packages yarn stdout
      | npm =>
          match fst (PM.npm_packages npm stdout []) with
          | Return packages => packages
          | _ => []
          end
      end
  end.

Definition packages_listed (managers : list PackageManager) (results : list ExecResult)
    : list GlobalPackage :=
  flat_map listed (combine managers results).

(** The requests of a search, in their order, and what it ends with:
    the four probes; then the listing of each manager found; then the
    request of the latest version of each package listed, up to the one
    whose comparison throws, if any. *)
Inductive search : list Event -> Found -> Prop :=
| search_no_manager (answers : list ExecResult) :
    List.length answers = 4 -> found answers = [] ->
    search (probes_of answers) NoManager
| search_no_package (answers listings : list ExecResult) :
    List.length answers = 4 -> found answers <> [] ->
    List.length listings = List.length (found answers) ->
    packages_listed (found answers) listings = [] ->
    search (probes_of answers ++ listings_of (found answers) listings) NoPackage
| search_check_threw (answers listings : list ExecResult) (fetches : list FetchResult) :
    let packages := packages_listed (found answers) listings in
    List.length answers = 4 ->
    List.length listings = List.length (found answers) ->
    List.length fetches <= List.length packages ->
    all_checked (combine packages (removelast fetches)) <> None ->
    all_checked (combine packages fetches) = None ->
    search
      (probes_of answers ++ listings_of (found answers) listings ++
       map lookup_of (combine packages fetches))
      CheckThrew
| search_up_to_date (answers listings : list ExecResult) (fetches : list FetchResult)
    (packagesWithLatest : list PackageWithLatest) :
    let packages := packages_listed (found answers) listings in
    List.length answers = 4 ->
    List.length listings = List.length (found answers) ->
    packages <> [] ->
    List.length fetches = List.length packages ->
    all_checked (combine packages fetches) = Some packagesWithLatest ->
    filter hasUpdate packagesWithLatest = [] ->
    search
      (probes_of answers ++ listings_of (found answers) listings ++
       map lookup_of (combine packages fetches))
      UpToDate
| search_updates (answers listings : list ExecResult) (fetches : list FetchResult)
    (packagesWithLatest : list PackageWithLatest) :
    let packages := packages_listed (found answers) listings in
    List.length answers = 4 ->
    List.length listings = List.length (found answers) ->
    List.length fetches = List.length packages ->
    all_checked (combine packages fetches) = Some packagesWithLatest ->
    filter hasUpdate packagesWithLatest <> [] ->
    search
      (probes_of answers ++ listings_of (found answers) listings ++
       map lookup_of (combine packages fetches))
      (Updates (filter hasUpdate packagesWithLatest)).

(** How [run] ends after a search: the outcome and the interactions
    that follow the search. *)
Inductive run_end : Found -> Outcome unit -> list Event -> Prop :=
| run_end_no_manager :
    run_end NoManager (Exit 1)
      [EvOutput (s_stop "No package managers found");
       EvOutput
         (p_outro (pc red "No package managers (npm, pnpm, yarn, bun) found on your system"))]
| run_end_no_package :
    run_end NoPackage (Exit 0)
      [EvOutput (s_stop "No global packages found");
       EvOutput (p_outro (pc yellow "No global packages found to update"))]
| run_end_check_threw :
    run_end CheckThrew (Throw TypeError) []
| run_end_up_to_date :
    run_end UpToDate (Exit 0)
      [EvOutput (s_stop "Check complete");
       EvOutput (p_outro (pc green "All packages are up to date!"))]
| run_end_selection_cancelled (options : list PackageWithLatest) :
    run_end (Updates options) (Exit 0)
      [EvMultiselect "Select packages to upgrade:" options SelectCancelled;
       EvOutput (p_cancel "Operation cancelled")]
| run_end_nothing_selected (options : list PackageWithLatest) :
    run_end (Updates options) (Exit 0)
      [EvMultiselect "Select packages to upgrade:" options (Selected []);
       EvOutput (p_outro (pc yellow "No packages selected"))]
| run_end_not_confirmed (options values : list PackageWithLatest)
    (answer : ConfirmResult) :
    values <> [] -> answer <> Confirmed true ->
    run_end (Updates options) (Exit 0)
      [EvMultiselect "Select packages to upgrade:" options (Selected values);
       EvConfirm (confirm_message values) answer;
       EvOutput (p_cancel "Operation cancelled")]
| run_end_upgraded (options values : list PackageWithLatest)
    (answers : list ExecResult) (middle : list Event) :
    values <> [] -> upgrades_of values answers middle ->
    run_end (Updates options) (Return tt)
      ([EvMultiselect "Select packages to upgrade:" options (Selected values);
        EvConfirm (confirm_message values) (Confirmed true);
        EvOutput (s_start "Upgrading packages")] ++
       middle ++
       [EvOutput (s_stop "All packages upgraded");
        EvOutput (p_outro (pc green "Successfully upgraded all selected packages!"))]).

(** How [execute] ends after a search. *)
Inductive execute_end (all : bool)
    : Found -> Outcome Index.ToolResult -> list Event -> Prop :=
| execute_end_no_manager :
    execute_end all NoManager
      (Throw (Error "No package managers (npm, pnpm, yarn, bun) found on your system"))
      [EvOutput (s_fail "No package managers found")]
| execute_end_no_package :
    execute_end all NoPackage
      (Return (Index.Outcome_of true "No global packages found to update"))
      [EvOutput (s_succeed "No global packages found")]
| execute_end_check_threw :
    execute_end all CheckThrew (Throw TypeError) []
| execute_end_up_to_date :
    execute_end all UpToDate
      (Return (Index.Outcome_of true "All packages are up to date!"))
      [EvOutput (s_succeed "All packages are up to date!")]
| execute_end_none_selected (options : list PackageWithLatest) (prompts : list Event)
    :
    all = false -> declined options prompts ->
    execute_end all (Updates options)
      (Return (Index.Outcome_of false "No packages selected for upgrade"))
      prompts
| execute_end_upgraded (options values : list PackageWithLatest)
    (prompts : list Event) (answers : list ExecResult) (middle : list Event)
    :
    accepted all options values prompts -> upgrades_of values answers middle ->
    let attempts := combine (group_by_pm values) answers in
    execute_end all (Updates options)
      (Return
         (Index.Summary (forallb succeeded answers) (upgraded_count attempts)
            (List.length values) (flat_map failure_line attempts)
            (Index.summary_message (upgraded_count attempts) (List.length values)
               (flat_map failure_line attempts))))
      (prompts ++
       [EvOutput (spinner "Upgrading packages")] ++ middle ++
       [EvOutput (if forallb succeeded answers then s_succeed "All packages upgraded"
                  else s_fail "Upgrade completed with errors")]).

(** What follows a search that made the requests [before] so far: the
    rest of the search, with messages, and an end that what the search
    found allows. *)
Definition continues {A : Type} (finish : Found -> Outcome A -> list Event -> Prop)
    (before : list Event) (o : Outcome A) (new : list Event) : Prop :=
  exists calm rest f,
    new = (calm ++ rest)%list /\ search (before ++ requests calm) f /\ finish f o rest.

End WithWorld.

End Searches.

(** ** Versions written from numbers *)

Module Decimals.

(** The decimal writing of a natural number. *)
Definition show (n : N) : string := NilEmpty.string_of_uint (N.to_uint n).

(** A version written from its numbers, as in [1.2.3]. *)
Definition version_text (numbers : list N) : string := JS.join "." (map show numbers).

(** The Number a natural number below [2 ^ 53] is: the significand has
    53 bits. *)
Definition float_of (n : N) : JS.number :=
  match n with
  | N0 => JS.zero
  | Npos p =>
      match (Z.pos (digits2_pos p) - 53)%Z with
      | Zneg k => S754_finite false (shift_pos k p) (Zneg k)
      | _ => S754_finite false p 0
      end
  end.

(** [latest] is greater than [current] at the first position where
    they differ, a missing number counting as 0. *)
Fixpoint numbers_newer (current latest : list N) : bool :=
  match current, latest with
  | [], _ => existsb (fun l => (0 <? l)%N) latest
  | _ :: _, [] => false
  | c :: current', l :: latest' =>
      if (c <? l)%N then true
      else if (l <? c)%N then false
      else numbers_newer current' latest'
  end.

(** The natural numbers a Number holds exactly. *)
Definition small (n : N) : Prop := (n < 2 ^ 53)%N.

End Decimals.

(** ** Some worlds *)

Module Examples.
Import Model Runtime.

(** What [bun pm ls -g] prints for one global package. *)
Definition bun_listing : string :=
  "/root/.bun/install/global node_modules (1)" ++ JS.bytes [10] ++
  "└── typescript@5.0.0".

Definition typescript_latest : JS.JValue :=
  JS.JObj [("name", JS.JStr "typescript"); ("version", JS.JStr "5.1.0")].

(** A machine with bun only and one global package, which has an
    update; the user answers with [selection] and [answer], and every
    other command fails, the upgrade included. *)
Definition bun_only (selection : list PackageWithLatest -> SelectResult)
    (answer : ConfirmResult) : World := {|
  JSON_parse := fun _ => None;
  pc := fun _ text => text;
  colors := fun _ text => text;
  exec_answer := fun _ command =>
    if String.eqb command "which bun" then ExecOk "/usr/local/bin/bun"
    else if String.eqb command "bun pm ls -g" then ExecOk bun_listing
    else ExecFailed ("Error: Command failed: " ++ command);
  fetch_answer := fun _ url =>
    if String.eqb url "https://registry.npmjs.org/typescript/latest" then
      FetchResponse true (Some typescript_latest)
    else FetchResponse false None;
  multiselect_answer := fun _ _ options => selection options;
  confirm_answer := fun _ _ => answer
|}.

(** The user selects every package and confirms. *)
Definition upgrade_fails : World := bun_only Selected (Confirmed true).

(** The user cancels the selection. *)
Definition user_cancels : World := bun_only (fun _ => SelectCancelled) (Confirmed true).





Definition quote : string := JS.bytes [34].

(** What [npm list -g --depth=0 --json] prints for a package and a
    broken installation, and what [JSON.parse] reads in it. *)
Definition npm_listing : string :=
  "{" ++ quote ++ "dependencies" ++ quote ++ ":{" ++
  quote ++ "typescript" ++ quote ++ ":{" ++
  quote ++ "version" ++ quote ++ ":" ++ quote ++ "5.0.0" ++ quote ++ "}," ++
  quote ++ "broken" ++ quote ++ ":{}}}".

Definition npm_document : JS.JValue :=
  JS.JObj
    [("dependencies",
      JS.JObj
        [("typescript", JS.JObj [("version", JS.JStr "5.0.0")]);
         ("broken", JS.JObj [])])].

(** A machine with npm only, whose listing command prints [stdout]. *)
Definition npm_only (stdout : string) : World := {|
  JSON_parse := fun text => if String.eqb text npm_listing then Some npm_document else None;
  pc := fun _ text => text;
  colors := fun _ text => text;
  exec_answer := fun _ command =>
    if String.eqb command "which npm" then ExecOk "/usr/bin/npm"
    else if String.eqb command "npm list -g --depth=0 --json" then ExecOk stdout
    else ExecFailed ("Error: Command failed: " ++ command);
  fetch_answer := fun _ _ => FetchRejected;
  multiselect_answer := fun _ _ options => Selected options;
  confirm_answer := fun _ _ => Confirmed true
|}.

End Examples.

(** * Properties *)

(** ** Numbers *)

Section Numbers.

Lemma SFcompare_swap (a b : JS.number) (c : comparison) :
  SFcompare a b = Some c -> SFcompare b a = Some (CompOpp c).
Proof.
  destruct a as [sa | sa | | sa ma ea], b as [sb | sb | | sb mb eb];
    simpl; try discriminate;
    try (intros H; injection H as <-;
         repeat match goal with s : bool |- _ => destruct s end; reflexivity).
  intros H; injection H as <-. f_equal.
  destruct sa, sb; try reflexivity.
  - rewrite (Z.compare_antisym ea eb).
    destruct (ea ?= eb)%Z; simpl; try reflexivity.
    rewrite (Pos.compare_cont_antisym ma mb Eq). reflexivity.
  - rewrite (Z.compare_antisym ea eb).
    destruct (ea ?= eb)%Z; simpl; try reflexivity.
    rewrite (Pos.compare_cont_antisym ma mb Eq). simpl.
    now destruct (Pos.compare_cont Eq mb ma).
Qed.

Lemma SFcompare_defined (a b : JS.number) :
  JS.is_NaN a = false -> JS.is_NaN b = false -> exists c, SFcompare a b = Some c.
Proof.
  destruct a, b; simpl; try discriminate; intros _ _; eexists; reflexivity.
Qed.

(** When neither [a > b] nor [a < b], two numbers are equal. *)
Lemma neither_gt_nor_lt (a b : JS.number) :
  JS.is_NaN a = false -> JS.is_NaN b = false ->
  JS.gt a b = false -> JS.lt a b = false -> JS.equal b a = true.
Proof.
  intros Ha Hb. unfold JS.gt, JS.lt, JS.equal, SFltb, SFeqb.
  destruct (SFcompare_defined b a Hb Ha) as [c Hc].
  rewrite Hc, (SFcompare_swap _ _ _ Hc).
  destruct c; simpl; intros; congruence.
Qed.

Lemma equal_not_gt (a b : JS.number) :
  JS.equal b a = true -> JS.gt a b = false /\ JS.lt a b = false.
Proof.
  unfold JS.gt, JS.lt, JS.equal, SFltb, SFeqb.
  destruct (SFcompare b a) as [c |] eqn:Hc; try discriminate.
  rewrite (SFcompare_swap _ _ _ Hc).
  destruct c; simpl; try discriminate. now split.
Qed.

Lemma index_or_zero_not_NaN (xs : list JS.number) (i : nat) :
  JS.is_NaN (JS.index_or_zero xs i) = false.
Proof.
  unfold JS.index_or_zero.
  destruct (nth_error xs i) as [x |]; [| reflexivity].
  destruct x; reflexivity.
Qed.

Lemma SFcompare_refl (a : JS.number) :
  SFcompare a a = Some Eq \/ SFcompare a a = None.
Proof.
  destruct a as [s | s | | s m e]; simpl; auto; try (destruct s; auto).
  - left. rewrite Z.compare_refl.
    assert (H : Pos.compare_cont Eq m m = Eq) by apply Pos.compare_cont_refl.
    rewrite H. reflexivity.
  - left. rewrite Z.compare_refl.
    assert (H : Pos.compare_cont Eq m m = Eq) by apply Pos.compare_cont_refl.
    rewrite H. reflexivity.
Qed.

(** No number is greater or less than itself. *)
Lemma gt_irreflexive (a : JS.number) : JS.gt a a = false /\ JS.lt a a = false.
Proof.
  unfold JS.gt, JS.lt, SFltb. now destruct (SFcompare_refl a) as [-> | ->].
Qed.

(** What is greater is not less. *)
Lemma gt_not_lt (a b : JS.number) : JS.gt a b = true -> JS.lt a b = false.
Proof.
  unfold JS.gt, JS.lt, SFltb.
  destruct (SFcompare b a) as [c |] eqn:Hc; [| discriminate].
  rewrite (SFcompare_swap _ _ _ Hc). now destruct c.
Qed.

End Numbers.

(** ** The version comparator *)

Section Comparator.

(** The loop returns true exactly when some position it visits has a
    greater component for [latest], the positions before it being
    equal. *)
Lemma compare_from_first_difference (cp lp : list JS.number) (n i : nat) :
  Registry.compare_from cp lp i n = true <->
  exists k, i <= k < i + n /\
    (forall j, i <= j < k ->
       JS.equal (JS.index_or_zero cp j) (JS.index_or_zero lp j) = true) /\
    JS.gt (JS.index_or_zero lp k) (JS.index_or_zero cp k) = true.
Proof.
  revert i. induction n as [| n IH]; intros i; simpl.
  - split; [discriminate | intros (k & Hk & _); lia].
  - destruct (JS.gt (JS.index_or_zero lp i) (JS.index_or_zero cp i)) eqn:Hgt.
    + split; [intros _ | reflexivity].
      exists i. repeat split; [lia | lia | intros j Hj; lia | exact Hgt].
    + destruct (JS.lt (JS.index_or_zero lp i) (JS.index_or_zero cp i)) eqn:Hlt.
      * split; [discriminate |].
        intros (k & Hk & Heq & Hk').
        destruct (Nat.eq_dec k i) as [-> | Hne]; [congruence |].
        assert (Hi : i <= i < k) by lia.
        apply Heq, equal_not_gt in Hi. destruct Hi; congruence.
      * rewrite IH. split.
        -- intros (k & Hk & Heq & Hk').
           exists k. repeat split; [lia | lia | | exact Hk'].
           intros j Hj. destruct (Nat.eq_dec j i) as [-> | Hne].
           ++ apply neither_gt_nor_lt; auto using index_or_zero_not_NaN.
           ++ apply Heq. lia.
        -- intros (k & Hk & Heq & Hk').
           destruct (Nat.eq_dec k i) as [-> | Hne]; [congruence |].
           exists k. repeat split; [lia | lia | | exact Hk'].
           intros j Hj. apply Heq. lia.
Qed.

Lemma compareVersions_unfold (current latest : string) :
  current <> "" -> latest <> "" ->
  Registry.compareVersions current latest =
  Registry.compare_from (Registry.components current) (Registry.components latest) 0
    (Nat.max (List.length (Registry.components current))
       (List.length (Registry.components latest))).
Proof.
  intros Hc Hl. unfold Registry.compareVersions.
  apply String.eqb_neq in Hc, Hl. now rewrite Hc, Hl.
Qed.

Lemma without_prefix_strip (v : string) :
  Registry.strip_non_digit_prefix v = Components.without_prefix v.
Proof.
  unfold Registry.strip_non_digit_prefix.
  induction v as [| c v IH]; simpl; [reflexivity |].
  destruct (JS.is_digit c); simpl; [reflexivity |].
  now destruct (JS.span _ v).
Qed.

Lemma component_number_at (v : string) (i : nat) :
  Registry.component v i = Components.number_at v i.
Proof.
  unfold Registry.component, Registry.components, Registry.parts, JS.index_or_zero,
    Components.number_at, Components.parts_of.
  rewrite without_prefix_strip, nth_error_map.
  destruct (nth_error _ i) as [part |]; [| reflexivity].
  cbn [option_map]. now destruct (JS.Number part).
Qed.

Lemma components_positions (current latest : string) :
  Nat.max (List.length (Registry.components current))
    (List.length (Registry.components latest)) = Components.positions current latest.
Proof.
  unfold Registry.components, Registry.parts, Components.positions, Components.parts_of.
  now rewrite !length_map, !without_prefix_strip.
Qed.

(** C1, amended: [compareVersions] returns true exactly when both
    versions are not empty and, at the first position (up to the longer
    of the two sequences of parts) where the components differ, the
    component of [latest] is the greater one; a component is the number
    its part converts to, or 0 when the part is missing, converts to 0
    or converts to no number.  So it returns false when all positions
    are equal, and when one of the versions is the empty string. *)
Theorem compareVersions_first_difference (current latest : string) :
  (Registry.compareVersions current latest = true <->
   current <> "" /\ latest <> "" /\
   exists i,
     i < Components.positions current latest /\
     (forall j, j < i ->
        JS.equal (Components.number_at current j) (Components.number_at latest j) = true) /\
     JS.gt (Components.number_at latest i) (Components.number_at current i) = true) /\
  ((forall j, j < Components.positions current latest ->
      JS.equal (Components.number_at current j) (Components.number_at latest j) = true) ->
   Registry.compareVersions current latest = false) /\
  Registry.compareVersions "" latest = false /\
  Registry.compareVersions current "" = false.
Proof.
  assert (Hiff : Registry.compareVersions current latest = true <->
                 current <> "" /\ latest <> "" /\
                 exists i,
                   i < Components.positions current latest /\
                   (forall j, j < i ->
                      JS.equal (Components.number_at current j)
                        (Components.number_at latest j) = true) /\
                   JS.gt (Components.number_at latest i)
                     (Components.number_at current i) = true).
  { destruct (String.eqb_spec current "") as [-> | Hc].
    { split; [discriminate | now intros [[] _]]. }
    destruct (String.eqb_spec latest "") as [-> | Hl].
    { unfold Registry.compareVersions. rewrite orb_true_r.
      split; [discriminate | now intros (_ & [] & _)]. }
    rewrite (compareVersions_unfold _ _ Hc Hl), compare_from_first_difference,
      components_positions.
    split.
    - intros (k & Hk & Heq & Hgt). split; [exact Hc |]. split; [exact Hl |].
      exists k. rewrite <- !component_number_at. split; [lia |]. split; [| exact Hgt].
      intros j Hj. rewrite <- !component_number_at. apply Heq. lia.
    - intros (_ & _ & k & Hk & Heq & Hgt). exists k.
      split; [lia |]. rewrite <- !component_number_at in Hgt. split; [| exact Hgt].
      intros j Hj. specialize (Heq j ltac:(lia)).
      now rewrite <- !component_number_at in Heq. }
  split; [exact Hiff |]. split; [| split].
  - intros Hall. apply not_true_is_false. intros E. apply Hiff in E.
    destruct E as (_ & _ & i & Hi & _ & Hgt).
    destruct (equal_not_gt _ _ (Hall i Hi)) as [H _]. congruence.
  - reflexivity.
  - unfold Registry.compareVersions. now rewrite orb_true_r.
Qed.

Lemma compareVersions_first_difference_witness :
  Registry.compareVersions "v1.0.0" "1.0.1" = true /\
  Registry.compareVersions "1.0" "1.0.0" = false /\
  Registry.compareVersions "" "1.0.0" = false.
Proof.
  split; [| split].
  - apply (proj1 (compareVersions_first_difference "v1.0.0" "1.0.1")).
    split; [discriminate |]. split; [discriminate |].
    exists 2. split; [vm_compute; lia |]. split; [| reflexivity].
    intros [| [| j]] Hj; [reflexivity | reflexivity | lia].
  - apply (proj1 (proj2 (compareVersions_first_difference "1.0" "1.0.0"))).
    intros [| [| [| j]]] Hj; try reflexivity. vm_compute in Hj. lia.
  - apply (proj1 (proj2 (proj2 (compareVersions_first_difference "" "1.0.0")))).
Defined.

(** C1 as worded fails: the empty string has the single component 0,
    which is less than 1, and yet nothing is newer than it for
    [compareVersions]; and a part that converts to no number differs
    from 2 without being less than it, while [compareVersions] compares
    it as 0. *)
Lemma compareVersions_differs_from_claimed :
  (Registry.compareVersions "" "1.0.0" = false /\
   Claimed.isNewer "" "1.0.0" = true) /\
  (Registry.compareVersions "1.x" "1.2" = true /\
   Claimed.isNewer "1.x" "1.2" = false).
Proof. vm_compute. repeat split; reflexivity. Qed.




Lemma compare_from_irreflexive (parts : list JS.number) (n i : nat) :
  Registry.compare_from parts parts i n = false.
Proof.
  revert i. induction n as [| n IH]; intros i; simpl; [reflexivity |].
  destruct (gt_irreflexive (JS.index_or_zero parts i)) as [-> ->]. apply IH.
Qed.

Lemma compare_from_asymmetric (cp lp : list JS.number) (n i : nat) :
  Registry.compare_from cp lp i n = true -> Registry.compare_from lp cp i n = false.
Proof.
  revert i. induction n as [| n IH]; intros i; simpl; [discriminate |].
  change (JS.lt (JS.index_or_zero lp i) (JS.index_or_zero cp i))
    with (JS.gt (JS.index_or_zero cp i) (JS.index_or_zero lp i)).
  change (JS.lt (JS.index_or_zero cp i) (JS.index_or_zero lp i))
    with (JS.gt (JS.index_or_zero lp i) (JS.index_or_zero cp i)).
  destruct (JS.gt (JS.index_or_zero lp i) (JS.index_or_zero cp i)) eqn:Hgt.
  - intros _. apply gt_not_lt in Hgt. unfold JS.lt in Hgt. unfold JS.gt.
    now rewrite Hgt.
  - destruct (JS.gt (JS.index_or_zero cp i) (JS.index_or_zero lp i));
      [discriminate | apply IH].
Qed.

(** No version is newer than itself. *)
Theorem compareVersions_irreflexive (v : string) :
  Registry.compareVersions v v = false.
Proof.
  unfold Registry.compareVersions.
  destruct (String.eqb v "" || String.eqb v "")%bool; [reflexivity |].
  apply compare_from_irreflexive.
Qed.

(** When [latest] is newer than [current], [current] is not newer than
    [latest]. *)
Theorem compareVersions_asymmetric (current latest : string) :
  Registry.compareVersions current latest = true ->
  Registry.compareVersions latest current = false.
Proof.
  unfold Registry.compareVersions. rewrite (orb_comm (String.eqb latest "")).
  destruct (String.eqb current "" || String.eqb latest "")%bool; [discriminate |].
  rewrite (Nat.max_comm (List.length (Registry.parts (Registry.strip_non_digit_prefix latest)))).
  apply compare_from_asymmetric.
Qed.

Lemma compareVersions_asymmetric_witness :
  Registry.compareVersions "2.0.0" "1.0.0" = false.
Proof. apply (compareVersions_asymmetric "1.0.0" "2.0.0"). reflexivity. Defined.

(** The comparisons of the test suite of the repository. *)
Theorem compareVersions_test_suite :
  Registry.compareVersions "1.0.0" "1.0.1" = true /\
  Registry.compareVersions "1.0.0" "1.1.0" = true /\
  Registry.compareVersions "1.0.0" "2.0.0" = true /\
  Registry.compareVersions "1.0.0" "1.0.0" = false /\
  Registry.compareVersions "1.0.1" "1.0.0" = false /\
  Registry.compareVersions "2.0.0" "1.0.0" = false /\
  Registry.compareVersions "v1.0.0" "v1.0.1" = true /\
  Registry.compareVersions "^1.0.0" "^1.1.0" = true.
Proof. vm_compute. repeat split; reflexivity. Qed.

(** A missing component counts as 0: a version is not newer than the
    same version with zeros added, and is older than it with a positive
    component added. *)
Theorem compareVersions_missing_component :
  Registry.compareVersions "1.2" "1.2.0" = false /\
  Registry.compareVersions "1.2.0" "1.2" = false /\
  Registry.compareVersions "1.2" "1.2.1" = true /\
  Registry.compareVersions "1.2.1" "1.2" = false /\
  Registry.compareVersions "1.10.0" "1.9.0" = false /\
  Registry.compareVersions "1.9.0" "1.10.0" = true.
Proof. vm_compute. repeat split; reflexivity. Qed.

End Comparator.

(** ** Reasoning on asynchronous functions *)

Section Obeys.
Import Model Runtime.
Context {W : World}.

Lemma obeys_ret {A : Type} (a : A) (Q : Outcome A -> list Event -> Prop) :
  Q (Return a) [] -> obeys (ret a) Q.
Proof. intros H t. exists (Return a), []. now rewrite app_nil_r. Qed.

Lemma obeys_throw {A : Type} (e : Exn) (Q : Outcome A -> list Event -> Prop) :
  Q (Throw e) [] -> obeys (throw e) Q.
Proof. intros H t. exists (Throw e), []. now rewrite app_nil_r. Qed.

Lemma obeys_exit {A : Type} (code : Z) (Q : Outcome A -> list Event -> Prop) :
  Q (Exit code) [] -> obeys (process_exit code) Q.
Proof. intros H t. exists (Exit code), []. now rewrite app_nil_r. Qed.

Lemma obeys_weaken {A : Type} (m : M A) (Q Q' : Outcome A -> list Event -> Prop) :
  obeys m Q -> (forall o new, Q o new -> Q' o new) -> obeys m Q'.
Proof.
  intros Hm HQ t. destruct (Hm t) as (o & new & Ht & Ho).
  exists o, new. auto.
Qed.

Lemma obeys_bind {A B : Type} (m : M A) (k : A -> M B)
    (Q1 : Outcome A -> list Event -> Prop) (Q : Outcome B -> list Event -> Prop) :
  obeys m Q1 ->
  (forall a new1, Q1 (Return a) new1 ->
     obeys (k a) (fun o new2 => Q o (new1 ++ new2)%list)) ->
  (forall e new1, Q1 (Throw e) new1 -> Q (Throw e) new1) ->
  (forall code new1, Q1 (Exit code) new1 -> Q (Exit code) new1) ->
  obeys (bind m k) Q.
Proof.
  intros Hm Hk Hthrow Hexit t. unfold bind.
  destruct (Hm t) as (o & new1 & -> & Ho).
  destruct o as [a | e | code].
  - destruct (Hk a new1 Ho (t ++ new1)%list) as (o2 & new2 & -> & Ho2).
    exists o2, (new1 ++ new2)%list. now rewrite app_assoc.
  - exists (Throw e), new1. auto.
  - exists (Exit code), new1. auto.
Qed.

Lemma obeys_try_catch {A : Type} (m : M A) (handler : Exn -> M A)
    (Q1 Q : Outcome A -> list Event -> Prop) :
  obeys m Q1 ->
  (forall a new1, Q1 (Return a) new1 -> Q (Return a) new1) ->
  (forall e new1, Q1 (Throw e) new1 ->
     obeys (handler e) (fun o new2 => Q o (new1 ++ new2)%list)) ->
  (forall code new1, Q1 (Exit code) new1 -> Q (Exit code) new1) ->
  obeys (try_catch m handler) Q.
Proof.
  intros Hm Hret Hh Hexit t. unfold try_catch.
  destruct (Hm t) as (o & new1 & -> & Ho).
  destruct o as [a | e | code].
  - exists (Return a), new1. auto.
  - destruct (Hh e new1 Ho (t ++ new1)%list) as (o2 & new2 & -> & Ho2).
    exists o2, (new1 ++ new2)%list. now rewrite app_assoc.
  - exists (Exit code), new1. auto.
Qed.

Lemma obeys_output (o : Output) (Q : Outcome unit -> list Event -> Prop) :
  Q (Return tt) [EvOutput o] -> obeys (output o) Q.
Proof. intros H t. now exists (Return tt), [EvOutput o]. Qed.

Lemma obeys_execAsync (command : string) (Q : Outcome string -> list Event -> Prop) :
  (forall stdout, Q (Return stdout) [EvExec command (ExecOk stdout)]) ->
  (forall detail, Q (Throw (ExecError detail)) [EvExec command (ExecFailed detail)]) ->
  obeys (execAsync command) Q.
Proof.
  intros Hok Hfail t. unfold execAsync.
  destruct (exec_answer t command) as [stdout | detail]; eauto.
Qed.

Lemma obeys_fetch (url : string)
    (Q : Outcome (bool * option JS.JValue) -> list Event -> Prop) :
  Q (Throw FetchError) [EvFetch url FetchRejected] ->
  (forall ok json, Q (Return (ok, json)) [EvFetch url (FetchResponse ok json)]) ->
  obeys (fetch url) Q.
Proof.
  intros Hrej Hok t. unfold fetch.
  destruct (fetch_answer t url) as [| ok json]; eauto.
Qed.

Lemma obeys_multiselect (message : string) (options : list PackageWithLatest)
    (Q : Outcome SelectResult -> list Event -> Prop) :
  (forall r, Q (Return r) [EvMultiselect message options r]) ->
  obeys (multiselect message options) Q.
Proof. intros H t. unfold multiselect. eauto. Qed.

Lemma obeys_confirm (message : string)
    (Q : Outcome ConfirmResult -> list Event -> Prop) :
  (forall r, Q (Return r) [EvConfirm message r]) ->
  obeys (confirm message) Q.
Proof. intros H t. unfold confirm. eauto. Qed.

Lemma obeys_bind_ret {A B : Type} (a : A) (k : A -> M B)
    (Q : Outcome B -> list Event -> Prop) :
  obeys (k a) Q -> obeys (bind (ret a) k) Q.
Proof. intros H t. exact (H t). Qed.

Lemma obeys_bind_throw {A B : Type} (e : Exn) (k : A -> M B)
    (Q : Outcome B -> list Event -> Prop) :
  Q (Throw e) [] -> obeys (bind (throw e) k) Q.
Proof. intros H t. exists (Throw e), []. now rewrite app_nil_r. Qed.

Lemma obeys_bind_exit {A B : Type} (code : Z) (k : A -> M B)
    (Q : Outcome B -> list Event -> Prop) :
  Q (Exit code) [] -> obeys (bind (process_exit code) k) Q.
Proof. intros H t. exists (Exit code), []. now rewrite app_nil_r. Qed.

Lemma obeys_bind_output {B : Type} (o : Output) (k : unit -> M B)
    (Q : Outcome B -> list Event -> Prop) :
  obeys (k tt) (fun o' new => Q o' (EvOutput o :: new)) ->
  obeys (bind (output o) k) Q.
Proof.
  intros H t. unfold bind, output.
  destruct (H (t ++ [EvOutput o])%list) as (o' & new & -> & Ho).
  exists o', (EvOutput o :: new). rewrite <- app_assoc. auto.
Qed.

(** A loop whose body keeps an invariant [I] on the loop variables,
    adding interactions that satisfy [P], ends with the invariant, or
    the way the body ended. *)
Lemma obeys_for_of {A S : Type} (xs : list A) (body : S -> A -> M S)
    (I : S -> Prop) (T : Exn -> Prop) (X : Z -> Prop) (P : Event -> bool) (s : S) :
  I s ->
  (forall s x, I s -> In x xs ->
     obeys (body s x) (fun o new => forallb P new = true /\ ends I T X o)) ->
  obeys (for_of xs body s) (fun o new => forallb P new = true /\ ends I T X o).
Proof.
  revert s. induction xs as [| x xs IH]; intros s Hs Hbody; simpl.
  - apply obeys_ret. simpl. auto.
  - eapply obeys_bind.
    + apply Hbody; [exact Hs | now left].
    + intros s' new1 [Hnew1 Hs']. simpl.
      eapply obeys_weaken.
      * apply IH; [exact Hs' |]. intros s0 x0 Hs0 Hx0. apply Hbody; [exact Hs0 | now right].
      * intros o new2 [Hnew2 Ho]. rewrite forallb_app, Hnew1, Hnew2. auto.
    + intros e new1 [Hnew1 He]. auto.
    + intros code new1 [Hnew1 Hc]. auto.
Qed.

Lemma obeys_fst {A : Type} (m : M A) (Q : Outcome A -> list Event -> Prop) (t : Trace) :
  obeys m Q -> exists new, snd (m t) = (t ++ new)%list /\ Q (fst (m t)) new.
Proof.
  intros H. destruct (H t) as (o & new & -> & Ho). now exists new.
Qed.

End Obeys.

(** ** The package manager adapter *)

Section Adapter.
Import Model Runtime Events.
Context {W : World}.

Lemma upgradePackages_runs_one_command (pm : PackageManager)
    (packageNames : list string) (Q : Outcome unit -> list Event -> Prop) :
  packageNames <> [] ->
  let command :=
    PM.upgrade_command pm
      (JS.join " " (map (fun name => name ++ "@latest") packageNames)) in
  (forall stdout, Q (Return tt) [EvExec command (ExecOk stdout)]) ->
  (forall detail, Q (Throw (ExecError detail)) [EvExec command (ExecFailed detail)]) ->
  obeys (PM.upgradePackages pm packageNames) Q.
Proof.
  intros Hne command Hok Hfail. unfold PM.upgradePackages.
  destruct packageNames as [| n ns]; [congruence |]. cbn [List.length Nat.eqb].
  eapply obeys_bind with
    (Q1 := fun o new =>
             exists r, new = [EvExec command r] /\
               o = match r with
                   | ExecOk stdout => Return stdout
                   | ExecFailed detail => Throw (ExecError detail)
                   end).
  - apply obeys_execAsync; intros; eexists; split; reflexivity.
  - intros stdout new1 (r & -> & Hr). apply obeys_ret.
    destruct r; inversion Hr; subst. apply Hok.
  - intros e new1 (r & -> & Hr). destruct r; inversion Hr; subst. apply Hfail.
  - intros code new1 (r & -> & Hr). destruct r; discriminate.
Qed.

(** C9: [upgradePackages] with an empty list of names returns at once
    and leaves the trace as it was: no command is run.  With a name at
    least it runs one command, so that the empty list is the only one
    for which nothing is run. *)
Theorem upgradePackages_empty_is_noop (pm : PackageManager) (t : Trace) :
  PM.upgradePackages pm [] t = (Return tt, t) /\
  commands_of (snd (PM.upgradePackages pm [] t)) = commands_of t /\
  (forall name names,
     commands_of (snd (PM.upgradePackages pm (name :: names) t)) =
     (commands_of t ++
      [PM.upgrade_command pm
         (JS.join " " (map (fun name => (name ++ "@latest")%string) (name :: names)))])%list).
Proof.
  split; [reflexivity | split; [reflexivity |]].
  intros name names.
  assert (H : obeys (PM.upgradePackages pm (name :: names))
                (fun _ new =>
                   commands_of new =
                   [PM.upgrade_command pm
                      (JS.join " " (map (fun name => name ++ "@latest") (name :: names)))])).
  { apply upgradePackages_runs_one_command; [discriminate | reflexivity | reflexivity]. }
  destruct (H t) as (o & new & -> & Hnew). simpl.
  unfold commands_of in *. now rewrite flat_map_app, Hnew.
Qed.

Lemma detectPackageManagers_eval (t : Trace) :
  PM.detectPackageManagers t =
    (Return (present (PM.detection_answers t)),
     (t ++ map probe (probes (PM.detection_answers t)))%list).
Proof.
  unfold PM.detection_answers.
  set (r1 := exec_answer t "which npm").
  set (t1 := (t ++ [EvExec "which npm" r1])%list).
  set (r2 := exec_answer t1 "which pnpm").
  set (t2 := (t1 ++ [EvExec "which pnpm" r2])%list).
  set (r3 := exec_answer t2 "which yarn").
  set (t3 := (t2 ++ [EvExec "which yarn" r3])%list).
  set (r4 := exec_answer t3 "which bun").
  assert (E : (t ++ map probe (probes [r1; r2; r3; r4]))%list =
              (t3 ++ [EvExec "which bun" r4])%list).
  { subst t3 t2 t1. now rewrite <- !app_assoc. }
  rewrite E. clear E.
  unfold PM.detectPackageManagers, PM.managers, PM.commandExists, for_of,
    bind, try_catch, execAsync, ret. simpl.
  fold r1. fold t1.
  destruct r1; simpl; fold t1; fold r2;
    destruct r2; simpl; fold t2; fold r3;
    destruct r3; simpl; fold t3; fold r4;
    destruct r4; reflexivity.
Qed.

Lemma present_NoDup (answers : list ExecResult) : NoDup (present answers).
Proof.
  unfold present, probes, PM.managers.
  destruct answers as [| [] [| [] [| [] [| [] answers]]]]; simpl;
    repeat (constructor; [simpl; intuition discriminate |]); constructor.
Qed.

Lemma present_In (answers : list ExecResult) (pm : PackageManager) :
  In pm (present answers) <->
  exists r, In (pm, r) (probes answers) /\ succeeded r = true.
Proof.
  unfold present. rewrite in_map_iff. split.
  - intros ([pm' r] & <- & Hin). apply filter_In in Hin. exists r. tauto.
  - intros (r & Hin & Hr). exists (pm, r). split; [reflexivity |].
    apply filter_In. tauto.
Qed.

(** C8: [detectPackageManagers] probes npm, pnpm, yarn and bun in this
    order, with [which], each probe getting the answer of the world at
    that time; it returns those of the four whose probe succeeded, in
    that order and without duplicates, a manager being returned exactly
    when its probe succeeded; whatever the probes answer, it neither
    throws nor exits. *)
Theorem detectPackageManagers_probes (t : Trace) :
  let r1 := exec_answer t "which npm" in
  let t1 := (t ++ [EvExec "which npm" r1])%list in
  let r2 := exec_answer t1 "which pnpm" in
  let t2 := (t1 ++ [EvExec "which pnpm" r2])%list in
  let r3 := exec_answer t2 "which yarn" in
  let t3 := (t2 ++ [EvExec "which yarn" r3])%list in
  let r4 := exec_answer t3 "which bun" in
  let t4 := (t3 ++ [EvExec "which bun" r4])%list in
  exists available : list PackageManager,
    PM.detectPackageManagers t = (Return available, t4) /\
    available =
      (match r1 with ExecOk _ => [npm] | ExecFailed _ => [] end ++
       match r2 with ExecOk _ => [pnpm] | ExecFailed _ => [] end ++
       match r3 with ExecOk _ => [yarn] | ExecFailed _ => [] end ++
       match r4 with ExecOk _ => [bun] | ExecFailed _ => [] end)%list /\
    NoDup available /\
    (In npm available <-> exists stdout, r1 = ExecOk stdout) /\
    (In pnpm available <-> exists stdout, r2 = ExecOk stdout) /\
    (In yarn available <-> exists stdout, r3 = ExecOk stdout) /\
    (In bun available <-> exists stdout, r4 = ExecOk stdout).
Proof.
  intros r1 t1 r2 t2 r3 t3 r4 t4.
  exists (present [r1; r2; r3; r4]).
  split.
  { rewrite detectPackageManagers_eval. subst t4 t3 t2 t1.
    unfold PM.detection_answers. fold r1. fold r2. fold r3. fold r4.
    cbn [probes PM.managers combine map probe fst snd pm_name].
    now rewrite <- !app_assoc. }
  split; [| split; [apply present_NoDup |]].
  { unfold present, probes, PM.managers. simpl.
    destruct r1, r2, r3, r4; reflexivity. }
  unfold present, probes, PM.managers. simpl.
  destruct r1 as [o1 | d1], r2 as [o2 | d2], r3 as [o3 | d3], r4 as [o4 | d4]; simpl;
    repeat split; intros H; eauto;
    repeat match goal with
           | H : _ \/ _ |- _ => destruct H as [H | H]; try discriminate
           | H : False |- _ => destruct H
           | H : exists _, _ |- _ => destruct H as [? H]; try discriminate
           end.
Qed.

(** C4: when the listing command of a manager fails,
    [getGlobalPackages] returns the empty list and throws nothing: the
    caller gets the value it gets when the command succeeds and lists
    no package. *)
Theorem getGlobalPackages_failure_is_empty (pm : PackageManager) (t : Trace)
    (detail : string) :
  exec_answer t (PM.list_command pm) = ExecFailed detail ->
  PM.getGlobalPackages pm t =
    (Return [], (t ++ [EvExec (PM.list_command pm) (ExecFailed detail)])%list) /\
  (forall t' stdout,
     exec_answer t' (PM.list_command pm) = ExecOk stdout ->
     PM.lists_nothing pm stdout ->
     fst (PM.getGlobalPackages pm t') = fst (PM.getGlobalPackages pm t)).
Proof.
  intros Hfail.
  assert (E : PM.getGlobalPackages pm t =
              (Return [], (t ++ [EvExec (PM.list_command pm) (ExecFailed detail)])%list)).
  { unfold PM.getGlobalPackages, try_catch, bind, execAsync. now rewrite Hfail. }
  split; [exact E |].
  intros t' stdout Hok Hnothing. rewrite E.
  unfold PM.getGlobalPackages, try_catch, bind, execAsync. rewrite Hok.
  destruct pm; simpl in *.
  - destruct Hnothing as (data & Hdata & Hdeps).
    unfold PM.npm_packages. rewrite Hdata.
    destruct Hdeps as [Hdeps | Hdeps]; unfold bind, or_TypeError; now rewrite Hdeps.
  - unfold PM.pnpm_packages. now rewrite Hnothing.
  - unfold PM.yarn_packages. now rewrite Hnothing.
  - unfold PM.bun_packages. now rewrite Hnothing.
Qed.

Lemma fold_left_invariant {A B : Type} (I : A -> Prop) (f : A -> B -> A)
    (xs : list B) (a : A) :
  I a -> (forall a x, I a -> I (f a x)) -> I (fold_left f xs a).
Proof.
  revert a. induction xs as [| x xs IH]; intros a Ha Hf; simpl; auto.
Qed.

Lemma push_match_pm (pm : PackageManager) (packages : list GlobalPackage)
    (m : option (string * string)) :
  Forall (fun p => Model.pm p = pm) packages ->
  Forall (fun p => Model.pm p = pm) (PM.push_match pm packages m).
Proof.
  intros H. unfold PM.push_match. destruct m as [[m1 m2] |]; [| exact H].
  destruct (negb (m1 =? "") && negb (m2 =? ""))%bool; [| exact H].
  apply Forall_app. split; [exact H |]. now constructor.
Qed.

Lemma push_items_pm (pm : PackageManager) (items : list JS.JValue)
    (packages : list GlobalPackage) :
  Forall (fun p => Model.pm p = pm) packages ->
  Forall (fun p => Model.pm p = pm) (PM.push_items pm packages items).
Proof.
  revert packages. induction items as [| item items IH]; intros packages H; simpl.
  - exact H.
  - destruct item; try exact H.
    destruct (JS.match_greedy_name_at_version s) as [[m1 m2] |]; [| now apply IH].
    apply IH, Forall_app. split; [exact H |]. now constructor.
Qed.

Lemma push_line_pm (pm : PackageManager) (packages : list GlobalPackage)
    (line : string) :
  Forall (fun p => Model.pm p = pm) packages ->
  Forall (fun p => Model.pm p = pm) (PM.push_line pm packages line).
Proof.
  intros H. unfold PM.push_line.
  destruct (JSON_parse line) as [data |]; [| exact H].
  destruct (JS.get data "type") as [ty |]; [| exact H].
  destruct (PM.is_list_type ty && JS.truthy_opt (PM.data_body data))%bool; [| exact H].
  destruct (PM.data_body data) as [body |]; [| exact H].
  destruct (JS.iterate body) as [items |]; [| exact H].
  now apply push_items_pm.
Qed.

Lemma forallb_never (events : list Event) : forallb never events = true -> events = [].
Proof. destruct events; [reflexivity | discriminate]. Qed.

Lemma npm_packages_pm (pm : PackageManager) (stdout : string) :
  obeys (PM.npm_packages pm stdout)
    (fun o new =>
       forallb never new = true /\
       ends (Forall (fun p => Model.pm p = pm)) (fun _ => True) (fun _ => False) o).
Proof.
  unfold PM.npm_packages.
  destruct (JSON_parse stdout) as [data |]; [| now apply obeys_throw].
  destruct (JS.get data "dependencies") as [dependencies |];
    [apply obeys_bind_ret | now apply obeys_bind_throw].
  destruct dependencies as [deps |]; [| apply obeys_ret; simpl; auto].
  destruct (JS.truthy deps); [| apply obeys_ret; simpl; auto].
  destruct (JS.Object_entries deps) as [entries |];
    [apply obeys_bind_ret | now apply obeys_bind_throw].
  apply obeys_for_of; [constructor |].
  intros packages [name info] Hp _.
  destruct (JS.get info "version") as [version |];
    [apply obeys_bind_ret | now apply obeys_bind_throw].
  apply obeys_ret. split; [reflexivity |]. simpl.
  destruct version as [v |]; [| exact Hp].
  destruct (JS.truthy v); [| exact Hp].
  apply Forall_app. split; [exact Hp |]. now constructor.
Qed.

Lemma getGlobalPackages_pm (pm : PackageManager) :
  obeys (PM.getGlobalPackages pm)
    (fun o new =>
       (exists r, new = [EvExec (PM.list_command pm) r]) /\
       exists packages, o = Return packages /\
         Forall (fun p => Model.pm p = pm) packages).
Proof.
  unfold PM.getGlobalPackages.
  eapply obeys_try_catch with
    (Q1 := fun o new =>
             (exists r, new = [EvExec (PM.list_command pm) r]) /\
             ends (Forall (fun p => Model.pm p = pm)) (fun _ => True) (fun _ => False) o).
  - eapply obeys_bind with
      (Q1 := fun o new =>
               (exists r, new = [EvExec (PM.list_command pm) r]) /\
               ends (fun _ => True) (fun _ => True) (fun _ => False) o).
    + apply obeys_execAsync; simpl; eauto.
    + intros stdout new1 [[r ->] _].
      assert (Hr : exists r0, ([EvExec (PM.list_command pm) r] ++ [])%list =
                              [EvExec (PM.list_command pm) r0])
        by (eexists; reflexivity).
      destruct pm; simpl.
      * eapply obeys_weaken; [apply npm_packages_pm |].
        intros o new [Hnew H]. apply forallb_never in Hnew. subst new. auto.
      * apply obeys_ret. split; [exact Hr |]. simpl. unfold PM.pnpm_packages.
        apply fold_left_invariant; [constructor |].
        intros. now apply push_match_pm.
      * apply obeys_ret. split; [exact Hr |]. simpl. unfold PM.yarn_packages.
        apply fold_left_invariant; [constructor |].
        intros. now apply push_line_pm.
      * apply obeys_ret. split; [exact Hr |]. simpl. unfold PM.bun_packages.
        apply fold_left_invariant; [constructor |].
        intros. now apply push_match_pm.
    + simpl. auto.
    + simpl. intros code new1 [_ []].
  - simpl. intros packages new1 [Hr H]. split; [exact Hr |]. now exists packages.
  - intros e new1 [[r ->] _]. apply obeys_ret. split; [now exists r |].
    exists []. now split.
  - simpl. intros code new1 [_ []].
Qed.

Lemma is_listing_of_In (pms : list PackageManager) (pm : PackageManager)
    (r : ExecResult) :
  In pm pms -> is_listing_of pms (EvExec (PM.list_command pm) r) = true.
Proof.
  intros H. simpl. apply existsb_exists. exists pm. split; [exact H |].
  apply String.eqb_refl.
Qed.

(** The packages [enumerate] collects belong to the managers it is given,
    and it runs nothing but their listing commands. *)
Lemma enumerate_pm (packageManagers : list PackageManager) :
  obeys (Orchestrator.enumerate packageManagers)
    (fun o new =>
       forallb (is_listing_of packageManagers) new = true /\
       ends (Forall (fun p => In (Model.pm p) packageManagers))
         (fun _ => False) (fun _ => False) o).
Proof.
  unfold Orchestrator.enumerate. apply obeys_for_of; [constructor |].
  intros allPackages pm Hall Hpm.
  eapply obeys_bind; [apply getGlobalPackages_pm | | |].
  - intros packages new1 [[r ->] (packages' & E & Hp)]. injection E as <-.
    apply obeys_ret. split.
    { cbn [app forallb]. now rewrite is_listing_of_In by exact Hpm. }
    simpl. apply Forall_app. split; [exact Hall |].
    eapply Forall_impl; [| exact Hp]. simpl. now intros p ->.
  - intros e new1 [_ (packages & E & _)]. discriminate.
  - intros code new1 [_ (packages & E & _)]. discriminate.
Qed.

End Adapter.

(** ** The registry client *)

Section RegistryClient.
Import Model Runtime Events.
Context {W : World}.

Lemma getLatestVersion_eval (packageName : string) (t : Trace) :
  Registry.getLatestVersion packageName t =
    (Return match fetch_answer t (latest_url packageName) with
            | FetchResponse true (Some data) => version_of data
            | _ => None
            end,
     (t ++ [EvFetch (latest_url packageName)
              (fetch_answer t (latest_url packageName))])%list).
Proof.
  unfold Registry.getLatestVersion, try_catch, bind, fetch. fold (latest_url packageName).
  destruct (fetch_answer t (latest_url packageName)) as [| ok json]; [reflexivity |].
  destruct ok; [| reflexivity]. simpl.
  destruct json as [data |]; [| reflexivity]. simpl.
  unfold version_of, or_TypeError.
  destruct (JS.get data "version") as [[v |] |]; reflexivity.
Qed.

(** C5: [getLatestVersion] always returns, and returns [null] when the
    request is rejected, when the status of the response is no success,
    when its body cannot be read as JSON, and when the body has no
    [version] (or has a falsy one, or is [null]). *)
Theorem getLatestVersion_absent (packageName : string) (t : Trace) :
  (exists r, fst (Registry.getLatestVersion packageName t) = Return r) /\
  (fetch_answer t (latest_url packageName) = FetchRejected ->
   fst (Registry.getLatestVersion packageName t) = Return None) /\
  (forall json,
     fetch_answer t (latest_url packageName) = FetchResponse false json ->
     fst (Registry.getLatestVersion packageName t) = Return None) /\
  (fetch_answer t (latest_url packageName) = FetchResponse true None ->
   fst (Registry.getLatestVersion packageName t) = Return None) /\
  (forall data,
     fetch_answer t (latest_url packageName) = FetchResponse true (Some data) ->
     JS.get data "version" = Some None \/ JS.get data "version" = None \/
     (exists v, JS.get data "version" = Some (Some v) /\ JS.truthy v = false) ->
     fst (Registry.getLatestVersion packageName t) = Return None).
Proof.
  rewrite getLatestVersion_eval. simpl. repeat split.
  - eauto.
  - now intros ->.
  - now intros json ->.
  - now intros ->.
  - intros data -> H. unfold version_of.
    destruct H as [-> | [-> | (v & -> & ->)]]; reflexivity.
Qed.

End RegistryClient.

(** ** The groups of the Upgrading state *)

Section Groups.
Import Model Runtime Events Orchestrator.

Lemma PackageManager_eqb_eq (a b : PackageManager) :
  PackageManager_eqb a b = true <-> a = b.
Proof. destruct a, b; simpl; split; congruence. Qed.

Lemma Map_has_In {V : Type} (m : Map V) (k : PackageManager) :
  Map_has m k = true <-> In k (map fst m).
Proof.
  unfold Map_has. rewrite existsb_exists, in_map_iff. split.
  - intros (e & He & Hk). apply PackageManager_eqb_eq in Hk. now exists e.
  - intros (e & Hk & He). exists e. split; [exact He |].
    now apply PackageManager_eqb_eq.
Qed.

Lemma Map_push_keys {A : Type} (m : Map (list A)) (k : PackageManager) (x : A) :
  map fst (Map_push m k x) = map fst m.
Proof.
  unfold Map_push. rewrite map_map. apply map_ext.
  intros e. now destruct (PackageManager_eqb (fst e) k).
Qed.

Lemma Map_push_well_grouped (m : Map (list PackageWithLatest)) (p : PackageWithLatest) :
  Forall well_grouped m -> Forall well_grouped (Map_push m (pm (pkg p)) p).
Proof.
  intros H. unfold Map_push. apply Forall_map.
  eapply Forall_impl; [| exact H]. intros g [Hne Hg].
  destruct (PackageManager_eqb (fst g) (pm (pkg p))) eqn:E; [| now split].
  apply PackageManager_eqb_eq in E. split; simpl.
  - now destruct (snd g).
  - apply Forall_app. split; [exact Hg |]. constructor; [now symmetry | constructor].
Qed.

Lemma Map_push_absent {A : Type} (m : Map (list A)) (k : PackageManager) (x : A) :
  ~ In k (map fst m) -> Map_push m k x = m.
Proof.
  intros H. unfold Map_push. rewrite <- (map_id m) at 2. apply map_ext_in.
  intros e He. destruct (PackageManager_eqb (fst e) k) eqn:E; [| reflexivity].
  apply PackageManager_eqb_eq in E. exfalso. apply H. subst k. now apply in_map.
Qed.

Lemma group_step_invariant (m : Map (list PackageWithLatest)) (p : PackageWithLatest) :
  NoDup (map fst m) /\ Forall well_grouped m ->
  NoDup (map fst (group_step m p)) /\ Forall well_grouped (group_step m p).
Proof.
  intros [Hnodup Hwell]. unfold group_step.
  destruct (Map_has m (pm (pkg p))) eqn:Hhas; simpl.
  - rewrite Map_push_keys. split; [exact Hnodup | now apply Map_push_well_grouped].
  - assert (Hnot : ~ In (pm (pkg p)) (map fst m)).
    { rewrite <- Map_has_In. congruence. }
    unfold Map_set. rewrite Hhas. rewrite Map_push_keys, map_app. simpl. split.
    + apply NoDup_app.
      * exact Hnodup.
      * repeat constructor. now intros [].
      * intros k Hk [<- | []]. now apply Hnot.
    + unfold Map_push. rewrite map_app. apply Forall_app. split.
      * fold (Map_push m (pm (pkg p)) p). now rewrite Map_push_absent.
      * simpl. replace (PackageManager_eqb (pm (pkg p)) (pm (pkg p))) with true
          by (symmetry; now apply PackageManager_eqb_eq).
        repeat constructor; simpl; congruence.
Qed.

(** The groups have distinct managers, each group has a package at
    least, and its packages are those of its manager. *)
Lemma group_by_pm_invariant (packagesToUpgrade : list PackageWithLatest) :
  NoDup (map fst (group_by_pm packagesToUpgrade)) /\
  Forall well_grouped (group_by_pm packagesToUpgrade).
Proof.
  unfold group_by_pm.
  apply (fold_left_invariant
           (fun m => NoDup (map fst m) /\ Forall well_grouped m) group_step).
  - split; constructor.
  - intros m p. apply group_step_invariant.
Qed.

Lemma Map_push_present (m : Map (list PackageWithLatest)) (p : PackageWithLatest) :
  NoDup (map fst m) -> In (pm (pkg p)) (map fst m) ->
  Permutation (concat (map snd (Map_push m (pm (pkg p)) p)))
    (concat (map snd m) ++ [p]).
Proof.
  induction m as [| [k l] m IH]; intros Hnodup Hin; [contradiction |].
  simpl in Hnodup. inversion Hnodup as [| ? ? Hk Hm]; subst.
  unfold Map_push. simpl.
  destruct (PackageManager_eqb k (pm (pkg p))) eqn:E.
  - apply PackageManager_eqb_eq in E. subst k.
    fold (Map_push m (pm (pkg p)) p). rewrite (Map_push_absent _ _ _ Hk). simpl.
    rewrite <- !app_assoc. apply Permutation_app_head, Permutation_app_comm.
  - fold (Map_push m (pm (pkg p)) p). simpl. rewrite <- app_assoc.
    apply Permutation_app_head, IH; [exact Hm |].
    destruct Hin as [Hin | Hin]; [| exact Hin].
    simpl in Hin. subst k.
    assert (PackageManager_eqb (pm (pkg p)) (pm (pkg p)) = true)
      by now apply PackageManager_eqb_eq.
    congruence.
Qed.

Lemma group_step_partition (m : Map (list PackageWithLatest)) (p : PackageWithLatest) :
  NoDup (map fst m) ->
  Permutation (concat (map snd (group_step m p))) (concat (map snd m) ++ [p]).
Proof.
  intros Hnodup. unfold group_step.
  destruct (Map_has m (pm (pkg p))) eqn:Hhas; simpl.
  - apply Map_push_present; [exact Hnodup | now apply Map_has_In].
  - assert (Hnot : ~ In (pm (pkg p)) (map fst m)).
    { rewrite <- Map_has_In. congruence. }
    unfold Map_set. rewrite Hhas. unfold Map_push. rewrite map_app.
    fold (Map_push m (pm (pkg p)) p). rewrite (Map_push_absent _ _ _ Hnot). simpl.
    replace (PackageManager_eqb (pm (pkg p)) (pm (pkg p))) with true
      by (symmetry; now apply PackageManager_eqb_eq).
    rewrite map_app, concat_app. reflexivity.
Qed.

(** The groups partition the packages to upgrade. *)
Lemma group_by_pm_partition (packagesToUpgrade : list PackageWithLatest) :
  Permutation (concat (map snd (group_by_pm packagesToUpgrade))) packagesToUpgrade.
Proof.
  unfold group_by_pm.
  assert (H : forall ps m,
             NoDup (map fst m) /\ Forall well_grouped m ->
             Permutation (concat (map snd (fold_left group_step ps m)))
               (concat (map snd m) ++ ps)).
  { induction ps as [| p ps IH]; intros m Hm; simpl.
    - now rewrite app_nil_r.
    - rewrite (IH _ (group_step_invariant m p Hm)).
      rewrite (group_step_partition m p (proj1 Hm)). now rewrite <- app_assoc. }
  apply (H packagesToUpgrade []). split; constructor.
Qed.

End Groups.

(** ** The Upgrading state *)

Section Upgrading.
Import Model Runtime Events Orchestrator.
Context {W : World}.

Lemma upgraded_count_cons (g : PackageManager * list PackageWithLatest)
    (r : ExecResult) (attempts : list ((PackageManager * list PackageWithLatest) * ExecResult)) :
  upgraded_count ((g, r) :: attempts) =
  upgraded_count [(g, r)] + upgraded_count attempts.
Proof. destruct r; simpl; lia. Qed.

(** What the upgrade of one group does, for a body of the [try] that
    returns [done] and a [catch] that writes [said] and returns
    [undone]. *)
Lemma upgrade_attempt {S : Type} (pm : PackageManager)
    (packages : list PackageWithLatest) (done : S) (handler : Exn -> M S)
    (Q : Outcome S -> list Event -> Prop) :
  packages <> [] ->
  (forall stdout,
     Q (Return done) [attempt ((pm, packages), ExecOk stdout)]) ->
  (forall detail,
     obeys (handler (ExecError detail))
       (fun o new => Q o (attempt ((pm, packages), ExecFailed detail) :: new))) ->
  obeys
    (try_catch
       (PM.upgradePackages pm (map (fun p => name (pkg p)) packages) ;;; ret done)
       handler)
    Q.
Proof.
  intros Hne Hok Hfail.
  eapply obeys_try_catch with
    (Q1 := fun o new =>
             exists r, new = [attempt ((pm, packages), r)] /\
               o = match r with
                   | ExecOk _ => Return done
                   | ExecFailed detail => Throw (ExecError detail)
                   end).
  - eapply obeys_bind with
      (Q1 := fun o new =>
               exists r, new = [attempt ((pm, packages), r)] /\
                 o = match r with
                     | ExecOk _ => Return tt
                     | ExecFailed detail => Throw (ExecError detail)
                     end).
    + apply upgradePackages_runs_one_command.
      * destruct packages; [congruence | discriminate].
      * intros stdout. now exists (ExecOk stdout).
      * intros detail. now exists (ExecFailed detail).
    + intros [] new1 (r & -> & Hr). apply obeys_ret.
      destruct r; [| discriminate]. now exists (ExecOk stdout).
    + intros e new1 (r & -> & Hr). destruct r; [discriminate |].
      injection Hr as ->. now exists (ExecFailed detail).
    + intros code new1 (r & -> & Hr). destruct r; discriminate.
  - intros a new1 (r & -> & Hr). destruct r; [| discriminate].
    injection Hr as ->. apply Hok.
  - intros e new1 (r & -> & Hr). destruct r; [discriminate |].
    injection Hr as ->. apply Hfail.
  - intros code new1 (r & -> & Hr). destruct r; discriminate.
Qed.

Lemma cli_upgrade_group (totalCount processedCount : nat)
    (g : PackageManager * list PackageWithLatest) :
  well_grouped g ->
  obeys (Cli.upgrade_group totalCount processedCount g)
    (fun o new =>
       exists r,
         o = Return (processedCount + upgraded_count [(g, r)]) /\
         filter is_exec new = [attempt (g, r)] /\
         logged_errors new = failure_line (g, r) /\
         forallb not_prompt new = true).
Proof.
  destruct g as [pm packages]. intros [Hne _]. simpl in Hne.
  unfold Cli.upgrade_group. apply obeys_bind_output. apply upgrade_attempt.
  - exact Hne.
  - intros stdout. exists (ExecOk stdout). simpl.
    rewrite Nat.add_0_r. repeat split; reflexivity.
  - intros detail. do 2 apply obeys_bind_output. apply obeys_ret.
    exists (ExecFailed detail). simpl.
    rewrite Nat.add_0_r. repeat split; reflexivity.
Qed.

(** The loop of [run] over the groups runs the command of each group
    once, in the order of the groups, whatever the answers; it logs an
    error line for each group that failed and ends with the number of
    packages of the groups that succeeded. *)
Lemma cli_upgrade_loop (totalCount : nat)
    (groups : list (PackageManager * list PackageWithLatest)) (processedCount : nat) :
  Forall well_grouped groups ->
  obeys (for_of groups (Cli.upgrade_group totalCount) processedCount)
    (fun o new =>
       exists answers,
         List.length answers = List.length groups /\
         o = Return (processedCount + upgraded_count (combine groups answers)) /\
         filter is_exec new = map attempt (combine groups answers) /\
         logged_errors new = flat_map failure_line (combine groups answers) /\
         forallb not_prompt new = true).
Proof.
  intros Hwell. revert processedCount.
  induction Hwell as [| g groups Hg Hgroups IH]; intros processedCount; simpl.
  - apply obeys_ret. exists []. rewrite Nat.add_0_r. repeat split; reflexivity.
  - eapply obeys_bind; [apply (cli_upgrade_group _ _ _ Hg) | | |].
    + intros n new1 (r & E & Hexec & Hlog & Hquiet). injection E as ->.
      eapply obeys_weaken; [apply IH |].
      intros o new2 (answers & Hlen & -> & Hexec2 & Hlog2 & Hquiet2).
      exists (r :: answers). cbn [combine List.length map flat_map].
      rewrite upgraded_count_cons, filter_app, Hexec, Hexec2.
      unfold logged_errors in *. rewrite flat_map_app, Hlog, Hlog2.
      rewrite forallb_app, Hquiet, Hquiet2.
      repeat split; try reflexivity; [lia | f_equal; simpl; destruct r; lia].
    + intros e new1 (r & E & _). discriminate.
    + intros code new1 (r & E & _). discriminate.
Qed.

Lemma index_upgrade_group (totalCount processedCount : nat) (failed : list string)
    (g : PackageManager * list PackageWithLatest) :
  well_grouped g ->
  obeys (Index.upgrade_group totalCount (processedCount, failed) g)
    (fun o new =>
       exists r,
         o = Return (processedCount + upgraded_count [(g, r)],
                     (failed ++ failure_line (g, r))%list) /\
         filter is_exec new = [attempt (g, r)] /\
         forallb not_prompt new = true).
Proof.
  destruct g as [pm packages]. intros [Hne _]. simpl in Hne.
  unfold Index.upgrade_group. apply obeys_bind_output. apply upgrade_attempt.
  - exact Hne.
  - intros stdout. exists (ExecOk stdout). simpl.
    rewrite Nat.add_0_r, app_nil_r. repeat split; reflexivity.
  - intros detail. apply obeys_bind_output. apply obeys_ret.
    exists (ExecFailed detail). simpl.
    rewrite Nat.add_0_r. repeat split; reflexivity.
Qed.

(** The loop of [execute] over the groups runs the command of each
    group once, in the order of the groups, whatever the answers; it
    ends with the number of packages of the groups that succeeded and a
    line for each group that failed. *)
Lemma index_upgrade_loop (totalCount : nat)
    (groups : list (PackageManager * list PackageWithLatest))
    (processedCount : nat) (failed : list string) :
  Forall well_grouped groups ->
  obeys (for_of groups (Index.upgrade_group totalCount) (processedCount, failed))
    (fun o new =>
       exists answers,
         List.length answers = List.length groups /\
         o = Return (processedCount + upgraded_count (combine groups answers),
                     (failed ++ flat_map failure_line (combine groups answers))%list) /\
         filter is_exec new = map attempt (combine groups answers) /\
         forallb not_prompt new = true).
Proof.
  intros Hwell. revert processedCount failed.
  induction Hwell as [| g groups Hg Hgroups IH]; intros processedCount failed; simpl.
  - apply obeys_ret. exists []. simpl. rewrite Nat.add_0_r, app_nil_r.
    repeat split; reflexivity.
  - eapply obeys_bind; [apply (index_upgrade_group _ _ _ _ Hg) | | |].
    + intros [n f] new1 (r & E & Hexec & Hquiet). injection E as -> ->.
      eapply obeys_weaken; [apply IH |].
      intros o new2 (answers & Hlen & -> & Hexec2 & Hquiet2).
      exists (r :: answers). cbn [combine List.length map flat_map].
      rewrite upgraded_count_cons, filter_app, Hexec, Hexec2.
      rewrite forallb_app, Hquiet, Hquiet2, <- app_assoc.
      repeat split; try reflexivity; [lia | do 2 f_equal; simpl; destruct r; lia].
    + intros e new1 (r & E & _). discriminate.
    + intros code new1 (r & E & _). discriminate.
Qed.

Lemma commands_of_attempts
    (groups : list (PackageManager * list PackageWithLatest)) (answers : list ExecResult) :
  List.length answers = List.length groups ->
  commands_of (map attempt (combine groups answers)) = map group_command groups.
Proof.
  revert answers. induction groups as [| g groups IH]; intros [| r answers] H;
    simpl in *; try discriminate; [reflexivity |].
  f_equal. apply IH. lia.
Qed.

Lemma commands_of_filter (events : list Event) :
  commands_of (filter is_exec events) = commands_of events.
Proof.
  induction events as [| e events IH]; [reflexivity |].
  destruct e; simpl; try exact IH. now f_equal.
Qed.

Lemma failures_iff_failed
    (groups : list (PackageManager * list PackageWithLatest)) (answers : list ExecResult) :
  List.length answers = List.length groups ->
  (List.length (flat_map failure_line (combine groups answers)) =? 0)%nat =
  forallb succeeded answers.
Proof.
  revert answers. induction groups as [| g groups IH]; intros [| r answers] H;
    simpl in *; try discriminate; [reflexivity |].
  destruct r; simpl; [apply IH; lia | reflexivity].
Qed.

(** The Upgrading state of [run]: the command of each group is run
    once, an error is logged for each group that failed, and the last
    two messages announce that all packages were upgraded. *)
Lemma cli_upgrade_spec (packagesToUpgrade : list PackageWithLatest) :
  obeys (Cli.upgrade packagesToUpgrade)
    (fun o new =>
       exists answers middle,
         List.length answers = List.length (group_by_pm packagesToUpgrade) /\
         o = Return tt /\
         new =
           (EvOutput (s_start "Upgrading packages") :: middle ++
            [EvOutput (s_stop "All packages upgraded");
             EvOutput (p_outro (pc green "Successfully upgraded all selected packages!"))])%list /\
         filter is_exec middle =
           map attempt (combine (group_by_pm packagesToUpgrade) answers) /\
         logged_errors middle =
           flat_map failure_line (combine (group_by_pm packagesToUpgrade) answers) /\
         forallb not_prompt middle = true).
Proof.
  unfold Cli.upgrade. apply obeys_bind_output.
  eapply obeys_bind;
    [apply cli_upgrade_loop, group_by_pm_invariant | | |].
  - intros n middle (answers & Hlen & _ & Hexec & Hlog & Hquiet).
    apply obeys_bind_output. apply obeys_output.
    exists answers, middle. repeat split; assumption.
  - intros e new1 (answers & _ & E & _). discriminate.
  - intros code new1 (answers & _ & E & _). discriminate.
Qed.

(** The Upgrading state of [execute]: the command of each group is run
    once, and the result counts the packages of the groups that
    succeeded, lists a line for each group that failed, and has
    [success] true exactly when no group failed. *)
Lemma index_upgrade_spec (packagesToUpgrade : list PackageWithLatest) :
  obeys (Index.upgrade packagesToUpgrade)
    (fun o new =>
       exists answers,
         let attempts := combine (group_by_pm packagesToUpgrade) answers in
         List.length answers = List.length (group_by_pm packagesToUpgrade) /\
         o = Return
               (Index.Summary (forallb succeeded answers) (upgraded_count attempts)
                  (List.length packagesToUpgrade) (flat_map failure_line attempts)
                  (Index.summary_message (upgraded_count attempts)
                     (List.length packagesToUpgrade) (flat_map failure_line attempts))) /\
         filter is_exec new = map attempt attempts /\
         forallb not_prompt new = true).
Proof.
  unfold Index.upgrade. apply obeys_bind_output.
  eapply obeys_bind;
    [apply index_upgrade_loop, group_by_pm_invariant | | |].
  - intros [n failed] middle (answers & Hlen & E & Hexec & Hquiet).
    injection E as -> ->. simpl.
    eapply obeys_bind with
      (Q1 := fun o new => o = Return tt /\ exists said, new = [EvOutput said]).
    + destruct (_ =? _)%nat; apply obeys_output; eauto.
    + intros [] new2 (_ & said & ->). apply obeys_ret.
      exists answers. rewrite (failures_iff_failed _ _ Hlen).
      cbn [filter is_exec forallb not_prompt is_prompt negb andb].
      rewrite !filter_app, !forallb_app, Hexec, Hquiet. simpl.
      rewrite app_nil_r. repeat split; auto.
    + intros e new2 [E _]. discriminate.
    + intros code new2 [E _]. discriminate.
  - intros e new1 (answers & _ & E & _). discriminate.
  - intros code new1 (answers & _ & E & _). discriminate.
Qed.

(** C3: the groups partition the packages to upgrade, one group for
    each manager that has a package, and the Upgrading state of either
    orchestrator runs the upgrade command of every group once, in the
    order of the groups, whatever the commands answer (a failed one
    included), and then returns. *)
Theorem every_group_is_attempted_once (packagesToUpgrade : list PackageWithLatest)
    (t : Trace) :
  let groups := group_by_pm packagesToUpgrade in
  (NoDup (map fst groups) /\ Forall well_grouped groups /\
   Permutation (concat (map snd groups)) packagesToUpgrade) /\
  (exists answers new,
     List.length answers = List.length groups /\
     Cli.upgrade packagesToUpgrade t = (Return tt, (t ++ new)%list) /\
     filter is_exec new = map attempt (combine groups answers) /\
     commands_of new = map group_command groups) /\
  (exists answers new result,
     List.length answers = List.length groups /\
     Index.upgrade packagesToUpgrade t = (Return result, (t ++ new)%list) /\
     filter is_exec new = map attempt (combine groups answers) /\
     commands_of new = map group_command groups).
Proof.
  intros groups. subst groups. split; [| split].
  - split; [apply group_by_pm_invariant |].
    split; [apply group_by_pm_invariant | apply group_by_pm_partition].
  - destruct (cli_upgrade_spec packagesToUpgrade t)
      as (o & new & E & answers & middle & Hlen & -> & -> & Hexec & _).
    exists answers. eexists. split; [exact Hlen |]. split; [exact E |].
    assert (Hf : filter is_exec
                   (EvOutput (s_start "Upgrading packages") :: middle ++
                    [EvOutput (s_stop "All packages upgraded");
                     EvOutput (p_outro (pc green "Successfully upgraded all selected packages!"))]) =
                 map attempt (combine (group_by_pm packagesToUpgrade) answers)).
    { cbn [filter is_exec]. rewrite filter_app, Hexec. simpl. apply app_nil_r. }
    split; [exact Hf |].
    now rewrite <- commands_of_filter, Hf, commands_of_attempts.
  - destruct (index_upgrade_spec packagesToUpgrade t)
      as (o & new & E & answers & Hlen & -> & Hexec & _).
    exists answers, new. eexists. split; [exact Hlen |]. split; [exact E |].
    split; [exact Hexec |].
    now rewrite <- commands_of_filter, Hexec, commands_of_attempts.
Qed.

(** Whatever the upgrade commands answer, the Upgrading state of [run]
    ends with the announcement that all packages were upgraded, after
    an error line for each group that failed. *)
Theorem run_always_announces_success (packagesToUpgrade : list PackageWithLatest)
    (t : Trace) :
  exists answers middle,
    let attempts := combine (group_by_pm packagesToUpgrade) answers in
    List.length answers = List.length (group_by_pm packagesToUpgrade) /\
    Cli.upgrade packagesToUpgrade t =
      (Return tt,
       (t ++ EvOutput (s_start "Upgrading packages") :: middle ++
        [EvOutput (s_stop "All packages upgraded");
         EvOutput (p_outro (pc green "Successfully upgraded all selected packages!"))])%list) /\
    filter is_exec middle = map attempt attempts /\
    logged_errors middle = flat_map failure_line attempts.
Proof.
  destruct (cli_upgrade_spec packagesToUpgrade t)
    as (o & new & E & answers & middle & Hlen & -> & -> & Hexec & Hlog & _).
  now exists answers, middle.
Qed.

(** The result of the Upgrading state of [execute] has [success] true
    exactly when every upgrade command succeeded; it counts the packages
    of the groups that succeeded and lists a line for each group that
    failed. *)
Theorem execute_succeeds_iff_no_group_failed (packagesToUpgrade : list PackageWithLatest)
    (t : Trace) :
  exists answers new result,
    let attempts := combine (group_by_pm packagesToUpgrade) answers in
    List.length answers = List.length (group_by_pm packagesToUpgrade) /\
    Index.upgrade packagesToUpgrade t = (Return result, (t ++ new)%list) /\
    filter is_exec new = map attempt attempts /\
    Index.success_of result = forallb succeeded answers /\
    Index.failed_of result = flat_map failure_line attempts /\
    result =
      Index.Summary (forallb succeeded answers) (upgraded_count attempts)
        (List.length packagesToUpgrade) (flat_map failure_line attempts)
        (Index.summary_message (upgraded_count attempts)
           (List.length packagesToUpgrade) (flat_map failure_line attempts)).
Proof.
  destruct (index_upgrade_spec packagesToUpgrade t)
    as (o & new & E & answers & Hlen & -> & Hexec & _).
  exists answers, new. eexists.
  split; [exact Hlen |]. split; [exact E |]. split; [exact Hexec |].
  repeat split.
Qed.

End Upgrading.

(** ** The interactions of each step *)

Section Emits.
Import Model Runtime Events Orchestrator.
Context {W : World}.
Variable P : Event -> bool.

Lemma emits_ret {A : Type} (a : A) : emits P (ret a).
Proof. now apply obeys_ret. Qed.

Lemma emits_throw {A : Type} (e : Exn) : emits P (@throw A e).
Proof. now apply obeys_throw. Qed.

Lemma emits_exit {A : Type} (code : Z) : emits P (@process_exit A code).
Proof. now apply obeys_exit. Qed.

Lemma emits_output (o : Output) : P (EvOutput o) = true -> emits P (output o).
Proof. intros H. apply obeys_output. simpl. now rewrite H. Qed.

(** A step that may end in several ways, followed by steps that are
    only run after a value satisfying [I]. *)
Lemma emits_bind_ends {A B : Type} (m : M A) (k : A -> M B)
    (I : A -> Prop) (T : Exn -> Prop) (X : Z -> Prop) :
  obeys m (fun o new => forallb P new = true /\ ends I T X o) ->
  (forall a, I a -> emits P (k a)) -> emits P (bind m k).
Proof.
  intros Hm Hk. eapply obeys_bind; [exact Hm | | |].
  - intros a new1 [H1 Ha]. eapply obeys_weaken; [apply Hk, Ha |].
    intros o new2 H2. cbv beta. now rewrite forallb_app, H1, H2.
  - now intros e new1 [H1 _].
  - now intros code new1 [H1 _].
Qed.

Lemma emits_bind {A B : Type} (m : M A) (k : A -> M B) :
  emits P m -> (forall a, emits P (k a)) -> emits P (bind m k).
Proof.
  intros Hm Hk.
  apply emits_bind_ends with (I := fun _ => True) (T := fun _ => True) (X := fun _ => True).
  - eapply obeys_weaken; [exact Hm |]. intros o new H. split; [exact H |].
    now destruct o.
  - auto.
Qed.

Lemma emits_try_catch {A : Type} (m : M A) (handler : Exn -> M A) :
  emits P m -> (forall e, emits P (handler e)) -> emits P (try_catch m handler).
Proof.
  intros Hm Hh. eapply obeys_try_catch; [exact Hm | auto | | auto].
  intros e new1 H1. eapply obeys_weaken; [apply Hh |].
  intros o new2 H2. cbv beta. now rewrite forallb_app, H1, H2.
Qed.

Lemma emits_for_of {A S : Type} (xs : list A) (body : S -> A -> M S) (s : S) :
  (forall s x, emits P (body s x)) -> emits P (for_of xs body s).
Proof.
  intros Hbody. revert s. induction xs as [| x xs IH]; intros s; simpl.
  - apply emits_ret.
  - apply emits_bind; auto.
Qed.

Lemma emits_execAsync (command : string) :
  (forall r, P (EvExec command r) = true) -> emits P (execAsync command).
Proof. intros H. apply obeys_execAsync; intros; simpl; now rewrite H. Qed.

Lemma emits_fetch (url : string) :
  (forall r, P (EvFetch url r) = true) -> emits P (fetch url).
Proof. intros H. apply obeys_fetch; intros; simpl; now rewrite H. Qed.

Lemma emits_multiselect (message : string) (options : list PackageWithLatest) :
  (forall r, P (EvMultiselect message options r) = true) ->
  emits P (multiselect message options).
Proof. intros H. apply obeys_multiselect. intros. simpl. now rewrite H. Qed.

Lemma emits_confirm (message : string) :
  (forall r, P (EvConfirm message r) = true) -> emits P (confirm message).
Proof. intros H. apply obeys_confirm. intros. simpl. now rewrite H. Qed.

Lemma emits_or_TypeError {A : Type} (o : option A) : emits P (or_TypeError o).
Proof. destruct o; [apply emits_ret | apply emits_throw]. Qed.

Lemma emits_detectPackageManagers :
  (forall pm r, P (EvExec ("which " ++ pm_name pm) r) = true) ->
  emits P PM.detectPackageManagers.
Proof.
  intros H. unfold PM.detectPackageManagers. apply emits_for_of. intros available pm.
  apply emits_bind; [| intros; apply emits_ret].
  unfold PM.commandExists. apply emits_try_catch; [| intros; apply emits_ret].
  apply emits_bind; [| intros; apply emits_ret].
  apply emits_execAsync, H.
Qed.

(** [enumerate] runs the listing commands of the managers it is given,
    and collects packages of these managers. *)
Lemma enumerate_spec (packageManagers : list PackageManager) :
  (forall pm r, In pm packageManagers -> P (EvExec (PM.list_command pm) r) = true) ->
  obeys (enumerate packageManagers)
    (fun o new =>
       forallb P new = true /\
       ends (Forall (fun p => In (Model.pm p) packageManagers))
         (fun _ => False) (fun _ => False) o).
Proof.
  intros H. eapply obeys_weaken; [apply enumerate_pm |].
  intros o new [Hnew Ho]. split; [| exact Ho].
  apply forallb_forall. intros e He.
  rewrite forallb_forall in Hnew. specialize (Hnew e He).
  destruct e; try discriminate. simpl in Hnew.
  apply existsb_exists in Hnew. destruct Hnew as (pm & Hpm & E).
  apply String.eqb_eq in E. subst command. now apply H.
Qed.

Lemma emits_getLatestVersion (packageName : string) :
  (forall url r, P (EvFetch url r) = true) ->
  emits P (Registry.getLatestVersion packageName).
Proof.
  intros H. unfold Registry.getLatestVersion.
  apply emits_try_catch; [| intros; apply emits_ret].
  apply emits_bind; [apply emits_fetch, H |]. intros response.
  destruct (negb (fst response)); [apply emits_ret |].
  apply emits_bind.
  - unfold response_json. destruct (snd response); [apply emits_ret | apply emits_throw].
  - intros data. apply emits_bind; [apply emits_or_TypeError | intros; apply emits_ret].
Qed.

Lemma emits_call_compareVersions (current latest : JS.JValue) :
  emits P (Registry.call_compareVersions current latest).
Proof.
  unfold Registry.call_compareVersions.
  destruct current, latest;
    try apply emits_ret;
    destruct (negb _ || negb _)%bool; apply emits_ret || apply emits_throw.
Qed.

(** [check] asks the registry only, never exits, and keeps packages it
    was given. *)
Lemma check_spec (allPackages : list GlobalPackage) :
  (forall url r, P (EvFetch url r) = true) ->
  obeys (check allPackages)
    (fun o new =>
       forallb P new = true /\
       ends (Forall (fun p => In (pkg p) allPackages))
         (fun _ => True) (fun _ => False) o).
Proof.
  intros H. unfold check. apply obeys_for_of; [constructor |].
  intros packagesWithLatest p Hall Hp.
  eapply obeys_bind with
    (Q1 := fun o new => forallb P new = true /\
                        ends (fun _ => True) (fun _ => False) (fun _ => False) o).
  - intros t. rewrite getLatestVersion_eval. eexists _, _. split; [reflexivity |].
    simpl. now rewrite H.
  - intros latestVersion new1 [H1 _].
    assert (Hret : forall packages,
               Forall (fun q => In (pkg q) allPackages) packages ->
               obeys (ret packages)
                 (fun o new2 =>
                    forallb P (new1 ++ new2) = true /\
                    ends (Forall (fun q => In (pkg q) allPackages))
                      (fun _ => True) (fun _ => False) o)).
    { intros packages Hpackages. apply obeys_ret. now rewrite app_nil_r. }
    destruct latestVersion as [latest |]; [| now apply Hret].
    destruct (JS.truthy latest); [| now apply Hret].
    unfold Registry.call_compareVersions.
    assert (Hpush : forall hasUpdate,
               Forall (fun q => In (pkg q) allPackages)
                 (packagesWithLatest ++
                  [{| pkg := p; latestVersion := latest; hasUpdate := hasUpdate |}])).
    { intros hasUpdate. apply Forall_app. split; [exact Hall |]. now constructor. }
    destruct (version p), latest;
      try (apply obeys_bind_ret; now apply Hret);
      destruct (negb _ || negb _)%bool;
      try (apply obeys_bind_ret; now apply Hret);
      apply obeys_bind_throw; now rewrite app_nil_r.
  - intros e new1 [_ []].
  - intros code new1 [_ []].
Qed.

Lemma emits_check (allPackages : list GlobalPackage) :
  (forall url r, P (EvFetch url r) = true) -> emits P (check allPackages).
Proof.
  intros H. eapply obeys_weaken; [apply check_spec, H |]. now intros o new [H1 _].
Qed.

Lemma emits_upgradePackages (pm : PackageManager) (packageNames : list string) :
  (forall command r, is_upgrade_command command = true -> P (EvExec command r) = true) ->
  emits P (PM.upgradePackages pm packageNames).
Proof.
  intros H. unfold PM.upgradePackages.
  destruct (_ =? 0)%nat; [apply emits_ret |].
  apply emits_bind; [| intros; apply emits_ret].
  apply emits_execAsync. intros r. apply H. now destruct pm.
Qed.

(** The Upgrading state of either orchestrator writes to the terminal
    and runs upgrade commands, and does nothing else. *)
Lemma emits_cli_upgrade (packagesToUpgrade : list PackageWithLatest) :
  (forall o, P (EvOutput o) = true) ->
  (forall command r, is_upgrade_command command = true -> P (EvExec command r) = true) ->
  emits P (Cli.upgrade packagesToUpgrade).
Proof.
  intros Hout Hexec. unfold Cli.upgrade.
  apply emits_bind; [apply emits_output, Hout | intros _].
  apply emits_bind.
  - apply emits_for_of. intros processedCount [pm packages]. unfold Cli.upgrade_group.
    apply emits_bind; [apply emits_output, Hout | intros _].
    apply emits_try_catch.
    + apply emits_bind; [now apply emits_upgradePackages | intros; apply emits_ret].
    + intros e. repeat (apply emits_bind; [apply emits_output, Hout | intros _]).
      apply emits_ret.
  - intros processedCount.
    apply emits_bind; [apply emits_output, Hout | intros _].
    apply emits_output, Hout.
Qed.

Lemma emits_index_upgrade (packagesToUpgrade : list PackageWithLatest) :
  (forall o, P (EvOutput o) = true) ->
  (forall command r, is_upgrade_command command = true -> P (EvExec command r) = true) ->
  emits P (Index.upgrade packagesToUpgrade).
Proof.
  intros Hout Hexec. unfold Index.upgrade.
  apply emits_bind; [apply emits_output, Hout | intros _].
  apply emits_bind.
  - apply emits_for_of. intros [processedCount failed] [pm packages].
    unfold Index.upgrade_group.
    apply emits_bind; [apply emits_output, Hout | intros _].
    apply emits_try_catch.
    + apply emits_bind; [now apply emits_upgradePackages | intros; apply emits_ret].
    + intros e. apply emits_bind; [apply emits_output, Hout | intros _].
      apply emits_ret.
  - intros [processedCount failed].
    apply emits_bind; [| intros; apply emits_ret].
    destruct (_ =? _)%nat; apply emits_output, Hout.
Qed.

End Emits.

(** ** Cancelled runs *)

Section Cancellation.
Import Model Runtime Events Orchestrator.
Context {W : World}.

(** [m] adds calm interactions only. *)
Abbreviation calm := (emits is_calm).

Lemma calm_detectPackageManagers : calm PM.detectPackageManagers.
Proof. apply emits_detectPackageManagers. now intros []. Qed.

Lemma calm_enumerate (packageManagers : list PackageManager) :
  calm (enumerate packageManagers).
Proof.
  eapply obeys_weaken; [apply (enumerate_spec is_calm) | now intros o new [H _]].
  now intros [].
Qed.

Lemma calm_check (allPackages : list GlobalPackage) : calm (check allPackages).
Proof. now apply emits_check. Qed.

Lemma calm_output (o : Output) : calm (output o).
Proof. now apply emits_output. Qed.

Lemma calm_is_safe (events : list Event) :
  forallb is_calm events = true ->
  existsb is_cancel events = false /\ existsb is_upgrade events = false.
Proof.
  induction events as [| e events IH]; simpl; [auto |].
  intros H. apply andb_prop in H. destruct H as [He H].
  destruct (IH H) as [-> ->]. rewrite !orb_false_r.
  unfold is_calm in He. apply andb_prop in He. destruct He as [Hu Hp].
  split; [| now destruct (is_upgrade e)].
  destruct e; try reflexivity; discriminate.
Qed.

Lemma not_prompt_is_no_cancel (events : list Event) :
  forallb not_prompt events = true -> existsb is_cancel events = false.
Proof.
  induction events as [| e events IH]; simpl; [auto |].
  intros H. apply andb_prop in H. destruct H as [He H]. rewrite (IH H), orb_false_r.
  destruct e; try reflexivity; discriminate.
Qed.

(** Calm interactions before the others change nothing to the safety
    of a run. *)
Lemma safe_bind_calm {A B : Type} (m : M A) (k : A -> M B) (good : Outcome B -> Prop) :
  calm m -> (forall a, obeys (k a) (cancel_safe good)) ->
  obeys (bind m k) (cancel_safe good).
Proof.
  intros Hm Hk.
  eapply obeys_bind; [exact Hm | | |].
  - intros a new1 H1. eapply obeys_weaken; [apply Hk |].
    intros o new2 H2. cbv beta. unfold cancel_safe in *.
    destruct (calm_is_safe _ H1) as [Hc Hu].
    now rewrite !existsb_app, Hc, Hu.
  - intros e new1 H1. intros Hc. destruct (calm_is_safe _ H1). congruence.
  - intros code new1 H1. intros Hc. destruct (calm_is_safe _ H1). congruence.
Qed.

Lemma safe_calm {A : Type} (m : M A) (good : Outcome A -> Prop) :
  calm m -> obeys m (cancel_safe good).
Proof.
  intros Hm. eapply obeys_weaken; [exact Hm |].
  intros o new H Hc. destruct (calm_is_safe _ H). congruence.
Qed.

(** After a cancelled prompt, what is calm and ends well is safe. *)
Lemma safe_after_cancel {A : Type} (m : M A) (good : Outcome A -> Prop) (e : Event) :
  is_upgrade e = false ->
  obeys m (fun o new => forallb is_calm new = true /\ good o) ->
  obeys m (fun o new => cancel_safe good o ([e] ++ new)).
Proof.
  intros He Hm. eapply obeys_weaken; [exact Hm |].
  intros o new [H Hgood] _. split; [exact Hgood |].
  simpl. rewrite He. now destruct (calm_is_safe _ H).
Qed.

(** After a prompt that was not cancelled, a run is as safe as what
    follows. *)
Lemma safe_after_prompt {A : Type} (m : M A) (good : Outcome A -> Prop) (e : Event) :
  is_upgrade e = false -> is_cancel e = false ->
  obeys m (cancel_safe good) ->
  obeys m (fun o new => cancel_safe good o ([e] ++ new)).
Proof.
  intros Hu Hc Hm. eapply obeys_weaken; [exact Hm |].
  intros o new H. unfold cancel_safe in *. simpl. now rewrite Hu, Hc.
Qed.

Lemma exits_after_output {A : Type} (o : Output) (code : Z) :
  obeys (output o ;;; @process_exit A code)
    (fun o' new => forallb is_calm new = true /\ o' = Exit code).
Proof. apply obeys_bind_output. now apply obeys_exit. Qed.

Lemma cli_upgrade_has_no_prompt (packagesToUpgrade : list PackageWithLatest)
    (good : Outcome unit -> Prop) :
  obeys (Cli.upgrade packagesToUpgrade) (cancel_safe good).
Proof.
  eapply obeys_weaken; [apply cli_upgrade_spec |].
  intros o new (answers & middle & _ & _ & -> & _ & _ & Hquiet) Hc.
  simpl in Hc. rewrite existsb_app, (not_prompt_is_no_cancel _ Hquiet) in Hc.
  discriminate.
Qed.

Lemma index_upgrade_has_no_prompt (packagesToUpgrade : list PackageWithLatest)
    (good : Outcome Index.ToolResult -> Prop) :
  obeys (Index.upgrade packagesToUpgrade) (cancel_safe good).
Proof.
  eapply obeys_weaken; [apply index_upgrade_spec |].
  intros o new (answers & _ & _ & _ & Hquiet) Hc.
  rewrite (not_prompt_is_no_cancel _ Hquiet) in Hc. discriminate.
Qed.

Ltac calm_step :=
  first [ apply emits_ret | apply emits_exit | apply emits_throw | apply calm_output
        | apply emits_bind; [| intros ?] ].

Lemma run_is_cancel_safe : obeys Cli.run (cancel_safe (fun o => o = Exit 0)).
Proof.
  unfold Cli.run.
  do 3 (apply safe_bind_calm; [apply calm_output | intros _]).
  apply safe_bind_calm; [apply calm_detectPackageManagers | intros packageManagers].
  apply safe_bind_calm; [destruct (_ =? 0)%nat; repeat calm_step | intros _].
  do 2 (apply safe_bind_calm; [apply calm_output | intros _]).
  apply safe_bind_calm; [apply calm_enumerate | intros allPackages].
  apply safe_bind_calm; [destruct (_ =? 0)%nat; repeat calm_step | intros _].
  do 2 (apply safe_bind_calm; [apply calm_output | intros _]).
  apply safe_bind_calm; [apply calm_check | intros packagesWithLatest].
  cbv zeta.
  apply safe_bind_calm; [destruct (_ =? 0)%nat; repeat calm_step | intros _].
  apply safe_bind_calm; [apply calm_output | intros _].
  eapply obeys_bind with
    (Q1 := fun o new => exists r, o = Return r /\ exists message options,
                          new = [EvMultiselect message options r]).
  { apply obeys_multiselect. eauto. }
  2, 3: (intros ? ? (r & E & _); discriminate).
  intros selected new1 (r & E & message & options & ->). injection E as ->.
  destruct r as [| values].
  { (* the selection was cancelled *)
    apply safe_after_cancel; [reflexivity |].
    eapply obeys_bind; [apply exits_after_output | | |].
    - intros ? ? [_ E]. discriminate.
    - intros ? ? [_ E]. discriminate.
    - intros code new2 [H E]. injection E as ->. auto. }
  destruct values as [| v values].
  { (* nothing was selected *)
    apply safe_after_cancel; [reflexivity |].
    apply obeys_bind_ret. cbn [List.length Nat.eqb].
    eapply obeys_bind; [apply exits_after_output | | |].
    - intros ? ? [_ E]. discriminate.
    - intros ? ? [_ E]. discriminate.
    - intros code new2 [H E]. injection E as ->. auto. }
  apply safe_after_prompt; [reflexivity | reflexivity |].
  apply obeys_bind_ret. cbn [List.length Nat.eqb].
  apply obeys_bind_ret.
  eapply obeys_bind with
    (Q1 := fun o new => exists r, o = Return r /\ exists message,
                          new = [EvConfirm message r]).
  { apply obeys_confirm. eauto. }
  2, 3: (intros ? ? (r & E & _); discriminate).
  intros answer new2 (r & E & message' & ->). injection E as ->.
  destruct r as [| []].
  - apply safe_after_cancel; [reflexivity |].
    eapply obeys_bind; [apply exits_after_output | | |].
    + intros ? ? [_ E]. discriminate.
    + intros ? ? [_ E]. discriminate.
    + intros code new3 [H E]. injection E as ->. auto.
  - apply safe_after_prompt; [reflexivity | reflexivity |].
    apply obeys_bind_ret. apply cli_upgrade_has_no_prompt.
  - apply safe_after_cancel; [reflexivity |].
    eapply obeys_bind; [apply exits_after_output | | |].
    + intros ? ? [_ E]. discriminate.
    + intros ? ? [_ E]. discriminate.
    + intros code new3 [H E]. injection E as ->. auto.
Qed.

(** [promptPackageSelection] only prompts, and returns no package when
    a prompt was cancelled, left without a selection or declined. *)
Lemma promptPackageSelection_spec (packages : list PackageWithLatest) :
  obeys (Index.promptPackageSelection packages)
    (fun o new =>
       forallb is_prompt new = true /\
       exists selected, o = Return selected /\
         (existsb is_cancel new = true -> selected = [])).
Proof.
  unfold Index.promptPackageSelection.
  eapply obeys_bind with
    (Q1 := fun o new => exists r, o = Return r /\ exists message options,
                          new = [EvMultiselect message options r]).
  { apply obeys_multiselect. eauto. }
  2, 3: (intros ? ? (r & E & _); discriminate).
  intros selected new1 (r & E & message & options & ->). injection E as ->.
  destruct r as [| [| v values]]; try (apply obeys_ret; now eauto).
  cbn [List.length Nat.eqb].
  eapply obeys_bind with
    (Q1 := fun o new => exists r, o = Return r /\ exists message,
                          new = [EvConfirm message r]).
  { apply obeys_confirm. eauto. }
  2, 3: (intros ? ? (r & E & _); discriminate).
  intros answer new2 (r & E & message' & ->). injection E as ->.
  destruct r as [| []]; apply obeys_ret; simpl; split; try reflexivity;
    eexists; split; try reflexivity; intros; try reflexivity; discriminate.
Qed.

Lemma prompt_is_no_upgrade (events : list Event) :
  forallb is_prompt events = true -> existsb is_upgrade events = false.
Proof.
  induction events as [| e events IH]; simpl; [auto |].
  intros H. apply andb_prop in H. destruct H as [He H]. rewrite (IH H), orb_false_r.
  destruct e; try reflexivity; discriminate.
Qed.

Lemma execute_is_cancel_safe :
  obeys (Index.execute false)
    (cancel_safe
       (fun o => o = Return (Index.Outcome_of false "No packages selected for upgrade"))).
Proof.
  unfold Index.execute.
  apply safe_bind_calm; [apply calm_output | intros _].
  apply safe_bind_calm; [apply calm_detectPackageManagers | intros packageManagers].
  apply safe_bind_calm;
    [destruct (_ =? 0)%nat; repeat calm_step | intros _].
  do 2 (apply safe_bind_calm; [apply calm_output | intros _]).
  apply safe_bind_calm; [apply calm_enumerate | intros allPackages].
  destruct (_ =? 0)%nat; [apply safe_calm; repeat calm_step |].
  do 2 (apply safe_bind_calm; [apply calm_output | intros _]).
  apply safe_bind_calm; [apply calm_check | intros packagesWithLatest].
  cbv zeta.
  destruct (_ =? 0)%nat; [apply safe_calm; repeat calm_step |].
  apply safe_bind_calm; [apply calm_output | intros _].
  eapply obeys_bind; [apply promptPackageSelection_spec | | |].
  2, 3: (intros ? ? (_ & selected & E & _); discriminate).
  intros packagesToUpgrade new1 (Hprompt & selected & E & Hcancel). injection E as <-.
  destruct (existsb is_cancel new1) eqn:Hc.
  - rewrite (Hcancel eq_refl). cbn [List.length Nat.eqb].
    apply obeys_ret. intros _. split; [reflexivity |].
    now rewrite app_nil_r, (prompt_is_no_upgrade _ Hprompt).
  - assert (Hsafe : forall (m : M Index.ToolResult) good,
               obeys m (cancel_safe good) ->
               obeys m (fun o new2 => cancel_safe good o (new1 ++ new2))).
    { intros m good Hm. eapply obeys_weaken; [exact Hm |].
      intros o new2 H. unfold cancel_safe in *.
      now rewrite !existsb_app, Hc, (prompt_is_no_upgrade _ Hprompt). }
    apply Hsafe.
    destruct (_ =? 0)%nat; [apply safe_calm, emits_ret |].
    apply index_upgrade_has_no_prompt.
Qed.

(** C6: on a run of [run] where the selection or the confirmation was
    cancelled, empty or declined, the process exits with code 0 and no
    upgrade command was run; on such a run of [execute],
    [promptPackageSelection] returns no package, and [execute] returns
    its "No packages selected for upgrade" result without running an
    upgrade command. *)
Theorem cancelled_run_upgrades_nothing (t : Trace) :
  (exists o new,
     Cli.run t = (o, (t ++ new)%list) /\
     (existsb is_cancel new = true ->
      o = Exit 0 /\ existsb is_upgrade new = false)) /\
  (exists o new,
     Index.execute false t = (o, (t ++ new)%list) /\
     (existsb is_cancel new = true ->
      o = Return (Index.Outcome_of false "No packages selected for upgrade") /\
      existsb is_upgrade new = false)) /\
  (forall packages,
     exists selected new,
       Index.promptPackageSelection packages t = (Return selected, (t ++ new)%list) /\
       existsb is_upgrade new = false /\
       (existsb is_cancel new = true -> selected = [])).
Proof.
  split; [| split].
  - destruct (run_is_cancel_safe t) as (o & new & E & H). now exists o, new.
  - destruct (execute_is_cancel_safe t) as (o & new & E & H). now exists o, new.
  - intros packages.
    destruct (promptPackageSelection_spec packages t)
      as (o & new & E & Hprompt & selected & -> & H).
    exists selected, new. split; [exact E |]. split; [| exact H].
    now apply prompt_is_no_upgrade.
Qed.

End Cancellation.

(** ** The managers a run involves *)

Section Attribution.
Import Model Runtime Events Orchestrator.
Context {W : World}.

Lemma mem_In (pm : PackageManager) (pms : list PackageManager) :
  mem pm pms = true <-> In pm pms.
Proof.
  unfold mem. rewrite existsb_exists. split.
  - intros (pm' & Hin & E). apply PackageManager_eqb_eq in E. now subst.
  - intros Hin. exists pm. split; [exact Hin | now apply PackageManager_eqb_eq].
Qed.

Lemma within_output (pms : list PackageManager) (o : Output) :
  within pms (EvOutput o) = true.
Proof. reflexivity. Qed.

Lemma within_probe (pms : list PackageManager) (pm : PackageManager) (r : ExecResult) :
  within pms (EvExec ("which " ++ pm_name pm) r) = true.
Proof. now destruct pm. Qed.

Lemma within_listing (pms : list PackageManager) (pm : PackageManager) (r : ExecResult) :
  In pm pms -> within pms (EvExec (PM.list_command pm) r) = true.
Proof.
  intros H. apply mem_In in H. destruct pm; simpl; now rewrite H.
Qed.

Lemma within_upgrade (pms : list PackageManager) (command : string) (r : ExecResult) :
  is_upgrade_command command = true -> within pms (EvExec command r) = true.
Proof.
  intros H.
  assert (E : forall pm, String.eqb command (PM.list_command pm) = false).
  { intros pm. destruct (String.eqb command (PM.list_command pm)) eqn:E; [| reflexivity].
    apply String.eqb_eq in E. subst command. now destruct pm. }
  unfold within, PM.managers, forallb. now rewrite !E.
Qed.

Lemma within_listing_inv (pms : list PackageManager) (pm : PackageManager)
    (r : ExecResult) :
  within pms (EvExec (PM.list_command pm) r) = true -> In pm pms.
Proof.
  intros H. apply mem_In. unfold within in H.
  rewrite forallb_forall in H.
  assert (Hin : In pm PM.managers) by (destruct pm; simpl; tauto).
  specialize (H pm Hin). now rewrite String.eqb_refl in H.
Qed.

Lemma within_fetch (pms : list PackageManager) (url : string) (r : FetchResult) :
  within pms (EvFetch url r) = true.
Proof. reflexivity. Qed.

Lemma within_options (pms : list PackageManager) (allPackages : list GlobalPackage)
    (packagesWithLatest : list PackageWithLatest) (message : string) (r : SelectResult) :
  Forall (fun p => In (Model.pm p) pms) allPackages ->
  Forall (fun p => In (pkg p) allPackages) packagesWithLatest ->
  within pms (EvMultiselect message (filter hasUpdate packagesWithLatest) r) = true.
Proof.
  intros Hall Hwith. simpl. apply forallb_forall. intros p Hp.
  apply filter_In in Hp. destruct Hp as [Hp _].
  rewrite Forall_forall in Hall, Hwith. apply mem_In. auto.
Qed.

(** A run that involves the managers found present only lists the
    packages of, and offers packages of, managers that were detected. *)
Lemma starts_with_detection_attributed (events : list Event) :
  starts_with_detection events -> attributed events.
Proof.
  intros (answers & before & rest & Hlen & -> & Hbefore & Hrest).
  assert (Hdetected : forall pm, In pm (present answers) ->
            detected (before ++ map probe (probes answers) ++ rest) pm).
  { intros pm Hpm. apply present_In in Hpm. destruct Hpm as (r & Hin & Hr).
    destruct r as [stdout |]; [| discriminate]. exists stdout.
    apply in_or_app. right. apply in_or_app. left.
    change (EvExec ("which " ++ pm_name pm) (ExecOk stdout)) with (probe (pm, ExecOk stdout)).
    now apply in_map. }
  rewrite forallb_forall in Hbefore, Hrest.
  assert (Hcases : forall e, In e (before ++ map probe (probes answers) ++ rest) ->
            is_output e = true \/ (exists p, e = probe p) \/ within (present answers) e = true).
  { intros e He. apply in_app_or in He. destruct He as [He | He]; [auto |].
    apply in_app_or in He. destruct He as [He | He]; [| auto].
    apply in_map_iff in He. destruct He as (p & <- & _). eauto. }
  split.
  - intros pm r Hin. apply Hdetected.
    destruct (Hcases _ Hin) as [H | [([pm' r'] & H) | H]].
    + discriminate.
    + unfold probe in H. simpl in H. injection H as H _. destruct pm, pm'; discriminate.
    + now apply within_listing_inv in H.
  - intros message options r p Hin Hp. apply Hdetected.
    destruct (Hcases _ Hin) as [H | [([pm' r'] & H) | H]]; try discriminate.
    simpl in H. rewrite forallb_forall in H. now apply mem_In, H.
Qed.

Lemma starts_with_detection_output (o : Output) (events : list Event) :
  starts_with_detection events -> starts_with_detection (EvOutput o :: events).
Proof.
  intros (answers & before & rest & Hlen & -> & Hbefore & Hrest).
  exists answers, (EvOutput o :: before), rest. repeat split; auto.
Qed.

(** Detection followed by steps that involve the managers found only. *)
Lemma detection_then {A : Type} (k : list PackageManager -> M A) :
  (forall pms, emits (within pms) (k pms)) ->
  obeys (bind PM.detectPackageManagers k) (fun _ new => starts_with_detection new).
Proof.
  intros Hk. eapply obeys_bind with
    (Q1 := fun o new => exists answers,
             List.length answers = 4 /\ new = map probe (probes answers) /\
             o = Return (present answers)).
  - intros t. rewrite detectPackageManagers_eval. eexists _, _. split; [reflexivity |].
    now exists (PM.detection_answers t).
  - intros pms new1 (answers & Hlen & -> & E). injection E as ->.
    eapply obeys_weaken; [apply Hk |].
    intros o new2 H. now exists answers, [], new2.
  - intros e new1 (answers & _ & _ & E). discriminate.
  - intros code new1 (answers & _ & _ & E). discriminate.
Qed.

Ltac within_step :=
  first [ apply emits_ret | apply emits_exit | apply emits_throw
        | apply emits_output, within_output
        | apply emits_confirm; reflexivity
        | apply emits_bind; [| intros ?] ].

Lemma run_starts_with_detection :
  obeys Cli.run (fun _ new => starts_with_detection new).
Proof.
  unfold Cli.run.
  do 3 (apply obeys_bind_output;
        eapply obeys_weaken; [| intros ? ?; apply starts_with_detection_output]).
  apply detection_then. intros pms.
  apply emits_bind; [destruct (_ =? 0)%nat; repeat within_step | intros _].
  do 2 (apply emits_bind; [apply emits_output, within_output | intros _]).
  eapply emits_bind_ends; [apply enumerate_spec; intros; now apply within_listing |].
  intros allPackages Hall.
  apply emits_bind; [destruct (_ =? 0)%nat; repeat within_step | intros _].
  do 2 (apply emits_bind; [apply emits_output, within_output | intros _]).
  eapply emits_bind_ends; [apply check_spec; intros; apply within_fetch |].
  intros packagesWithLatest Hwith. cbv zeta.
  apply emits_bind; [destruct (_ =? 0)%nat; repeat within_step | intros _].
  apply emits_bind; [apply emits_output, within_output | intros _].
  apply emits_bind;
    [apply emits_multiselect; intros; now apply (within_options _ allPackages) |].
  intros selected.
  apply emits_bind; [destruct selected; repeat within_step | intros packagesToUpgrade].
  apply emits_bind; [destruct (_ =? 0)%nat; repeat within_step | intros _].
  apply emits_bind; [apply emits_confirm; reflexivity | intros answer].
  apply emits_bind; [destruct answer as [| []]; repeat within_step | intros _].
  apply emits_cli_upgrade; [apply within_output | intros; now apply within_upgrade].
Qed.

Lemma execute_starts_with_detection (all : bool) :
  obeys (Index.execute all) (fun _ new => starts_with_detection new).
Proof.
  unfold Index.execute.
  apply obeys_bind_output.
  eapply obeys_weaken; [| intros ? ?; apply starts_with_detection_output].
  apply detection_then. intros pms.
  apply emits_bind; [destruct (_ =? 0)%nat; repeat within_step | intros _].
  do 2 (apply emits_bind; [apply emits_output, within_output | intros _]).
  eapply emits_bind_ends; [apply enumerate_spec; intros; now apply within_listing |].
  intros allPackages Hall.
  destruct (_ =? 0)%nat; [repeat within_step |].
  do 2 (apply emits_bind; [apply emits_output, within_output | intros _]).
  eapply emits_bind_ends; [apply check_spec; intros; apply within_fetch |].
  intros packagesWithLatest Hwith. cbv zeta.
  destruct (_ =? 0)%nat; [repeat within_step |].
  apply emits_bind; [apply emits_output, within_output | intros _].
  apply emits_bind.
  - destruct all; [apply emits_ret |]. unfold Index.promptPackageSelection.
    apply emits_bind;
      [apply emits_multiselect; intros; now apply (within_options _ allPackages) |].
    intros [| values]; [apply emits_ret |].
    destruct (_ =? 0)%nat; [apply emits_ret |].
    apply emits_bind; [apply emits_confirm; reflexivity | intros answer].
    destruct answer as [| []]; apply emits_ret.
  - intros packagesToUpgrade.
    destruct (_ =? 0)%nat; [apply emits_ret |].
    apply emits_index_upgrade; [apply within_output | intros; now apply within_upgrade].
Qed.

(** C7: [getGlobalPackages(pm)] returns records whose manager is [pm],
    running the listing command of [pm] and nothing else; the loop of
    the orchestrators over the detected managers runs the listing
    commands of these managers only and collects records whose manager
    is one of them; and on every run of [run] and of [execute], the
    listing commands that are run and the packages that are offered
    for upgrade are those of managers whose probe succeeded. *)
Theorem packages_belong_to_detected_managers :
  (forall pm t,
     exists r packages,
       PM.getGlobalPackages pm t =
         (Return packages, (t ++ [EvExec (PM.list_command pm) r])%list) /\
       Forall (fun p => Model.pm p = pm) packages) /\
  (forall packageManagers t,
     exists allPackages new,
       Orchestrator.enumerate packageManagers t =
         (Return allPackages, (t ++ new)%list) /\
       forallb (is_listing_of packageManagers) new = true /\
       Forall (fun p => In (Model.pm p) packageManagers) allPackages) /\
  (forall t, exists o new, Cli.run t = (o, (t ++ new)%list) /\ attributed new) /\
  (forall all t,
     exists o new, Index.execute all t = (o, (t ++ new)%list) /\ attributed new).
Proof.
  split; [| split; [| split]].
  - intros pm t.
    destruct (getGlobalPackages_pm pm t) as (o & new & E & [r ->] & packages & -> & H).
    now exists r, packages.
  - intros packageManagers t.
    destruct (enumerate_pm packageManagers t) as (o & new & E & Hnew & Ho).
    destruct o as [allPackages | e | code]; simpl in Ho; try contradiction.
    now exists allPackages, new.
  - intros t. destruct (run_starts_with_detection t) as (o & new & E & H).
    exists o, new. split; [exact E | now apply starts_with_detection_attributed].
  - intros all t. destruct (execute_starts_with_detection all t) as (o & new & E & H).
    exists o, new. split; [exact E | now apply starts_with_detection_attributed].
Qed.

End Attribution.

(** ** Runs on a machine without a package manager *)

Section NoManager.
Import Model Runtime Events.
Context {W : World}.



End NoManager.

(** ** Runs in the example worlds *)

Section Scenarios.
Import Model Runtime Events.

Lemma getGlobalPackages_failure_is_empty_witness :
  PM.getGlobalPackages (W := Examples.upgrade_fails) npm [] =
    (Return [],
     ([] ++ [EvExec (PM.list_command npm)
               (ExecFailed "Error: Command failed: npm list -g --depth=0 --json")])%list) /\
  (forall t' stdout,
     exec_answer (World := Examples.upgrade_fails) t' (PM.list_command npm) =
       ExecOk stdout ->
     PM.lists_nothing (W := Examples.upgrade_fails) npm stdout ->
     fst (PM.getGlobalPackages (W := Examples.upgrade_fails) npm t') =
     fst (PM.getGlobalPackages (W := Examples.upgrade_fails) npm [])).
Proof.
  apply (getGlobalPackages_failure_is_empty (W := Examples.upgrade_fails) npm []
           "Error: Command failed: npm list -g --depth=0 --json").
  reflexivity.
Defined.

Lemma getLatestVersion_absent_witness :
  fst (Registry.getLatestVersion (W := Examples.upgrade_fails) "left-pad" []) =
  Return None.
Proof.
  apply (proj1 (proj2 (proj2
           (getLatestVersion_absent (W := Examples.upgrade_fails) "left-pad" [])))
           None).
  reflexivity.
Defined.


Lemma cancelled_run_upgrades_nothing_witness :
  exists new,
    Cli.run (W := Examples.user_cancels) [] = (Exit 0, new) /\
    existsb is_cancel new = true /\ existsb is_upgrade new = false.
Proof.
  destruct (cancelled_run_upgrades_nothing (W := Examples.user_cancels) [])
    as [(o & new & E & H) _].
  exists new. simpl in E.
  assert (Hc : existsb is_cancel new = true).
  { replace new with (snd (Cli.run (W := Examples.user_cancels) []))
      by now rewrite E.
    vm_compute. reflexivity. }
  destruct (H Hc) as [-> Hu]. auto.
Defined.


(** C2 fails for [run]: on a machine with bun and one package to
    upgrade, the user selects it and confirms, and the upgrade command
    fails.  [run] logs the failure and then announces that all packages
    were upgraded, successfully; [execute], on the same machine, returns
    a result whose [success] is false and which lists the failure. *)
Theorem run_announces_success_after_a_failure :
  (exists before,
     Cli.run (W := Examples.upgrade_fails) [] =
       (Return tt,
        before ++
        [EvExec "bun add -g typescript@latest"
           (ExecFailed "Error: Command failed: bun add -g typescript@latest");
         EvOutput (s_stop "Failed to upgrade packages via bun");
         EvOutput (p_log_error "bun: Error: Command failed: bun add -g typescript@latest");
         EvOutput (s_stop "All packages upgraded");
         EvOutput (p_outro "Successfully upgraded all selected packages!")])%list) /\
  fst (Index.execute (W := Examples.upgrade_fails) true []) =
    Return
      (Index.Summary false 0 1
         ["bun: Error: Command failed: bun add -g typescript@latest"]
         "Upgraded 0/1 packages. 1 failed.").
Proof.
  split.
  - exists (firstn 18 (snd (Cli.run (W := Examples.upgrade_fails) []))).
    vm_compute. reflexivity.
  - vm_compute. reflexivity.
Qed.

End Scenarios.

(** * Further properties *)

(** ** The order of Numbers *)

Section Order.
Import Ranking.

Ltac by_rank :=
  repeat match goal with s : bool |- _ => destruct s end; simpl;
  repeat match goal with
         | |- context [PosDef.Pos.compare_cont Eq ?a ?b] =>
             change (PosDef.Pos.compare_cont Eq a b) with (Pos.compare a b)
         end;
  repeat match goal with
         | |- context [Z.compare ?a ?b] => destruct (Z.compare_spec a b) as [? | ? | ?]; subst; simpl
         | |- context [Pos.compare ?a ?b] => destruct (Pos.compare_spec a b) as [? | ? | ?]; subst; simpl
         end;
  split; intros HH; try discriminate HH; try reflexivity;
  try lia; try (inversion HH; lia).

Lemma lt_rank (a b : JS.number) :
  JS.is_NaN a = false -> JS.is_NaN b = false ->
  (JS.lt a b = true <-> before (rank a) (rank b)).
Proof.
  unfold JS.lt, SFltb, before.
  destruct a as [sa | sa | | sa ma ea], b as [sb | sb | | sb mb eb];
    try discriminate; intros _ _; simpl; by_rank.
Qed.

Lemma equal_rank (a b : JS.number) :
  JS.is_NaN a = false -> JS.is_NaN b = false ->
  (JS.equal a b = true <-> rank a = rank b).
Proof.
  unfold JS.equal, SFeqb.
  destruct a as [sa | sa | | sa ma ea], b as [sb | sb | | sb mb eb];
    try discriminate; intros _ _; simpl; by_rank.
Qed.

End Order.


(** ** The version comparator as an order *)

Section Versions.
Import Ranking Text.

Lemma index_or_zero_beyond (xs : list JS.number) (i : nat) :
  List.length xs <= i -> JS.index_or_zero xs i = JS.zero.
Proof.
  intros H. unfold JS.index_or_zero. now rewrite (proj2 (nth_error_None xs i) H).
Qed.

(** The components differ inside the longer of the two sequences only. *)
Lemma difference_in_range (cp lp : list JS.number) (k : nat) :
  JS.gt (JS.index_or_zero lp k) (JS.index_or_zero cp k) = true ->
  k < Nat.max (List.length cp) (List.length lp).
Proof.
  intros H. destruct (Nat.lt_ge_cases k (Nat.max (List.length cp) (List.length lp)))
    as [Hk | Hk]; [exact Hk |].
  rewrite !index_or_zero_beyond in H by lia. discriminate.
Qed.

Lemma compare_from_ahead (cp lp : list JS.number) (n : nat) :
  Nat.max (List.length cp) (List.length lp) <= n ->
  (Registry.compare_from cp lp 0 n = true <-> ahead cp lp).
Proof.
  intros Hn. rewrite compare_from_first_difference. unfold ahead.
  split.
  - intros (k & Hk & Heq & Hgt). exists k. split.
    + intros j Hj. apply equal_rank; try apply index_or_zero_not_NaN.
      apply Heq. lia.
    + apply (lt_rank (JS.index_or_zero cp k) (JS.index_or_zero lp k));
        try apply index_or_zero_not_NaN. exact Hgt.
  - intros (k & Heq & Hlt). exists k.
    apply (lt_rank (JS.index_or_zero cp k) (JS.index_or_zero lp k)) in Hlt;
      try apply index_or_zero_not_NaN.
    pose proof (difference_in_range _ _ _ Hlt) as Hr.
    split; [lia |]. split; [| exact Hlt].
    intros j Hj. apply equal_rank; try apply index_or_zero_not_NaN.
    apply Heq. lia.
Qed.

Lemma ahead_transitive (a b c : list JS.number) : ahead a b -> ahead b c -> ahead a c.
Proof.
  intros (k1 & Heq1 & Hlt1) (k2 & Heq2 & Hlt2). unfold before in *.
  destruct (Nat.lt_trichotomy k1 k2) as [H | [H | H]].
  - exists k1. split.
    + intros j Hj. rewrite Heq1 by lia. apply Heq2. lia.
    + unfold before. rewrite <- (Heq2 k1 H). exact Hlt1.
  - subst k2. exists k1. split.
    + intros j Hj. rewrite Heq1 by lia. now apply Heq2.
    + unfold before. lia.
  - exists k2. split.
    + intros j Hj. rewrite Heq1 by lia. now apply Heq2.
    + unfold before. rewrite (Heq1 k2 H). exact Hlt2.
Qed.

Lemma compareVersions_ahead (current latest : string) :
  Registry.compareVersions current latest = true <->
  current <> "" /\ latest <> "" /\
  ahead (Registry.components current) (Registry.components latest).
Proof.
  destruct (String.eqb_spec current "") as [-> | Hc].
  { split; [discriminate | now intros [[] _]]. }
  destruct (String.eqb_spec latest "") as [-> | Hl].
  { unfold Registry.compareVersions. rewrite orb_true_r.
    split; [discriminate | now intros (_ & [] & _)]. }
  rewrite (compareVersions_unfold _ _ Hc Hl), compare_from_ahead by lia. tauto.
Qed.

(** [compareVersions] is transitive. *)
Theorem compareVersions_transitive (a b c : string) :
  Registry.compareVersions a b = true -> Registry.compareVersions b c = true ->
  Registry.compareVersions a c = true.
Proof.
  rewrite !compareVersions_ahead. intros (Ha & Hb & Hab) (_ & Hc & Hbc).
  repeat split; try assumption. now apply ahead_transitive with (Registry.components b).
Qed.

Lemma compareVersions_transitive_witness :
  Registry.compareVersions "1.9.3" "2.0" = true.
Proof.
  apply (compareVersions_transitive "1.9.3" "1.10" "2.0"); reflexivity.
Defined.

Lemma span_no_digit (p : string) (c : ascii) (a : string) :
  no_digit p = true -> JS.is_digit c = true ->
  JS.span (fun c => negb (JS.is_digit c)) (p ++ String c a) = (p, String c a).
Proof.
  intros Hp Hc. induction p as [| x p IH]; simpl in *.
  - now rewrite Hc.
  - apply andb_prop in Hp. destruct Hp as [Hx Hp]. now rewrite Hx, (IH Hp).
Qed.

(** The characters before the first digit of a version are ignored. *)
Theorem compareVersions_ignores_prefix (p q : string) (c d : ascii) (a b : string) :
  no_digit p = true -> no_digit q = true ->
  JS.is_digit c = true -> JS.is_digit d = true ->
  Registry.compareVersions (p ++ String c a) (q ++ String d b) =
  Registry.compareVersions (String c a) (String d b).
Proof.
  intros Hp Hq Hc Hd.
  assert (E : forall p c a, no_digit p = true -> JS.is_digit c = true ->
            Registry.components (p ++ String c a) = Registry.components (String c a)).
  { intros p' c' a' Hp' Hc'. unfold Registry.components, Registry.strip_non_digit_prefix.
    rewrite (span_no_digit p' c' a' Hp' Hc').
    pose proof (span_no_digit "" c' a' eq_refl Hc') as E0. simpl append in E0.
    now rewrite E0. }
  rewrite !compareVersions_unfold;
    try (now destruct p); try (now destruct q); try discriminate.
  fold (Registry.components (p ++ String c a)) (Registry.components (q ++ String d b)).
  fold (Registry.components (String c a)) (Registry.components (String d b)).
  now rewrite (E p c a Hp Hc), (E q d b Hq Hd).
Qed.

Lemma compareVersions_ignores_prefix_witness :
  Registry.compareVersions "v1.0.0" "^1.0.1" = Registry.compareVersions "1.0.0" "1.0.1".
Proof.
  apply (compareVersions_ignores_prefix "v" "^" "1" "1" ".0.0" ".0.1"); reflexivity.
Defined.

Lemma split_not_nil (sep : ascii) (s : string) : JS.split sep s <> [].
Proof.
  induction s as [| c s IH]; simpl; [discriminate |].
  destruct (Ascii.eqb c sep); [discriminate |].
  now destruct (JS.split sep s).
Qed.

Lemma split_app_last (sep : ascii) (s last : string) :
  JS.split sep (s ++ String sep last) = (JS.split sep s ++ JS.split sep last)%list.
Proof.
  induction s as [| c s IH]; simpl.
  - now rewrite Ascii.eqb_refl.
  - destruct (Ascii.eqb c sep); [now rewrite IH |].
    rewrite IH. pose proof (split_not_nil sep s) as Hne.
    now destruct (JS.split sep s).
Qed.

Lemma span_app (P : ascii -> bool) (a t : string) :
  JS.span P (a ++ t) =
  match snd (JS.span P a) with
  | EmptyString => (a ++ fst (JS.span P t), snd (JS.span P t))
  | rest => (fst (JS.span P a), rest ++ t)
  end.
Proof.
  induction a as [| c a IH]; simpl.
  - now destruct (JS.span P t).
  - destruct (P c); [| reflexivity].
    rewrite IH. destruct (JS.span P a) as [x y]. simpl.
    now destruct y.
Qed.

Lemma index_or_zero_app_zero (xs : list JS.number) (i : nat) :
  JS.index_or_zero (xs ++ [JS.zero]) i = JS.index_or_zero xs i.
Proof.
  unfold JS.index_or_zero.
  destruct (Nat.lt_ge_cases i (List.length xs)) as [H | H].
  - now rewrite nth_error_app1.
  - rewrite nth_error_app2, (proj2 (nth_error_None xs i)) by exact H.
    destruct (i - List.length xs) as [| [| n]]; reflexivity.
Qed.

(** The components of a version with [.0] added are those of the
    version, a missing component being 0. *)
Lemma component_trailing_zero (v : string) (i : nat) :
  Registry.component (v ++ ".0") i = Registry.component v i.
Proof.
  unfold Registry.component, Registry.components, Registry.strip_non_digit_prefix.
  rewrite span_app.
  destruct (snd (JS.span (fun c => negb (JS.is_digit c)) v)) as [| c rest] eqn:E.
  - reflexivity.
  - cbn [snd]. unfold Registry.parts.
    change (String c rest ++ ".0") with (String c rest ++ String "." "0").
    rewrite split_app_last, map_app. apply index_or_zero_app_zero.
Qed.

Lemma ahead_ext (cp cp' lp lp' : list JS.number) :
  (forall i, JS.index_or_zero cp i = JS.index_or_zero cp' i) ->
  (forall i, JS.index_or_zero lp i = JS.index_or_zero lp' i) ->
  ahead cp lp -> ahead cp' lp'.
Proof.
  intros Hc Hl (k & Heq & Hlt). exists k. split.
  - intros j Hj. rewrite <- Hc, <- Hl. now apply Heq.
  - now rewrite <- Hc, <- Hl.
Qed.

(** A version and the same version with [.0] added compare in the same
    way with every version: a missing component counts as 0. *)
Theorem compareVersions_trailing_zero (v other : string) :
  v <> "" ->
  Registry.compareVersions (v ++ ".0") other = Registry.compareVersions v other /\
  Registry.compareVersions other (v ++ ".0") = Registry.compareVersions other v.
Proof.
  intros Hv.
  assert (Hv' : v ++ ".0" <> "") by now destruct v.
  split; apply Bool.eq_iff_eq_true; rewrite !compareVersions_ahead;
    (split; intros (H1 & H2 & H3); repeat split; try assumption;
     revert H3; apply ahead_ext; intros i;
     try reflexivity;
     try apply (component_trailing_zero v i);
     symmetry; apply (component_trailing_zero v i)).
Qed.

Lemma compareVersions_trailing_zero_witness :
  Registry.compareVersions "1.2.0" "1.2.1" = Registry.compareVersions "1.2" "1.2.1" /\
  Registry.compareVersions "1.2.1" "1.2.0" = Registry.compareVersions "1.2.1" "1.2".
Proof. apply (compareVersions_trailing_zero "1.2" "1.2.1"). discriminate. Defined.

End Versions.


(** ** Texts without white space *)

Section Characters.
Import Text.

Lemma all_chars_app (P : ascii -> bool) (a b : string) :
  all_chars P (a ++ b) = all_chars P a && all_chars P b.
Proof. induction a as [| c a IH]; simpl; [reflexivity | now rewrite IH, andb_assoc]. Qed.

Lemma all_chars_impl (P Q : ascii -> bool) (s : string) :
  (forall c, P c = true -> Q c = true) -> all_chars P s = true -> all_chars Q s = true.
Proof.
  intros H. induction s as [| c s IH]; simpl; [reflexivity |].
  intros Hs. apply andb_prop in Hs. destruct Hs as [Hc Hs]. now rewrite (H c Hc), IH.
Qed.

Lemma is_graph_print (c : ascii) : is_graph c = true -> is_print c = true.
Proof.
  unfold is_graph, is_print. intros H. apply andb_prop in H. destruct H as [H1 H2].
  apply Nat.leb_le in H1. rewrite H2, andb_true_r. apply Nat.leb_le. lia.
Qed.

Ltac by_character c :=
  destruct c as [[] [] [] [] [] [] [] []]; try discriminate; reflexivity.

Lemma graph_is_no_whiteSpace (c : ascii) (s : string) :
  is_graph c = true -> JS.first_prefix JS.whiteSpace (String c s) = None.
Proof. by_character c. Qed.

Lemma graph_ends_no_whiteSpace (c : ascii) (s : string) :
  is_graph c = true ->
  JS.first_prefix (map JS.string_rev JS.whiteSpace) (String c s) = None.
Proof. by_character c. Qed.

Lemma graph_is_no_tree_character (c : ascii) (s : string) :
  is_graph c = true -> JS.first_prefix PM.tree_characters (String c s) = None.
Proof. by_character c. Qed.

Lemma print_is_no_lineTerminator (c : ascii) (s : string) :
  is_print c = true -> JS.first_prefix JS.lineTerminator (String c s) = None.
Proof. by_character c. Qed.

Lemma drop_leading_stop (toks : list string) (fuel : nat) (s : string) :
  JS.first_prefix toks s = None -> JS.drop_leading toks fuel s = s.
Proof. intros H. destruct fuel; simpl; [reflexivity | now rewrite H]. Qed.

Lemma string_rev_involutive (s : string) : JS.string_rev (JS.string_rev s) = s.
Proof.
  unfold JS.string_rev.
  now rewrite list_ascii_of_string_of_list_ascii, rev_involutive,
    string_of_list_ascii_of_string.
Qed.

Lemma string_of_list_ascii_app (a b : list ascii) :
  string_of_list_ascii (a ++ b) = string_of_list_ascii a ++ string_of_list_ascii b.
Proof. induction a as [| c a IH]; simpl; [reflexivity | now rewrite IH]. Qed.

Lemma string_rev_cons (c : ascii) (s : string) :
  JS.string_rev (String c s) = JS.string_rev s ++ String c "".
Proof. unfold JS.string_rev. simpl. now rewrite string_of_list_ascii_app. Qed.

(** The reverse of a string starts with the last character of it. *)
Lemma string_rev_ends_with (P : ascii -> bool) (s : string) :
  ends_with P s = true ->
  exists c r, JS.string_rev s = String c r /\ P c = true.
Proof.
  induction s as [| c s IH]; [discriminate |].
  intros H. rewrite string_rev_cons. destruct s as [| d s].
  - exists c, "". now split.
  - destruct (IH H) as (x & r & -> & Hx). exists x, (r ++ String c ""). now split.
Qed.

(** A phrase has no white space to trim. *)
Lemma trim_phrase (s : string) : phrase s = true -> JS.trim s = s.
Proof.
  unfold phrase. intros H. apply andb_prop in H. destruct H as [H He].
  apply andb_prop in H. destruct H as [_ Hb].
  unfold JS.trim, JS.trimStart, JS.trimEnd.
  destruct s as [| c s]; [discriminate |]. simpl in Hb.
  rewrite (drop_leading_stop _ _ _ (graph_is_no_whiteSpace c s Hb)).
  destruct (string_rev_ends_with _ _ He) as (x & r & E & Hx).
  rewrite E, (drop_leading_stop _ _ _ (graph_ends_no_whiteSpace x r Hx)), <- E.
  apply string_rev_involutive.
Qed.

Lemma ends_with_all (P : ascii -> bool) (c : ascii) (s : string) :
  P c = true -> all_chars P s = true -> ends_with P (String c s) = true.
Proof.
  revert c. induction s as [| d s IH]; intros c Hc H; [exact Hc |].
  simpl in H. apply andb_prop in H. destruct H as [Hd H].
  change (ends_with P (String d s) = true). now apply IH.
Qed.

Lemma word_phrase (s : string) : word s = true -> phrase s = true.
Proof.
  unfold word, phrase. intros H. apply andb_prop in H. destruct H as [Hne H].
  rewrite (all_chars_impl _ _ _ is_graph_print H).
  destruct s as [| c s]; [discriminate |].
  simpl in H. apply andb_prop in H. destruct H as [Hc H].
  simpl begins_with. now rewrite Hc, (ends_with_all _ c s Hc H).
Qed.

Lemma package_name_word (s : string) : package_name s = true -> word s = true.
Proof.
  destruct s as [| c s]; [discriminate |]. unfold word. simpl.
  intros H. apply andb_prop in H. destruct H as [Hc H]. rewrite Hc. simpl.
  eapply all_chars_impl; [| exact H].
  intros d Hd. apply andb_prop in Hd. tauto.
Qed.

Lemma phrase_not_empty (s : string) : phrase s = true -> s <> "".
Proof. now destruct s. Qed.

(** A string of printable characters has no line terminator. *)
Lemma print_has_no_line_terminator (s : string) :
  all_chars is_print s = true -> JS.has_line_terminator s = false.
Proof.
  induction s as [| c s IH]; [reflexivity |].
  simpl all_chars. intros H. apply andb_prop in H. destruct H as [Hc H].
  unfold JS.has_line_terminator; fold JS.has_line_terminator.
  rewrite (print_is_no_lineTerminator c s Hc). now apply IH.
Qed.

Lemma dots_to_end_phrase (s : string) : phrase s = true -> JS.dots_to_end s = Some s.
Proof.
  intros H. unfold JS.dots_to_end.
  destruct (String.eqb_spec s "") as [-> | _]; [discriminate |].
  unfold phrase in H. apply andb_prop in H. destruct H as [H _].
  apply andb_prop in H. destruct H as [H _].
  now rewrite (print_has_no_line_terminator s H).
Qed.

End Characters.


(** ** The listings of bun and pnpm *)

Section LineListings.
Import Model Text Listings.

Lemma split_no_sep (sep : ascii) (s : string) :
  all_chars (fun c => negb (Ascii.eqb c sep)) s = true -> JS.split sep s = [s].
Proof.
  induction s as [| c s IH]; simpl; [reflexivity |].
  intros H. apply andb_prop in H. destruct H as [Hc H].
  apply negb_true_iff in Hc. now rewrite Hc, (IH H).
Qed.

(** Splitting what was joined gives the pieces back. *)
Lemma split_join (sep : ascii) (xs : list string) :
  xs <> [] ->
  Forall (fun x => all_chars (fun c => negb (Ascii.eqb c sep)) x = true) xs ->
  JS.split sep (JS.join (String sep "") xs) = xs.
Proof.
  intros Hne H. induction H as [| x xs Hx Hxs IH]; [congruence |].
  destruct xs as [| y ys].
  - now apply split_no_sep.
  - change (JS.join (String sep "") (x :: y :: ys))
      with (x ++ String sep (JS.join (String sep "") (y :: ys))).
    rewrite split_app_last, (split_no_sep _ _ Hx), IH by discriminate. reflexivity.
Qed.

Lemma starts_with_app (p s r : string) : JS.starts_with p s = Some r -> s = p ++ r.
Proof.
  revert s. induction p as [| a p IH]; intros s H; simpl in *.
  - now injection H as ->.
  - destruct s as [| b s]; [discriminate |].
    destruct (Ascii.eqb_spec a b) as [-> | _]; [| discriminate].
    now rewrite (IH _ H).
Qed.

Lemma first_prefix_app (toks : list string) (s r : string) :
  JS.first_prefix toks s = Some r -> exists p, s = p ++ r.
Proof.
  induction toks as [| p toks IH]; simpl; [discriminate |].
  destruct (JS.starts_with p s) as [r' |] eqn:E; [| exact IH].
  intros H. injection H as ->. exists p. now apply starts_with_app.
Qed.

Lemma drop_leading_all_chars (P : ascii -> bool) (toks : list string) (fuel : nat)
    (s : string) :
  all_chars P s = true -> all_chars P (JS.drop_leading toks fuel s) = true.
Proof.
  revert s. induction fuel as [| fuel IH]; intros s H; simpl; [exact H |].
  destruct (JS.first_prefix toks s) as [r |] eqn:E; [| exact H].
  apply IH. destruct (first_prefix_app _ _ _ E) as [p ->].
  rewrite all_chars_app in H. apply andb_prop in H. tauto.
Qed.

Lemma all_chars_rev (P : ascii -> bool) (s : string) :
  all_chars P (JS.string_rev s) = all_chars P s.
Proof.
  induction s as [| c s IH]; [reflexivity |].
  rewrite string_rev_cons, all_chars_app, IH. simpl.
  now rewrite andb_true_r, andb_comm.
Qed.

Lemma trim_all_chars (P : ascii -> bool) (s : string) :
  all_chars P s = true -> all_chars P (JS.trim s) = true.
Proof.
  intros H. unfold JS.trim, JS.trimEnd, JS.trimStart.
  rewrite all_chars_rev. apply drop_leading_all_chars.
  rewrite all_chars_rev. now apply drop_leading_all_chars.
Qed.

Lemma clean_all_chars (P : ascii -> bool) (s : string) :
  all_chars P s = true -> all_chars P (PM.clean s) = true.
Proof. intros H. unfold PM.clean. now apply trim_all_chars, drop_leading_all_chars. Qed.

(** A string without [@] has no match for [^(.+?)@(.+)$]. *)
Lemma no_at_no_match (s : string) :
  all_chars (fun c => negb (Ascii.eqb c "@")) s = true ->
  JS.match_name_at_version s = None.
Proof.
  assert (H : forall s, all_chars (fun c => negb (Ascii.eqb c "@")) s = true ->
              JS.lazy_dots JS.at_then_rest s = None).
  { clear s. induction s as [| c s IH]; [reflexivity |].
    simpl all_chars. intros H. apply andb_prop in H. destruct H as [Hc H].
    apply negb_true_iff in Hc.
    unfold JS.lazy_dots; fold JS.lazy_dots.
    assert (E : JS.at_then_rest (String c s) = None).
    { unfold JS.at_then_rest.
      destruct c as [[] [] [] [] [] [] [] []]; try reflexivity; discriminate. }
    rewrite E, (IH H). now destruct (JS.first_prefix JS.lineTerminator (String c s)). }
  intros Hs. unfold JS.match_name_at_version, JS.lazy_group.
  destruct s as [| c s]; [now destruct (JS.first_prefix _ _) |].
  simpl in Hs. apply andb_prop in Hs. destruct Hs as [_ Hs].
  rewrite (H s Hs). now destruct (JS.first_prefix JS.lineTerminator (String c s)).
Qed.

Lemma append_assoc (a b c : string) : (a ++ b) ++ c = a ++ b ++ c.
Proof. induction a as [| x a IH]; simpl; [reflexivity | now rewrite IH]. Qed.

Lemma ends_with_app (P : ascii -> bool) (a b : string) :
  b <> "" -> ends_with P (a ++ b) = ends_with P b.
Proof.
  intros Hb. induction a as [| c a IH]; [reflexivity |].
  simpl append. unfold ends_with; fold ends_with.
  destruct (a ++ b) eqn:E; [| exact IH].
  destruct a, b; simpl in E; congruence.
Qed.

Lemma phrase_app (a m b : string) :
  begins_with is_graph a = true -> all_chars is_print a = true ->
  all_chars is_print m = true -> phrase b = true ->
  phrase (a ++ m ++ b) = true.
Proof.
  intros Ha1 Ha2 Hm Hb. pose proof (phrase_not_empty b Hb) as Hne.
  unfold phrase in *. apply andb_prop in Hb. destruct Hb as [Hb Hb3].
  apply andb_prop in Hb. destruct Hb as [Hb1 Hb2].
  rewrite !all_chars_app, Ha2, Hm, Hb1.
  rewrite <- append_assoc, ends_with_app, Hb3 by exact Hne.
  destruct a; [discriminate |]. simpl in *. now rewrite Ha1.
Qed.

Lemma word_begins (s : string) :
  word s = true -> begins_with is_graph s = true /\ all_chars is_print s = true.
Proof.
  intros H. apply word_phrase in H. unfold phrase in H.
  apply andb_prop in H. destruct H as [H _]. apply andb_prop in H. tauto.
Qed.

Lemma trim_not_blank (s : string) :
  JS.first_prefix JS.whiteSpace s = None -> ends_with is_graph s = true ->
  JS.trim s = s.
Proof.
  intros Hb He. unfold JS.trim, JS.trimStart, JS.trimEnd.
  rewrite (drop_leading_stop _ _ _ Hb).
  destruct (string_rev_ends_with _ _ He) as (x & r & E & Hx).
  rewrite E, (drop_leading_stop _ _ _ (graph_ends_no_whiteSpace x r Hx)), <- E.
  apply string_rev_involutive.
Qed.

Lemma drop_leading_step (toks : list string) (fuel : nat) (s r : string) :
  JS.first_prefix toks s = Some r ->
  JS.drop_leading toks (S fuel) s = JS.drop_leading toks fuel r.
Proof. intros H. simpl. now rewrite H. Qed.

(** [^(.+?)@(.+)$] on a name, [@] and a version. *)
Lemma match_name_at_version_line (name version : string) :
  package_name name = true -> phrase version = true ->
  JS.match_name_at_version (name ++ "@" ++ version) = Some (name, version).
Proof.
  intros Hn Hv. destruct name as [| c r]; [discriminate |].
  simpl in Hn. apply andb_prop in Hn. destruct Hn as [Hc Hr].
  unfold JS.match_name_at_version, JS.lazy_group. simpl append.
  rewrite (print_is_no_lineTerminator c _ (is_graph_print c Hc)).
  assert (E : JS.lazy_dots JS.at_then_rest (r ++ String "@" version) = Some (r, version)).
  { clear c Hc. induction r as [| d r IH].
    - simpl. now rewrite (dots_to_end_phrase version Hv).
    - simpl in Hr. apply andb_prop in Hr. destruct Hr as [Hd Hr].
      apply andb_prop in Hd. destruct Hd as [Hd Hat]. apply negb_true_iff in Hat.
      simpl append. unfold JS.lazy_dots; fold JS.lazy_dots.
      assert (E : JS.at_then_rest (String d (r ++ String "@" version)) = None).
      { unfold JS.at_then_rest.
        destruct d as [[] [] [] [] [] [] [] []]; try reflexivity; discriminate. }
      rewrite E, (print_is_no_lineTerminator d _ (is_graph_print d Hd)).
      now rewrite (IH Hr). }
  now rewrite E.
Qed.

Lemma bun_package_line (last : bool) (name version : string) :
  package_name name = true -> phrase version = true ->
  let line := bun_line (BunPackage last name version) in
  JS.trim line = line /\ line <> "" /\ PM.clean line = name ++ "@" ++ version.
Proof.
  intros Hn Hv line.
  pose proof (package_name_word name Hn) as Hw.
  destruct (word_begins name Hw) as [Hb Hp].
  assert (Hphrase : phrase (name ++ "@" ++ version) = true)
    by now apply phrase_app.
  assert (Hends : forall p, ends_with is_graph (p ++ name ++ "@" ++ version) = true).
  { intros p. rewrite ends_with_app by now destruct name.
    unfold phrase in Hphrase. apply andb_prop in Hphrase. tauto. }
  assert (Hne : line <> "") by (subst line; now destruct last).
  split; [| split; [exact Hne |]].
  - apply trim_not_blank; [| apply Hends]. subst line. now destruct last.
  - unfold PM.clean. subst line. unfold bun_line.
    destruct name as [| c r]; [discriminate |]. simpl in Hb.
    set (rest := String c r ++ "@" ++ version) in *.
    assert (E : JS.drop_leading PM.tree_characters
                  (String.length ((if last then "└── " else "├── ") ++ rest))
                  ((if last then "└── " else "├── ") ++ rest) = rest).
    { destruct last; simpl String.length;
        repeat (erewrite drop_leading_step by reflexivity);
        apply drop_leading_stop, graph_is_no_tree_character, Hb. }
    rewrite E. now apply trim_phrase.
Qed.

Lemma print_is_no_newline (s : string) :
  all_chars is_print s = true ->
  all_chars (fun c => negb (Ascii.eqb c newline)) s = true.
Proof.
  apply all_chars_impl. intros c.
  destruct c as [[] [] [] [] [] [] [] []]; try discriminate; reflexivity.
Qed.

Lemma lines_of_listing (lines : list string) :
  Forall (fun x => all_chars (fun c => negb (Ascii.eqb c newline)) x = true) lines ->
  PM.lines_of (listing lines) =
  filter (fun line => negb (String.eqb (JS.trim line) "")) lines.
Proof.
  intros H. unfold PM.lines_of, listing. destruct lines as [| x xs]; [reflexivity |].
  fold newline. now rewrite split_join.
Qed.

Lemma phrase_all_print (s : string) : phrase s = true -> all_chars is_print s = true.
Proof.
  unfold phrase. intros H. apply andb_prop in H. destruct H as [H _].
  apply andb_prop in H. tauto.
Qed.

Lemma bun_line_no_newline (l : BunLine) :
  bun_line_ok l = true ->
  all_chars (fun c => negb (Ascii.eqb c newline)) (bun_line l) = true.
Proof.
  destruct l as [text | last name version]; simpl.
  - apply all_chars_impl. intros c Hc. apply andb_prop in Hc. tauto.
  - intros H. apply andb_prop in H. destruct H as [Hn Hv].
    destruct (word_begins name (package_name_word name Hn)) as [_ Hp].
    rewrite !all_chars_app. cbn [all_chars].
    rewrite (print_is_no_newline name Hp),
      (print_is_no_newline version (phrase_all_print version Hv)).
    now destruct last.
Qed.

Lemma push_match_pair (pm : PackageManager) (packages : list GlobalPackage)
    (m1 m2 : string) :
  phrase m1 = true -> phrase m2 = true ->
  PM.push_match pm packages (Some (m1, m2)) =
  (packages ++ [{| name := m1; version := JS.JStr m2; pm := pm |}])%list.
Proof.
  intros H1 H2. unfold PM.push_match.
  rewrite (trim_phrase m1 H1), (trim_phrase m2 H2).
  destruct m1, m2; try discriminate; reflexivity.
Qed.

(** The records of a listing of bun are those of its package lines: the
    name is what is between the branch of the tree and the first [@]
    that is not its first character, and the version what follows. *)
Theorem bun_listing_round_trip (pm : PackageManager) (lines : list BunLine) :
  forallb bun_line_ok lines = true ->
  PM.bun_packages pm (listing (map bun_line lines)) =
  flat_map (bun_line_records pm) lines.
Proof.
  intros Hok. unfold PM.bun_packages.
  rewrite lines_of_listing.
  2:{ apply Forall_map, Forall_forall. intros l Hl. apply bun_line_no_newline.
      rewrite forallb_forall in Hok. now apply Hok. }
  change (flat_map (bun_line_records pm) lines)
    with ([] ++ flat_map (bun_line_records pm) lines)%list.
  generalize (@nil GlobalPackage) as packages.
  induction lines as [| l lines IH]; intros packages; cbn [map filter flat_map].
  - simpl. now rewrite app_nil_r.
  - simpl in Hok. apply andb_prop in Hok. destruct Hok as [Hl Hok].
    destruct l as [text | last name version].
    + simpl in Hl.
      assert (E : PM.push_match pm packages
                    (JS.match_name_at_version (PM.clean text)) = packages).
      { rewrite no_at_no_match; [reflexivity |]. apply clean_all_chars.
        eapply all_chars_impl; [| exact Hl]. intros c Hc. apply andb_prop in Hc. tauto. }
      simpl bun_line. destruct (negb (JS.trim text =? "")); simpl.
      * rewrite E. now apply IH.
      * now apply IH.
    + simpl in Hl. apply andb_prop in Hl. destruct Hl as [Hn Hv].
      destruct (bun_package_line last name version Hn Hv) as (Ht & Hne & Hc).
      rewrite Ht. apply String.eqb_neq in Hne. rewrite Hne. cbn [negb fold_left].
      rewrite Hc, (match_name_at_version_line name version Hn Hv).
      rewrite push_match_pair, (IH Hok), <- app_assoc;
        [reflexivity | now apply word_phrase, package_name_word | exact Hv].
Qed.

Lemma space_then_rest_graph (c : ascii) (s : string) :
  is_graph c = true -> JS.space_then_rest (String c s) = None.
Proof.
  intros H. unfold JS.space_then_rest. now rewrite (graph_is_no_whiteSpace c s H).
Qed.

(** A string without white space has no match for [^(.+?)\s+(.+)$]. *)
Lemma no_space_no_match (s : string) :
  all_chars is_graph s = true -> JS.match_name_space_version s = None.
Proof.
  assert (H : forall s, all_chars is_graph s = true ->
              JS.lazy_dots JS.space_then_rest s = None).
  { clear s. induction s as [| c s IH]; [reflexivity |].
    simpl all_chars. intros H. apply andb_prop in H. destruct H as [Hc H].
    unfold JS.lazy_dots; fold JS.lazy_dots.
    rewrite (space_then_rest_graph c s Hc), (IH H).
    now destruct (JS.first_prefix JS.lineTerminator (String c s)). }
  intros Hs. unfold JS.match_name_space_version, JS.lazy_group.
  destruct s as [| c s]; [now destruct (JS.first_prefix _ _) |].
  simpl in Hs. apply andb_prop in Hs. destruct Hs as [_ Hs].
  rewrite (H s Hs). now destruct (JS.first_prefix JS.lineTerminator (String c s)).
Qed.

(** [^(.+?)\s+(.+)$] on a name, a space and what follows. *)
Lemma match_name_space_version_line (name version : string) :
  word name = true -> phrase version = true ->
  JS.match_name_space_version (name ++ " " ++ version) = Some (name, version).
Proof.
  intros Hn Hv. unfold word in Hn. apply andb_prop in Hn. destruct Hn as [Hne Hn].
  destruct name as [| c r]; [discriminate Hne |]. clear Hne.
  simpl in Hn. apply andb_prop in Hn. destruct Hn as [Hc Hr].
  unfold JS.match_name_space_version, JS.lazy_group. simpl append.
  rewrite (print_is_no_lineTerminator c _ (is_graph_print c Hc)).
  assert (E : JS.lazy_dots JS.space_then_rest (r ++ String " " version) =
              Some (r, version)).
  { clear c Hc. induction r as [| d r IH].
    - assert (Hs : JS.space_then_rest (String " " version) = Some version).
      { unfold JS.space_then_rest.
        change (JS.first_prefix JS.whiteSpace (String " " version)) with (Some version).
        pose proof Hv as Hv'.
        destruct version as [| x y]; [cbv in Hv; discriminate Hv |].
        unfold phrase in Hv. cbn [begins_with] in Hv.
        apply andb_prop in Hv. destruct Hv as [Hv He].
        apply andb_prop in Hv. destruct Hv as [Hp Hx].
        cbn [String.length JS.more_space_then_rest].
        rewrite (graph_is_no_whiteSpace x y Hx).
        now apply dots_to_end_phrase. }
      simpl append. unfold JS.lazy_dots. now rewrite Hs.
    - simpl in Hr. apply andb_prop in Hr. destruct Hr as [Hd Hr].
      simpl append. unfold JS.lazy_dots; fold JS.lazy_dots.
      rewrite (space_then_rest_graph d _ Hd),
        (print_is_no_lineTerminator d _ (is_graph_print d Hd)).
      now rewrite (IH Hr). }
  now rewrite E.
Qed.

Lemma clean_phrase (s : string) : phrase s = true -> PM.clean s = s.
Proof.
  intros H. unfold PM.clean. destruct s as [| c r]; [discriminate |].
  assert (Hc : is_graph c = true).
  { unfold phrase in H. cbn [begins_with] in H.
    apply andb_prop in H. destruct H as [H _]. apply andb_prop in H. tauto. }
  rewrite (drop_leading_stop _ _ _ (graph_is_no_tree_character c r Hc)).
  now apply trim_phrase.
Qed.

Lemma pnpm_line_no_newline (l : PnpmLine) :
  pnpm_line_ok l = true ->
  all_chars (fun c => negb (Ascii.eqb c newline)) (pnpm_line l) = true.
Proof.
  destruct l as [text | name version]; simpl.
  - intros H. apply print_is_no_newline.
    eapply all_chars_impl; [apply is_graph_print | exact H].
  - intros H. apply andb_prop in H. destruct H as [Hn Hv].
    destruct (word_begins name Hn) as [_ Hp].
    rewrite !all_chars_app. cbn [all_chars].
    now rewrite (print_is_no_newline name Hp),
      (print_is_no_newline version (phrase_all_print version Hv)).
Qed.

(** The records of a listing of pnpm are those of its lines that have
    a space: the name is the first word of the line, and the version
    what follows the space. *)
Theorem pnpm_listing_round_trip (pm : PackageManager) (lines : list PnpmLine) :
  forallb pnpm_line_ok lines = true ->
  PM.pnpm_packages pm (listing (map pnpm_line lines)) =
  flat_map (pnpm_line_records pm) lines.
Proof.
  intros Hok. unfold PM.pnpm_packages.
  rewrite lines_of_listing.
  2:{ apply Forall_map, Forall_forall. intros l Hl. apply pnpm_line_no_newline.
      rewrite forallb_forall in Hok. now apply Hok. }
  change (flat_map (pnpm_line_records pm) lines)
    with ([] ++ flat_map (pnpm_line_records pm) lines)%list.
  generalize (@nil GlobalPackage) as packages.
  induction lines as [| l lines IH]; intros packages; cbn [map filter flat_map].
  - simpl. now rewrite app_nil_r.
  - simpl in Hok. apply andb_prop in Hok. destruct Hok as [Hl Hok].
    destruct l as [text | name version].
    + simpl in Hl. cbn [pnpm_line pnpm_line_records app].
      destruct (negb (JS.trim text =? "")); cbn [fold_left]; [| now apply IH].
      rewrite no_space_no_match by now apply trim_all_chars, drop_leading_all_chars.
      now apply IH.
    + simpl in Hl. apply andb_prop in Hl. destruct Hl as [Hn Hv].
      destruct (word_begins name Hn) as [Hb Hp].
      assert (Hline : phrase (pnpm_line (PnpmPair name version)) = true).
      { apply phrase_app; auto. }
      rewrite (trim_phrase _ Hline).
      pose proof (phrase_not_empty _ Hline) as Hne.
      apply String.eqb_neq in Hne. rewrite Hne. cbn [negb fold_left].
      rewrite (clean_phrase _ Hline). cbn [pnpm_line].
      rewrite (match_name_space_version_line name version Hn Hv).
      rewrite push_match_pair, (IH Hok), <- app_assoc;
        [reflexivity | now apply word_phrase | exact Hv].
Qed.

End LineListings.


(** ** The listing of yarn *)

Section YarnListing.
Import Model Runtime Text Listings.
Context {W : World}.








End YarnListing.


(** ** The listing of npm *)

Section NpmListing.
Import Model Runtime Events Listings.
Context {W : World}.

Lemma npm_entries_loop (pm : PackageManager) (entries : list (string * JS.JValue))
    (packages : list GlobalPackage) (t : Trace) :
  Forall (fun entry => snd entry <> JS.JNull) entries ->
  for_of entries
    (fun packages entry =>
       let '(name, info) := entry in
       version <- or_TypeError (JS.get info "version") ;;
       ret match version with
           | Some v =>
               if JS.truthy v then
                 (packages ++ [{| name := name; version := v; pm := pm |}])%list
               else packages
           | None => packages
           end)
    packages t =
  (Return (packages ++ flat_map (npm_entry_records pm) entries)%list, t).
Proof.
  intros H. revert packages. induction H as [| [name info] entries Hinfo _ IH];
    intros packages; simpl.
  - now rewrite app_nil_r.
  - unfold bind at 1. unfold npm_entry_records at 1. cbn [fst snd] in *.
    destruct info as [| b | x | s | items | props]; try congruence;
      cbn [JS.get or_TypeError bind ret].
    1-4: (rewrite IH; reflexivity).
    destruct (JS.lookup "version" props) as [v |]; [| now rewrite IH].
    destruct (JS.truthy v); rewrite IH; [| reflexivity].
    now rewrite <- app_assoc.
Qed.

(** The records of the listing of npm are the entries of
    [dependencies] that have a truthy [version], in their order. *)
Theorem npm_listing_records (t : Trace) (stdout : string) (data : JS.JValue)
    (dependencies : list (string * JS.JValue)) :
  exec_answer t (PM.list_command npm) = ExecOk stdout ->
  JSON_parse stdout = Some data ->
  JS.get data "dependencies" = Some (Some (JS.JObj dependencies)) ->
  Forall (fun entry => snd entry <> JS.JNull) dependencies ->
  fst (PM.getGlobalPackages npm t) =
  Return (flat_map (npm_entry_records npm) dependencies).
Proof.
  intros Hexec Hparse Hdeps Hentries.
  unfold PM.getGlobalPackages, try_catch, bind at 1, execAsync. rewrite Hexec.
  cbn [PackageManager_eqb PM.list_command]. unfold PM.npm_packages.
  rewrite Hparse, Hdeps. cbn [or_TypeError bind ret JS.truthy JS.Object_entries].
  unfold bind at 1. cbn [ret].
  now rewrite (npm_entries_loop npm dependencies [] _ Hentries).
Qed.

(** When the output of [npm list] cannot be read (it is no JSON, or is
    [null], or an entry of [dependencies] is [null]), the listing is
    empty. *)
Theorem npm_listing_unreadable (t : Trace) (stdout : string) :
  exec_answer t (PM.list_command npm) = ExecOk stdout ->
  JSON_parse stdout = None \/ JSON_parse stdout = Some JS.JNull \/
  (exists data dependencies name,
     JSON_parse stdout = Some data /\
     JS.get data "dependencies" = Some (Some (JS.JObj dependencies)) /\
     In (name, JS.JNull) dependencies) ->
  fst (PM.getGlobalPackages npm t) = Return [].
Proof.
  intros Hexec H.
  destruct (getGlobalPackages_pm npm t) as (o & new & E & _ & packages & -> & _).
  rewrite E. cbn [fst].
  revert E. unfold PM.getGlobalPackages, try_catch, bind at 1, execAsync. rewrite Hexec.
  cbn [PackageManager_eqb PM.list_command]. unfold PM.npm_packages.
  destruct H as [H | [H | (data & dependencies & name & Hparse & Hdeps & Hin)]].
  - rewrite H. unfold throw, ret. congruence.
  - rewrite H. cbn. unfold throw, ret. congruence.
  - rewrite Hparse, Hdeps. cbn [or_TypeError bind ret JS.truthy JS.Object_entries].
    unfold bind at 1. cbn [ret].
    assert (Hloop : forall entries packages t0,
              In (name, JS.JNull) entries ->
              fst (for_of entries
                (fun packages entry =>
                   let '(name, info) := entry in
                   version <- or_TypeError (JS.get info "version") ;;
                   ret match version with
                       | Some v =>
                           if JS.truthy v then
                             (packages ++ [{| name := name; version := v; pm := npm |}])%list
                           else packages
                       | None => packages
                       end)
                packages t0) = Throw TypeError).
    { induction entries as [| [n info] entries IH]; intros acc t0 Hin0; [contradiction |].
      simpl. unfold bind at 1. destruct Hin0 as [Heq | Hin0].
      - injection Heq as -> ->. reflexivity.
      - destruct info; cbn [JS.get or_TypeError bind ret throw]; try reflexivity;
          apply IH; exact Hin0. }
    specialize (Hloop dependencies [] (t ++ [EvExec "npm list -g --depth=0 --json" (ExecOk stdout)])%list Hin).
    destruct (for_of dependencies _ [] _) as [o' t'] eqn:Efor. cbn [fst] in Hloop.
    subst o'. unfold ret. congruence.
Qed.

End NpmListing.


(** ** The order of the groups *)

Section GroupOrder.
Import Model Runtime Events Orchestrator Grouping.

Lemma PackageManager_eqb_refl (k : PackageManager) : PackageManager_eqb k k = true.
Proof. now destruct k. Qed.

Lemma PackageManager_eqb_sym (a b : PackageManager) : PackageManager_eqb a b = PackageManager_eqb b a.
Proof. now destruct a, b. Qed.

Lemma first_occurrences_In (l : list PackageManager) (k : PackageManager) :
  In k (first_occurrences l) <-> In k l.
Proof.
  induction l as [| x l IH]; simpl; [tauto |].
  rewrite filter_In, IH. destruct (PackageManager_eqb k x) eqn:E.
  - apply PackageManager_eqb_eq in E. subst. simpl. intuition congruence.
  - simpl. intuition.
Qed.

Lemma filter_filter_comm {A : Type} (f g : A -> bool) (l : list A) :
  filter f (filter g l) = filter g (filter f l).
Proof.
  induction l as [| x l IH]; simpl; [reflexivity |].
  destruct (f x) eqn:Ef, (g x) eqn:Eg; simpl; rewrite ?Ef, ?Eg, IH; reflexivity.
Qed.

Lemma first_occurrences_snoc (l : list PackageManager) (k : PackageManager) :
  first_occurrences (l ++ [k]) =
  if mem k l then first_occurrences l else (first_occurrences l ++ [k])%list.
Proof.
  induction l as [| x l IH]; simpl; [reflexivity |].
  rewrite IH. unfold mem in *. cbn [existsb].
  destruct (PackageManager_eqb k x) eqn:E; simpl.
  - destruct (existsb (PackageManager_eqb k) l); [reflexivity |].
    rewrite filter_app. simpl. rewrite E. simpl. now rewrite app_nil_r.
  - destruct (existsb (PackageManager_eqb k) l); [reflexivity |].
    rewrite filter_app. simpl. now rewrite E.
Qed.

Lemma group_by_pm_snoc (packages : list PackageWithLatest) (p : PackageWithLatest) :
  group_by_pm (packages ++ [p]) = group_step (group_by_pm packages) p.
Proof. unfold group_by_pm. now rewrite fold_left_app. Qed.

Lemma packages_of_absent (k : PackageManager) (packages : list PackageWithLatest) :
  ~ In k (map (fun p => pm (pkg p)) packages) -> packages_of k packages = [].
Proof.
  intros H. unfold packages_of. induction packages as [| p packages IH]; [reflexivity |].
  simpl in *. destruct (PackageManager_eqb (pm (pkg p)) k) eqn:E.
  - apply PackageManager_eqb_eq in E. tauto.
  - apply IH. tauto.
Qed.

(** The groups are those of the managers of the packages, in the order
    these first occur; the group of a manager holds its packages, in
    their order. *)
Theorem group_by_pm_groups (packages : list PackageWithLatest) :
  group_by_pm packages =
  map (fun k => (k, packages_of k packages))
    (first_occurrences (map (fun p => pm (pkg p)) packages)).
Proof.
  induction packages as [| p packages IH] using rev_ind; [reflexivity |].
  rewrite group_by_pm_snoc, IH, map_app. cbn [map]. rewrite first_occurrences_snoc.
  set (k := pm (pkg p)). set (keys := map (fun p => pm (pkg p)) packages).
  assert (Hof : forall k', packages_of k' (packages ++ [p]) =
                  (packages_of k' packages ++
                   if PackageManager_eqb k k' then [p] else [])%list).
  { intros k'. unfold packages_of. rewrite filter_app. simpl. fold k.
    now destruct (PackageManager_eqb k k'). }
  unfold group_step. fold k.
  assert (Hhas : Map_has (map (fun k0 => (k0, packages_of k0 packages))
                            (first_occurrences keys)) k = mem k keys).
  { apply eq_true_iff_eq. rewrite Map_has_In, map_map. cbn [fst]. rewrite map_id.
    rewrite first_occurrences_In. symmetry. apply mem_In. }
  rewrite Hhas. destruct (mem k keys) eqn:Hmem; cbn [negb].
  - unfold Map_push. rewrite map_map. apply map_ext. intros k'. cbn [fst snd].
    rewrite Hof, (PackageManager_eqb_sym k' k). destruct (PackageManager_eqb k k');
      [reflexivity | now rewrite app_nil_r].
  - assert (Hnot : ~ In k keys) by (rewrite <- mem_In; congruence).
    unfold Map_set. rewrite Hhas. unfold Map_push. rewrite !map_app, !map_map.
    cbn [map fst snd]. rewrite PackageManager_eqb_refl. f_equal.
    + apply map_ext_in. intros k' Hk'. cbn [fst snd].
      apply (proj1 (first_occurrences_In _ _)) in Hk'.
      rewrite Hof, (PackageManager_eqb_sym k' k).
      destruct (PackageManager_eqb k k') eqn:E; [| now rewrite app_nil_r].
      apply PackageManager_eqb_eq in E. rewrite <- E in Hk'. now apply Hnot in Hk'.
    + rewrite Hof, PackageManager_eqb_refl, (packages_of_absent k packages Hnot). reflexivity.
Qed.

End GroupOrder.


(** ** The summary of the upgrades *)

Section Summaries.
Import Model Runtime Events Orchestrator.
Context {W : World}.

Lemma upgraded_count_bound
    (groups : list (PackageManager * list PackageWithLatest)) (answers : list ExecResult) :
  List.length answers = List.length groups ->
  Forall well_grouped groups ->
  upgraded_count (combine groups answers) <= List.length (concat (map snd groups)) /\
  (upgraded_count (combine groups answers) = List.length (concat (map snd groups)) <->
   forallb succeeded answers = true).
Proof.
  intros Hlen Hwell. revert answers Hlen.
  induction Hwell as [| g groups [Hg _] _ IH]; intros [| r answers] Hlen;
    simpl in *; try discriminate; [now split |].
  injection Hlen as Hlen. destruct (IH answers Hlen) as [Hle Hiff].
  rewrite length_app. assert (0 < List.length (snd g)) by (destruct (snd g); simpl; [congruence | lia]).
  destruct r; simpl.
  - split; [lia |]. rewrite <- Hiff. lia.
  - split; [lia |]. split; [lia | discriminate].
Qed.

(** The result of the Upgrading state of [execute] is consistent: the
    number of upgraded packages is at most the total, [success] is true
    exactly when they are equal, which is when [failed] is empty, and
    the last message of the spinner says so. *)
Theorem execute_summary_is_consistent (packagesToUpgrade : list PackageWithLatest)
    (t : Trace) :
  exists new success upgraded failed message,
    Index.upgrade packagesToUpgrade t =
      (Return
         (Index.Summary success upgraded (List.length packagesToUpgrade) failed message),
       (t ++ new)%list) /\
    upgraded <= List.length packagesToUpgrade /\
    (success = true <-> upgraded = List.length packagesToUpgrade) /\
    (success = true <-> failed = []) /\
    last new (EvOutput console_clear) =
      EvOutput (if success then s_succeed "All packages upgraded"
                else s_fail "Upgrade completed with errors").
Proof.
  pose proof (group_by_pm_invariant packagesToUpgrade) as [_ Hwell].
  pose proof (Permutation_length (group_by_pm_partition packagesToUpgrade)) as Htotal.
  unfold Index.upgrade, bind at 1, output.
  destruct (index_upgrade_loop (List.length packagesToUpgrade)
              (group_by_pm packagesToUpgrade) 0 [] Hwell
              (t ++ [EvOutput (spinner "Upgrading packages")])%list)
    as (o & middle & E & answers & Hlen & -> & _).
  unfold bind at 1. rewrite E. cbn [app].
  destruct (upgraded_count_bound _ _ Hlen Hwell) as [Hle Hiff].
  rewrite Htotal in Hle, Hiff.
  rewrite <- (failures_iff_failed _ _ Hlen) in Hiff.
  set (upgraded := upgraded_count (combine (group_by_pm packagesToUpgrade) answers)) in *.
  set (failed := flat_map failure_line (combine (group_by_pm packagesToUpgrade) answers)) in *.
  assert (Hsame : (upgraded =? List.length packagesToUpgrade)%nat =
                  (List.length failed =? 0)%nat).
  { apply eq_true_iff_eq. rewrite Nat.eqb_eq. cbn [plus] in Hiff. exact Hiff. }
  exists ((EvOutput (spinner "Upgrading packages") :: middle) ++
          [EvOutput (if (List.length failed =? 0)%nat
                     then s_succeed "All packages upgraded"
                     else s_fail "Upgrade completed with errors")])%list.
  exists (List.length failed =? 0)%nat, upgraded, failed,
    (Index.summary_message upgraded (List.length packagesToUpgrade) failed).
  split; [| split; [exact Hle | split; [| split]]].
  - unfold bind, output, ret. cbn [plus]. rewrite Hsame.
    destruct (List.length failed =? 0)%nat; cbn [app]; rewrite <- !app_assoc;
      reflexivity.
  - cbn [plus] in Hiff. tauto.
  - rewrite Nat.eqb_eq. now destruct failed.
  - now rewrite last_last.
Qed.

End Summaries.


(** ** The listings of a run and the latest versions *)

Section Enumeration.
Import Model Runtime Events Orchestrator Shapes.
Context {W : World}.

(** [enumerate] runs the listing command of each manager it is given,
    once, in their order, and nothing else; what it returns is made of
    one block of packages for each manager, in the same order. *)
Theorem enumerate_lists_each_manager (packageManagers : list PackageManager)
    (t : Trace) :
  exists answers blocks,
    List.length answers = List.length packageManagers /\
    Orchestrator.enumerate packageManagers t =
      (Return (concat blocks),
       (t ++ map listing_of (combine packageManagers answers))%list) /\
    Forall2 (fun pm block => Forall (fun p => Model.pm p = pm) block)
      packageManagers blocks.
Proof.
  unfold Orchestrator.enumerate.
  assert (H : forall pms allPackages t,
            exists answers blocks,
              List.length answers = List.length pms /\
              for_of pms
                (fun allPackages pm =>
                   packages <- PM.getGlobalPackages pm ;;
                   ret (allPackages ++ packages)%list)
                allPackages t =
              (Return (allPackages ++ concat blocks)%list,
               (t ++ map listing_of (combine pms answers))%list) /\
              Forall2 (fun pm block => Forall (fun p => Model.pm p = pm) block)
                pms blocks).
  { clear. induction pms as [| pm pms IH]; intros allPackages t.
    - exists [], []. simpl. unfold ret. rewrite !app_nil_r. auto.
    - destruct (getGlobalPackages_pm pm t) as (o & new & E & [r ->] & packages & -> & Hp).
      destruct (IH (allPackages ++ packages)%list (t ++ [EvExec (PM.list_command pm) r])%list)
        as (answers & blocks & Hlen & Efor & Hblocks).
      exists (r :: answers), (packages :: blocks).
      split; [simpl; lia |]. split; [| now constructor].
      simpl. unfold bind at 1. unfold bind at 1. rewrite E. cbn [ret].
      rewrite Efor, <- !app_assoc. reflexivity. }
  destruct (H packageManagers [] t) as (answers & blocks & Hlen & E & Hb).
  now exists answers, blocks.
Qed.

End Enumeration.

Section LatestVersion.
Import Model Runtime Events.
Context {W : World}.

(** [getLatestVersion] sends one request, to the address of the latest
    version of the package, and returns a version exactly when the
    response is a success whose body has a truthy [version], which is
    what it returns. *)
Theorem getLatestVersion_present (packageName : string) (t : Trace) :
  snd (Registry.getLatestVersion packageName t) =
    (t ++ [EvFetch ("https://registry.npmjs.org/" ++ packageName ++ "/latest")
             (fetch_answer t ("https://registry.npmjs.org/" ++ packageName ++ "/latest"))])%list /\
  (forall v,
     fst (Registry.getLatestVersion packageName t) = Return (Some v) <->
     exists data,
       fetch_answer t ("https://registry.npmjs.org/" ++ packageName ++ "/latest") =
         FetchResponse true (Some data) /\
       JS.get data "version" = Some (Some v) /\ JS.truthy v = true).
Proof.
  rewrite getLatestVersion_eval. unfold latest_url. cbn [fst snd].
  split; [reflexivity |]. intros v.
  destruct (fetch_answer t _) as [| [] [data |]].
  1, 3-5: (split; [discriminate | intros (data' & E & _); discriminate]).
  unfold version_of. split.
  - intros H. exists data. split; [reflexivity |].
    destruct (JS.get data "version") as [[v' |] |]; try discriminate.
    destruct (JS.truthy v') eqn:Ev; [| discriminate]. injection H as ->. auto.
  - intros (data' & E & Hv & Ht). injection E as <-. now rewrite Hv, Ht.
Qed.

End LatestVersion.


(** ** The steps of a run *)

Section Steps.
Import Model Runtime Events Orchestrator Shapes.
Context {W : World}.

Lemma obeys_and {A : Type} (m : M A) (Q1 Q2 : Outcome A -> list Event -> Prop) :
  obeys m Q1 -> obeys m Q2 -> obeys m (fun o new => Q1 o new /\ Q2 o new).
Proof.
  intros H1 H2 t. destruct (H1 t) as (o & new & E & HQ1).
  destruct (H2 t) as (o' & new' & E' & HQ2). rewrite E in E'.
  injection E' as <- E'. apply app_inv_head in E'. subst new'. now exists o, new.
Qed.

(** Steps that are calm, followed by steps that obey [Q], obey [Q] when
    [Q] is not sensitive to the calm interactions before. *)
Lemma after_calm {A B : Type} (m : M A) (k : A -> M B) (I : A -> Prop)
    (T : Exn -> Prop) (X : Z -> Prop) (Q : Outcome B -> list Event -> Prop) :
  (forall calm o new, forallb is_calm calm = true -> Q o new -> Q o (calm ++ new)%list) ->
  (forall calm e, forallb is_calm calm = true -> T e -> Q (Throw e) calm) ->
  (forall calm code, forallb is_calm calm = true -> X code -> Q (Exit code) calm) ->
  obeys m (fun o new => forallb is_calm new = true /\ ends I T X o) ->
  (forall a, I a -> obeys (k a) Q) ->
  obeys (bind m k) Q.
Proof.
  intros Hpre HT HX Hm Hk. eapply obeys_bind; [exact Hm | | |].
  - intros a new1 [H1 Ha]. eapply obeys_weaken; [apply Hk, Ha |].
    intros o new2 H2. now apply Hpre.
  - intros e new1 [H1 He]. now apply HT.
  - intros code new1 [H1 Hc]. now apply HX.
Qed.

Lemma output_returns (o : Output) :
  obeys (output o)
    (fun o' new =>
       forallb is_calm new = true /\
       ends (fun _ => True) (fun _ => False) (fun _ => False) o').
Proof. apply obeys_output. now split. Qed.

Lemma detection_returns :
  obeys PM.detectPackageManagers
    (fun o new =>
       forallb is_calm new = true /\
       ends (fun _ => True) (fun _ => False) (fun _ => False) o).
Proof.
  apply obeys_and.
  - apply calm_detectPackageManagers.
  - intros t. rewrite detectPackageManagers_eval. eexists _, _. now split.
Qed.

Lemma enumerate_returns (packageManagers : list PackageManager) :
  obeys (enumerate packageManagers)
    (fun o new =>
       forallb is_calm new = true /\
       ends (fun _ => True) (fun _ => False) (fun _ => False) o).
Proof.
  eapply obeys_weaken; [apply (enumerate_spec is_calm) |].
  - intros pm r _. now destruct pm.
  - intros o new [H1 H2]. split; [exact H1 |]. now destruct o.
Qed.

(** The packages [check] marks as having an update have a newer latest
    version. *)
Lemma check_newer (allPackages : list GlobalPackage) :
  obeys (check allPackages)
    (fun o new =>
       forallb is_calm new = true /\
       ends (Forall (fun p => hasUpdate p = true -> newer p = true))
         (fun _ => True) (fun _ => False) o).
Proof.
  unfold check. apply obeys_for_of; [constructor |].
  intros packagesWithLatest p Hall Hp.
  eapply obeys_bind with
    (Q1 := fun o new => forallb is_calm new = true /\
                        ends (fun _ => True) (fun _ => False) (fun _ => False) o).
  - intros t. rewrite getLatestVersion_eval. eexists _, _. split; [reflexivity |].
    now split.
  - intros latestVersion new1 [H1 _].
    assert (Hret : forall packages,
               Forall (fun q => hasUpdate q = true -> newer q = true) packages ->
               obeys (ret packages)
                 (fun o new2 =>
                    forallb is_calm (new1 ++ new2) = true /\
                    ends (Forall (fun q => hasUpdate q = true -> newer q = true))
                      (fun _ => True) (fun _ => False) o)).
    { intros packages Hpackages. apply obeys_ret. now rewrite app_nil_r. }
    destruct latestVersion as [latest |]; [| now apply Hret].
    destruct (JS.truthy latest); [| now apply Hret].
    unfold Registry.call_compareVersions.
    assert (Hpush : forall hasUpdate0,
               (hasUpdate0 = true ->
                newer {| pkg := p; latestVersion := latest; hasUpdate := hasUpdate0 |} = true) ->
               Forall (fun q => hasUpdate q = true -> newer q = true)
                 (packagesWithLatest ++
                  [{| pkg := p; latestVersion := latest; hasUpdate := hasUpdate0 |}])).
    { intros hasUpdate0 H. apply Forall_app. split; [exact Hall |]. now constructor. }
    destruct (version p) eqn:Ev, latest;
      try (apply obeys_bind_ret; apply Hret, Hpush; discriminate);
      try (destruct (negb _ || negb _)%bool;
           [apply obeys_bind_ret; apply Hret, Hpush; discriminate
           | apply obeys_bind_throw; now rewrite app_nil_r]).
    apply obeys_bind_ret. apply Hret, Hpush. unfold newer. cbn [hasUpdate pkg latestVersion].
    rewrite Ev. now intros ->.
  - intros e new1 [_ []].
  - intros code new1 [_ []].
Qed.

Lemma newer_filter (packagesWithLatest : list PackageWithLatest) :
  Forall (fun p => hasUpdate p = true -> newer p = true) packagesWithLatest ->
  forallb newer (filter hasUpdate packagesWithLatest) = true.
Proof.
  intros H. apply forallb_forall. intros p Hp. apply filter_In in Hp.
  rewrite Forall_forall in H. destruct Hp as [Hin Hu]. now apply H.
Qed.

Lemma run_shape_calm (calm : list Event) (o : Outcome unit) (new : list Event) :
  forallb is_calm calm = true -> run_shape o new -> run_shape o (calm ++ new).
Proof.
  intros Hc H.
  assert (Hcalm : forall calm0, forallb is_calm calm0 = true ->
            forallb is_calm (calm ++ calm0) = true).
  { intros calm0 H0. now rewrite forallb_app, Hc. }
  destruct H; try rewrite (app_assoc calm);
    [ apply run_no_manager | apply run_no_package | apply run_check_threw
    | apply run_up_to_date | apply run_selection_cancelled
    | apply run_nothing_selected | apply run_not_confirmed | eapply run_upgraded ];
    eauto.

Qed.

End Steps.


(** ** The shapes of the runs of [run] *)

Section RunShapes.
Import Model Runtime Events Orchestrator Shapes.
Context {W : World}.

Lemma obeys_exit_after_outputs {A B : Type} (a b : Output) (code : Z) (k : A -> M B)
    (Q : Outcome B -> list Event -> Prop) :
  Q (Exit code) [EvOutput a; EvOutput b] ->
  obeys (bind (output a ;;; output b ;;; process_exit code) k) Q.
Proof.
  intros H t. exists (Exit code), [EvOutput a; EvOutput b].
  unfold bind, output, process_exit. now rewrite <- app_assoc.
Qed.

Lemma obeys_exit_after_output {A B : Type} (a : Output) (code : Z) (k : A -> M B)
    (Q : Outcome B -> list Event -> Prop) :
  Q (Exit code) [EvOutput a] ->
  obeys (bind (output a ;;; process_exit code) k) Q.
Proof. intros H t. now exists (Exit code), [EvOutput a]. Qed.

Lemma cli_upgrade_shape (values : list PackageWithLatest) :
  obeys (Cli.upgrade values)
    (fun o new =>
       exists answers middle,
         o = Return tt /\ upgrades_of values answers middle /\
         new =
           (EvOutput (s_start "Upgrading packages") :: middle ++
            [EvOutput (s_stop "All packages upgraded");
             EvOutput (p_outro (pc green "Successfully upgraded all selected packages!"))])%list).
Proof.
  eapply obeys_weaken.
  - apply obeys_and; [apply cli_upgrade_spec |].
    apply (emits_cli_upgrade (fun e => is_output e || is_exec e)); [reflexivity |].
    reflexivity.
  - intros o new [(answers & middle & Hlen & -> & -> & Hexec & _) Hall].
    exists answers, middle. split; [reflexivity |]. split; [| reflexivity].
    split; [exact Hlen |]. split; [exact Hexec |].
    cbn [forallb] in Hall. rewrite forallb_app in Hall.
    apply andb_prop in Hall. destruct Hall as [_ Hall].
    apply andb_prop in Hall. tauto.
Qed.

Ltac calm_then step :=
  eapply (after_calm _ _ (fun _ => True) (fun _ => False) (fun _ => False));
  [ apply run_shape_calm
  | intros ? ? ? []
  | intros ? ? ? []
  | step
  | ].

(** Every run of [run] has one of the shapes of [run_shape]. *)
Lemma run_shape_spec : obeys Cli.run run_shape.
Proof.
  unfold Cli.run.
  do 3 (calm_then ltac:(apply output_returns); intros _ _).
  calm_then ltac:(apply detection_returns). intros packageManagers _.
  destruct (_ =? 0)%nat.
  { apply obeys_exit_after_outputs. apply (run_no_manager []). reflexivity. }
  apply obeys_bind_ret.
  do 2 (calm_then ltac:(apply output_returns); intros _ _).
  calm_then ltac:(apply enumerate_returns). intros allPackages _.
  destruct (_ =? 0)%nat.
  { apply obeys_exit_after_outputs. apply (run_no_package []). reflexivity. }
  apply obeys_bind_ret.
  do 2 (calm_then ltac:(apply output_returns); intros _ _).
  eapply (after_calm _ _ (Forall (fun p => hasUpdate p = true -> newer p = true))
            (fun _ => True) (fun _ => False));
    [ apply run_shape_calm
    | intros calm e Hcalm _; now apply run_check_threw
    | intros ? ? ? []
    | apply check_newer
    | ].
  intros packagesWithLatest Hnewer. cbv zeta.
  apply newer_filter in Hnewer.
  set (updatablePackages := filter hasUpdate packagesWithLatest) in *.
  destruct (List.length updatablePackages =? 0)%nat eqn:Hsome.
  { apply obeys_exit_after_outputs. apply (run_up_to_date []). reflexivity. }
  assert (Hne : updatablePackages <> []).
  { intros E. rewrite E in Hsome. discriminate. }
  apply obeys_bind_ret.
  calm_then ltac:(apply output_returns). intros _ _.
  eapply obeys_bind with
    (Q1 := fun o new => exists r, o = Return r /\
             new = [EvMultiselect "Select packages to upgrade:" updatablePackages r]).
  { apply obeys_multiselect. eauto. }
  2, 3: (intros ? ? (r & E & _); discriminate).
  intros selected new1 (r & E & ->). injection E as ->.
  destruct r as [| values].
  { apply obeys_exit_after_output. now apply (run_selection_cancelled []). }
  apply obeys_bind_ret.
  destruct values as [| v values].
  { cbn [List.length Nat.eqb]. apply obeys_exit_after_output.
    now apply (run_nothing_selected []). }
  cbn [List.length Nat.eqb]. apply obeys_bind_ret.
  eapply obeys_bind with
    (Q1 := fun o new => exists r, o = Return r /\
             new = [EvConfirm
                      ("Upgrade " ++ JS.show_nat (List.length (v :: values)) ++
                       " package" ++ plural (List.length (v :: values)) ++ "?") r]).
  { apply obeys_confirm. eauto. }
  2, 3: (intros ? ? (r & E & _); discriminate).
  intros answer new2 (r & E & ->). injection E as ->.
  assert (Hno : forall r0 : ConfirmResult, r0 <> Confirmed true ->
            obeys
              (bind (output (p_cancel "Operation cancelled") ;;; process_exit 0)
                 (fun _ : unit => Cli.upgrade (v :: values)))
              (fun o new3 =>
                 run_shape o
                   ([EvMultiselect "Select packages to upgrade:" updatablePackages
                       (Selected (v :: values))] ++
                    [EvConfirm
                       ("Upgrade " ++ JS.show_nat (List.length (v :: values)) ++
                        " package" ++ plural (List.length (v :: values)) ++ "?") r0] ++
                    new3))).
  { intros r0 Hr. apply obeys_exit_after_output.
    apply (run_not_confirmed []); auto. discriminate. }
  destruct r as [| []]; [now apply Hno | | now apply Hno].
  apply obeys_bind_ret.
  eapply obeys_weaken; [apply cli_upgrade_shape |].
  intros o new3 (answers & middle & -> & Hup & ->).
  apply (run_upgraded [] updatablePackages (v :: values) answers middle); auto.
  discriminate.
Qed.

End RunShapes.


(** ** The shapes of the runs of [execute] *)

Section UpgradeShapes.
Import Model Runtime Events Orchestrator Shapes.
Context {W : World}.

Lemma execute_shape_calm (all : bool) (calm : list Event)
    (o : Outcome Index.ToolResult) (new : list Event) :
  forallb is_calm calm = true -> execute_shape all o new ->
  execute_shape all o (calm ++ new).
Proof.
  intros Hc H.
  assert (Hcalm : forall calm0, forallb is_calm calm0 = true ->
            forallb is_calm (calm ++ calm0) = true).
  { intros calm0 H0. now rewrite forallb_app, Hc. }
  destruct H; try rewrite (app_assoc calm);
    [ apply execute_no_manager | apply execute_no_package | apply execute_check_threw
    | apply execute_up_to_date | eapply execute_none_selected
    | eapply execute_upgraded ];
    eauto.
Qed.

Lemma index_upgrade_shape (values : list PackageWithLatest) :
  obeys (Index.upgrade values)
    (fun o new =>
       exists answers middle,
         let attempts := combine (group_by_pm values) answers in
         upgrades_of values answers middle /\
         o = Return
               (Index.Summary (forallb succeeded answers) (upgraded_count attempts)
                  (List.length values) (flat_map failure_line attempts)
                  (Index.summary_message (upgraded_count attempts) (List.length values)
                     (flat_map failure_line attempts))) /\
         new =
           (EvOutput (spinner "Upgrading packages") :: middle ++
            [EvOutput (if forallb succeeded answers then s_succeed "All packages upgraded"
                       else s_fail "Upgrade completed with errors")])%list).
Proof.
  pose proof (group_by_pm_invariant values) as [_ Hwell].
  pose proof (Permutation_length (group_by_pm_partition values)) as Htotal.
  assert (H1 : obeys (Index.upgrade values)
                 (fun o new =>
                    exists answers middle,
                      (List.length answers = List.length (group_by_pm values) /\
                       filter is_exec middle =
                         map attempt (combine (group_by_pm values) answers)) /\
                      o = Return
                            (Index.Summary (forallb succeeded answers)
                               (upgraded_count (combine (group_by_pm values) answers))
                               (List.length values)
                               (flat_map failure_line (combine (group_by_pm values) answers))
                               (Index.summary_message
                                  (upgraded_count (combine (group_by_pm values) answers))
                                  (List.length values)
                                  (flat_map failure_line
                                     (combine (group_by_pm values) answers)))) /\
                      new =
                        (EvOutput (spinner "Upgrading packages") :: middle ++
                         [EvOutput (if forallb succeeded answers
                                    then s_succeed "All packages upgraded"
                                    else s_fail "Upgrade completed with errors")])%list)).
  { unfold Index.upgrade. apply obeys_bind_output.
    eapply obeys_bind; [apply (index_upgrade_loop (List.length values) _ 0 [] Hwell) | | |].
    + intros [n failed] middle (answers & Hlen & E & Hexec & _).
      injection E as -> ->. cbn [plus app].
      destruct (upgraded_count_bound _ _ Hlen Hwell) as [_ Hiff].
      rewrite Htotal in Hiff.
      assert (Hsame : (upgraded_count (combine (group_by_pm values) answers) =?
                       List.length values)%nat = forallb succeeded answers).
      { apply eq_true_iff_eq. now rewrite Nat.eqb_eq. }
      rewrite Hsame, (failures_iff_failed _ _ Hlen).
      eapply obeys_bind with
        (Q1 := fun o new => o = Return tt /\
                 new = [EvOutput (if forallb succeeded answers
                                  then s_succeed "All packages upgraded"
                                  else s_fail "Upgrade completed with errors")]).
      * destruct (forallb succeeded answers); apply obeys_output; auto.
      * intros [] new2 [_ ->]. apply obeys_ret. exists answers, middle.
        rewrite app_nil_r. auto.
      * intros e new2 [E _]. discriminate.
      * intros code new2 [E _]. discriminate.
    + intros e new1 (answers & _ & E & _). discriminate.
    + intros code new1 (answers & _ & E & _). discriminate. }
  eapply obeys_weaken.
  - apply obeys_and; [exact H1 |].
    apply (emits_index_upgrade (fun e => is_output e || is_exec e)); reflexivity.
  - intros o new [(answers & middle & [Hlen Hexec] & -> & ->) Hall].
    exists answers, middle. split; [| split; reflexivity].
    split; [exact Hlen |]. split; [exact Hexec |].
    cbn [forallb] in Hall. rewrite forallb_app in Hall.
    apply andb_prop in Hall. destruct Hall as [_ Hall].
    apply andb_prop in Hall. tauto.
Qed.

End UpgradeShapes.

Section ExecuteShapes.
Import Model Runtime Events Orchestrator Shapes.
Context {W : World}.

Lemma obeys_throw_after_output {A B : Type} (a : Output) (e : Exn) (k : A -> M B)
    (Q : Outcome B -> list Event -> Prop) :
  Q (Throw e) [EvOutput a] -> obeys (bind (output a ;;; throw e) k) Q.
Proof. intros H t. now exists (Throw e), [EvOutput a]. Qed.

Lemma obeys_ret_after_output {A : Type} (a : Output) (x : A)
    (Q : Outcome A -> list Event -> Prop) :
  Q (Return x) [EvOutput a] -> obeys (output a ;;; ret x) Q.
Proof. intros H t. now exists (Return x), [EvOutput a]. Qed.

(** [promptPackageSelection] returns the packages selected when the
    selection is not empty and is confirmed, and no package otherwise. *)
Lemma prompt_shape (options : list PackageWithLatest) :
  obeys (Index.promptPackageSelection options)
    (fun o prompts =>
       (o = Return [] /\ declined options prompts) \/
       exists values, o = Return values /\ accepted false options values prompts).
Proof.
  unfold Index.promptPackageSelection.
  eapply obeys_bind with
    (Q1 := fun o new => exists r, o = Return r /\
             new = [EvMultiselect "Select packages to upgrade:" options r]).
  { apply obeys_multiselect. eauto. }
  2, 3: (intros ? ? (r & E & _); discriminate).
  intros selected new1 (r & E & ->). injection E as ->.
  destruct r as [| [| v values]].
  - apply obeys_ret. left. unfold declined. auto.
  - apply obeys_ret. left. unfold declined. auto.
  - cbn [List.length Nat.eqb].
    eapply obeys_bind with
      (Q1 := fun o new => exists r, o = Return r /\
               new = [EvConfirm (confirm_message (v :: values)) r]).
    { apply obeys_confirm. eauto. }
    2, 3: (intros ? ? (r & E & _); discriminate).
    intros answer new2 (r & E & ->). injection E as ->.
    assert (Hno : forall r0 : ConfirmResult, r0 <> Confirmed true ->
              (Return (@nil PackageWithLatest) = Return [] /\
               declined options
                 (([EvMultiselect "Select packages to upgrade:" options
                      (Selected (v :: values))] ++
                   [EvConfirm (confirm_message (v :: values)) r0]) ++ [])) \/
              exists values0,
                Return (@nil PackageWithLatest) = Return values0 /\
                accepted false options values0
                  (([EvMultiselect "Select packages to upgrade:" options
                       (Selected (v :: values))] ++
                    [EvConfirm (confirm_message (v :: values)) r0]) ++ [])).
    { intros r0 Hr. left. split; [reflexivity |]. right. right.
      exists (v :: values), r0. repeat split; [discriminate | exact Hr]. }
    destruct r as [| []]; apply obeys_ret;
      [apply Hno; discriminate | | apply Hno; discriminate].
    right. exists (v :: values). split; [reflexivity |]. right.
    repeat split. discriminate.
Qed.

Ltac execute_calm_then step :=
  eapply (after_calm _ _ (fun _ => True) (fun _ => False) (fun _ => False));
  [ apply execute_shape_calm
  | intros ? ? ? []
  | intros ? ? ? []
  | step
  | ].

(** Every run of [execute] has one of the shapes of [execute_shape]. *)
Lemma execute_shape_spec (all : bool) : obeys (Index.execute all) (execute_shape all).
Proof.
  unfold Index.execute.
  execute_calm_then ltac:(apply output_returns). intros _ _.
  execute_calm_then ltac:(apply detection_returns). intros packageManagers _.
  destruct (_ =? 0)%nat.
  { apply obeys_throw_after_output. apply (execute_no_manager all []). reflexivity. }
  apply obeys_bind_ret.
  do 2 (execute_calm_then ltac:(apply output_returns); intros _ _).
  execute_calm_then ltac:(apply enumerate_returns). intros allPackages _.
  destruct (_ =? 0)%nat.
  { apply obeys_ret_after_output. apply (execute_no_package all []). reflexivity. }
  do 2 (execute_calm_then ltac:(apply output_returns); intros _ _).
  eapply (after_calm _ _ (Forall (fun p => hasUpdate p = true -> newer p = true))
            (fun _ => True) (fun _ => False));
    [ apply execute_shape_calm
    | intros calm e Hcalm _; now apply execute_check_threw
    | intros ? ? ? []
    | apply check_newer
    | ].
  intros packagesWithLatest Hnewer. cbv zeta.
  apply newer_filter in Hnewer.
  set (updatablePackages := filter hasUpdate packagesWithLatest) in *.
  destruct (List.length updatablePackages =? 0)%nat eqn:Hsome.
  { apply obeys_ret_after_output. apply (execute_up_to_date all []). reflexivity. }
  assert (Hne : updatablePackages <> []).
  { intros E. rewrite E in Hsome. discriminate. }
  execute_calm_then ltac:(apply output_returns). intros _ _.
  assert (Hupgrade : forall values prompts,
            accepted all updatablePackages values prompts ->
            obeys (Index.upgrade values)
              (fun o new => execute_shape all o (prompts ++ new))).
  { intros values prompts Hacc.
    eapply obeys_weaken; [apply index_upgrade_shape |].
    intros o new (answers & middle & Hup & -> & ->).
    apply (execute_upgraded all [] updatablePackages values prompts answers middle);
      auto. }
  destruct all.
  - apply obeys_bind_ret. rewrite Hsome.
    apply (Hupgrade updatablePackages []). left. auto.
  - eapply obeys_bind; [apply prompt_shape | | |].
    + intros packagesToUpgrade prompts [[E Hdeclined] | (values & E & Hacc)].
      * injection E as ->. cbn [List.length Nat.eqb]. apply obeys_ret.
        rewrite app_nil_r.
        now apply (execute_none_selected false [] updatablePackages).
      * injection E as ->.
        assert (Hv : values <> []).
        { destruct Hacc as [(H & _) | (_ & H & _)]; [discriminate | exact H]. }
        destruct values as [| v values]; [congruence |]. cbn [List.length Nat.eqb].
        now apply Hupgrade.
    + intros e prompts [[E _] | (values & E & _)]; discriminate.
    + intros code prompts [[E _] | (values & E & _)]; discriminate.
Qed.

End ExecuteShapes.


(** ** The search for updates *)

Section SearchSteps.
Import Model Runtime Events Orchestrator Shapes Searches.
Context {W : World}.

Lemma for_of_pure {A S : Type} (xs : list A) (body : S -> A -> M S) :
  (forall s x t, body s x t = (fst (body s x []), t)) ->
  forall s t, for_of xs body s t = (fst (for_of xs body s []), t).
Proof.
  intros H. induction xs as [| x xs IH]; intros s t; [reflexivity |].
  cbn [for_of]. unfold bind. rewrite (H s x t), (H s x []).
  destruct (fst (body s x [])) as [s' | e | code]; cbn [fst]; [| reflexivity ..].
  rewrite (IH s' t), (IH s' []). reflexivity.
Qed.

(** Reading the document of npm adds nothing to the trace. *)
Lemma npm_packages_pure (pm : PackageManager) (stdout : string) (t : Trace) :
  PM.npm_packages pm stdout t = (fst (PM.npm_packages pm stdout []), t).
Proof.
  unfold PM.npm_packages. destruct (JSON_parse stdout) as [data |]; [| reflexivity].
  unfold bind. destruct (JS.get data "dependencies") as [[deps |] |]; try reflexivity.
  cbn [or_TypeError ret]. destruct (JS.truthy deps); [| reflexivity].
  destruct (JS.Object_entries deps) as [entries |]; [| reflexivity].
  cbn [or_TypeError ret]. apply for_of_pure.
  intros packages [name info] t'. unfold bind.
  now destruct (JS.get info "version") as [[v |] |].
Qed.

(** [getGlobalPackages] runs the listing command and returns the
    packages its answer gives. *)
Lemma getGlobalPackages_exact (pm : PackageManager) (t : Trace) :
  PM.getGlobalPackages pm t =
    (Return (listed (pm, exec_answer t (PM.list_command pm))),
     (t ++ [EvExec (PM.list_command pm) (exec_answer t (PM.list_command pm))])%list).
Proof.
  unfold PM.getGlobalPackages, try_catch, bind, execAsync, listed. cbn [fst snd].
  destruct (exec_answer t (PM.list_command pm)) as [stdout | detail]; [| reflexivity].
  destruct pm; cbn [PackageManager_eqb]; try reflexivity.
  rewrite npm_packages_pure.
  destruct (npm_packages_pm npm stdout []) as (o & new & E & _ & Hends).
  rewrite E. cbn [fst]. destruct o as [packages | e | code]; try reflexivity.
  destruct Hends.
Qed.

Lemma enumerate_exact (packageManagers : list PackageManager) :
  obeys (enumerate packageManagers)
    (fun o new =>
       exists listings,
         List.length listings = List.length packageManagers /\
         o = Return (packages_listed packageManagers listings) /\
         new = listings_of packageManagers listings).
Proof.
  unfold enumerate.
  assert (H : forall pms allPackages,
            obeys
              (for_of pms
                 (fun allPackages pm =>
                    packages <- PM.getGlobalPackages pm ;;
                    ret (allPackages ++ packages)%list)
                 allPackages)
              (fun o new =>
                 exists listings,
                   List.length listings = List.length pms /\
                   o = Return (allPackages ++ packages_listed pms listings)%list /\
                   new = listings_of pms listings)).
  { induction pms as [| pm pms IH]; intros allPackages t.
    - exists (Return allPackages), []. rewrite !app_nil_r. split; [reflexivity |].
      exists []. now rewrite app_nil_r.
    - cbn [for_of]. unfold bind at 1. unfold bind at 1.
      rewrite getGlobalPackages_exact. cbn [ret].
      set (r := exec_answer t (PM.list_command pm)).
      destruct (IH (allPackages ++ listed (pm, r))%list
                  (t ++ [EvExec (PM.list_command pm) r])%list)
        as (o & new & E & listings & Hlen & -> & ->).
      exists (Return (allPackages ++ listed (pm, r) ++ packages_listed pms listings)%list),
        (EvExec (PM.list_command pm) r :: listings_of pms listings).
      split; [rewrite E, <- !app_assoc; reflexivity |].
      exists (r :: listings). split; [simpl; lia |]. split; reflexivity. }
  intros t. destruct (H packageManagers [] t) as (o & new & E & listings & Hlen & -> & ->).
  exists (Return (packages_listed packageManagers listings)),
    (listings_of packageManagers listings).
  split; [exact E |]. now exists listings.
Qed.

Lemma call_compareVersions_has_update (current latest : JS.JValue) :
  Registry.call_compareVersions current latest =
  match has_update current latest with
  | Some b => ret b
  | None => throw TypeError
  end.
Proof.
  unfold Registry.call_compareVersions, has_update.
  destruct current, latest; try reflexivity;
    now destruct (JS.truthy _), (JS.truthy _).
Qed.

Lemma version_of_truthy (data v : JS.JValue) :
  version_of data = Some v -> JS.truthy v = true.
Proof.
  unfold version_of. destruct (JS.get data "version") as [[v' |] |]; try discriminate.
  destruct (JS.truthy v') eqn:E; [| discriminate]. now intros [= <-].
Qed.

Lemma latest_in_truthy (r : FetchResult) (v : JS.JValue) :
  latest_in r = Some v -> JS.truthy v = true.
Proof.
  destruct r as [| [] [data |]]; try discriminate. apply version_of_truthy.
Qed.

(** The loop of [check] asks the registry for each package in turn and
    stops at the first whose comparison throws. *)
Lemma check_exact (allPackages : list GlobalPackage) :
  obeys (check allPackages)
    (fun o new =>
       exists fetches,
         new = map lookup_of (combine allPackages fetches) /\
         ((exists packagesWithLatest,
             o = Return packagesWithLatest /\
             List.length fetches = List.length allPackages /\
             all_checked (combine allPackages fetches) = Some packagesWithLatest) \/
          (o = Throw TypeError /\
           List.length fetches <= List.length allPackages /\
           all_checked (combine allPackages (removelast fetches)) <> None /\
           all_checked (combine allPackages fetches) = None))).
Proof.
  unfold check.
  assert (H : forall packages packagesWithLatest t,
            exists o fetches,
              for_of packages
                (fun packagesWithLatest p =>
                   latestVersion <- Registry.getLatestVersion (name p) ;;
                   match latestVersion with
                   | Some latest =>
                       if JS.truthy latest then
                         hasUpdate <- Registry.call_compareVersions (version p) latest ;;
                         ret (packagesWithLatest ++
                              [{| pkg := p; latestVersion := latest;
                                  hasUpdate := hasUpdate |}])%list
                       else ret packagesWithLatest
                   | None => ret packagesWithLatest
                   end)
                packagesWithLatest t =
              (o, (t ++ map lookup_of (combine packages fetches))%list) /\
              ((exists entries,
                  o = Return (packagesWithLatest ++ entries)%list /\
                  List.length fetches = List.length packages /\
                  all_checked (combine packages fetches) = Some entries) \/
               (o = Throw TypeError /\
                List.length fetches <= List.length packages /\
                all_checked (combine packages (removelast fetches)) <> None /\
                all_checked (combine packages fetches) = None))).
  { induction packages as [| p packages IH]; intros packagesWithLatest t.
    - exists (Return packagesWithLatest), []. cbn [for_of ret combine map].
      rewrite app_nil_r. split; [reflexivity |]. left. exists [].
      now rewrite app_nil_r.
    - cbn [for_of]. unfold bind at 1. unfold bind at 1.
      rewrite getLatestVersion_eval. unfold latest_url.
      set (r := fetch_answer t ("https://registry.npmjs.org/" ++ name p ++ "/latest")).
      set (t' := (t ++ [EvFetch ("https://registry.npmjs.org/" ++ name p ++ "/latest") r])%list).
      fold (latest_in r).
      assert (Hnext : forall entry acc,
                checked (p, r) = Some entry ->
                exists o fetches,
                  for_of packages
                    (fun packagesWithLatest p =>
                       latestVersion <- Registry.getLatestVersion (name p) ;;
                       match latestVersion with
                       | Some latest =>
                           if JS.truthy latest then
                             hasUpdate <- Registry.call_compareVersions (version p) latest ;;
                             ret (packagesWithLatest ++
                                  [{| pkg := p; latestVersion := latest;
                                      hasUpdate := hasUpdate |}])%list
                           else ret packagesWithLatest
                       | None => ret packagesWithLatest
                       end)
                    acc t' =
                  (o, (t ++ map lookup_of (combine (p :: packages) fetches))%list) /\
                  ((exists entries,
                      o = Return (acc ++ entries)%list /\
                      List.length fetches = List.length (p :: packages) /\
                      all_checked (combine (p :: packages) fetches) = Some (entry ++ entries)%list) \/
                   (o = Throw TypeError /\
                    List.length fetches <= List.length (p :: packages) /\
                    all_checked (combine (p :: packages) (removelast fetches)) <> None /\
                    all_checked (combine (p :: packages) fetches) = None))).
      { intros entry acc Hentry.
        destruct (IH acc t') as (o & fetches & E & Hcases).
        exists o, (r :: fetches). split.
        { rewrite E. subst t'. cbn [combine map]. now rewrite <- app_assoc. }
        destruct Hcases as [(entries & -> & Hlen & Hall) | (-> & Hlen & Hbefore & Hall)].
        - left. exists entries. split; [reflexivity |]. split; [simpl; lia |].
          cbn [combine all_checked]. now rewrite Hentry, Hall.
        - right. split; [reflexivity |]. split; [simpl; lia |].
          destruct fetches as [| r' fetches].
          { destruct packages; discriminate Hall. }
          split.
          + change (removelast (r :: r' :: fetches)) with (r :: removelast (r' :: fetches)).
            cbn [combine all_checked]. rewrite Hentry.
            destruct (all_checked (combine packages (removelast (r' :: fetches))));
              [discriminate | congruence].
          + cbn [combine all_checked] in *. rewrite Hentry.
            destruct packages as [| p' packages]; [discriminate Hall |].
            cbn [combine all_checked] in *. now rewrite Hall. }
      destruct (latest_in r) as [latest |] eqn:Hlatest.
      + rewrite (latest_in_truthy _ _ Hlatest), call_compareVersions_has_update.
        destruct (has_update (version p) latest) as [b |] eqn:Hb.
        * unfold bind at 1. cbn [ret].
          destruct (Hnext [{| pkg := p; latestVersion := latest; hasUpdate := b |}]
                      (packagesWithLatest ++
                       [{| pkg := p; latestVersion := latest; hasUpdate := b |}])%list)
            as (o & fetches & E & Hcases).
          { unfold checked. cbn [fst snd]. now rewrite Hlatest, Hb. }
          exists o, fetches. split; [exact E |].
          destruct Hcases as [(entries & -> & Hlen & Hall) | Hthrew]; [| now right].
          left. exists ([{| pkg := p; latestVersion := latest; hasUpdate := b |}] ++ entries)%list.
          rewrite <- app_assoc. auto.
        * exists (Throw TypeError), [r]. unfold bind, throw. cbn [combine map removelast].
          rewrite !combine_nil. split; [reflexivity |]. right. split; [reflexivity |].
          split; [simpl; lia |]. split; [discriminate |].
          cbn [all_checked]. unfold checked. cbn [fst snd].
          now rewrite Hlatest, Hb.
      + cbn [ret].
        destruct (Hnext [] packagesWithLatest) as (o & fetches & E & Hcases).
        { unfold checked. cbn [fst snd]. now rewrite Hlatest. }
        exists o, fetches. split; [exact E |]. exact Hcases. }
  intros t. destruct (H allPackages [] t) as (o & fetches & E & Hcases).
  exists o, (map lookup_of (combine allPackages fetches)). split; [exact E |].
  exists fetches. split; [reflexivity |].
  destruct Hcases as [(entries & -> & Hlen & Hall) | Hthrew]; [| now right].
  left. now exists entries.
Qed.

Lemma detection_exact :
  obeys PM.detectPackageManagers
    (fun o new =>
       exists answers,
         List.length answers = 4 /\ o = Return (found answers) /\
         new = probes_of answers).
Proof.
  intros t. rewrite detectPackageManagers_eval. eexists _, _. split; [reflexivity |].
  exists (PM.detection_answers t). repeat split.
Qed.

End SearchSteps.

Section SearchShapes.
Import Model Runtime Events Orchestrator Shapes Searches.
Context {W : World}.

Lemma requests_app (a b : list Event) :
  requests (a ++ b) = (requests a ++ requests b)%list.
Proof. apply filter_app. Qed.

Lemma requests_map {A : Type} (f : A -> Event) (xs : list A) :
  (forall x, is_output (f x) = false) -> requests (map f xs) = map f xs.
Proof.
  intros H. induction xs as [| x xs IH]; [reflexivity |].
  cbn [map requests filter]. rewrite (H x). cbn [negb]. f_equal. exact IH.
Qed.

Lemma requests_probes (answers : list ExecResult) :
  requests (probes_of answers) = probes_of answers.
Proof. now apply requests_map. Qed.

Lemma requests_listings (managers : list PackageManager) (results : list ExecResult) :
  requests (listings_of managers results) = listings_of managers results.
Proof. now apply requests_map. Qed.

Lemma requests_lookups (pairs : list (GlobalPackage * FetchResult)) :
  requests (map lookup_of pairs) = map lookup_of pairs.
Proof. now apply requests_map. Qed.

Lemma continues_output {A : Type} (finish : Found -> Outcome A -> list Event -> Prop)
    (before : list Event) (x : Output) (o : Outcome A) (new : list Event) :
  continues finish before o new -> continues finish before o (EvOutput x :: new).
Proof.
  intros (calm & rest & f & -> & Hsearch & Hend).
  now exists (EvOutput x :: calm), rest, f.
Qed.

Lemma continues_requests {A : Type} (finish : Found -> Outcome A -> list Event -> Prop)
    (before ev : list Event) (o : Outcome A) (new : list Event) :
  requests ev = ev ->
  continues finish (before ++ ev) o new -> continues finish before o (ev ++ new).
Proof.
  intros Hev (calm & rest & f & -> & Hsearch & Hend).
  exists (ev ++ calm)%list, rest, f. split; [now rewrite app_assoc |].
  split; [| exact Hend]. now rewrite requests_app, Hev, app_assoc.
Qed.

Lemma continues_end {A : Type} (finish : Found -> Outcome A -> list Event -> Prop)
    (before : list Event) (f : Found) (o : Outcome A) (rest : list Event) :
  search before f -> finish f o rest -> continues finish before o rest.
Proof. intros Hsearch Hend. exists [], rest, f. now rewrite app_nil_r. Qed.

Lemma continues_bind_output {A : Type}
    (finish : Found -> Outcome A -> list Event -> Prop) (before : list Event)
    (x : Output) (k : unit -> M A) :
  obeys (k tt) (continues finish before) ->
  obeys (bind (output x) k) (continues finish before).
Proof.
  intros H. apply obeys_bind_output. eapply obeys_weaken; [exact H |].
  intros o new. apply continues_output.
Qed.

Lemma continues_bind_requests {A B : Type}
    (finish : Found -> Outcome B -> list Event -> Prop) (before : list Event)
    (m : M A) (k : A -> M B) (R : A -> list Event -> Prop) :
  obeys m (fun o new => exists a, o = Return a /\ R a new) ->
  (forall a ev, R a ev -> requests ev = ev) ->
  (forall a ev, R a ev -> obeys (k a) (continues finish (before ++ ev))) ->
  obeys (bind m k) (continues finish before).
Proof.
  intros Hm Hreq Hk. eapply obeys_bind; [exact Hm | | |].
  - intros a ev (a' & E & HR). injection E as <-.
    eapply obeys_weaken; [apply (Hk a ev HR) |].
    intros o new. apply continues_requests. now apply (Hreq a).
  - intros e ev (a & E & _). discriminate.
  - intros code ev (a & E & _). discriminate.
Qed.

Lemma found_none (answers : list ExecResult) :
  (List.length (found answers) =? 0)%nat = true -> found answers = [].
Proof. now destruct (found answers). Qed.

Lemma found_some {A : Type} (xs : list A) :
  (List.length xs =? 0)%nat = false -> xs <> [].
Proof. now destruct xs. Qed.

Ltac detect answers Hanswers :=
  eapply continues_bind_requests with
    (R := fun a ev => exists answers, List.length answers = 4 /\ a = found answers /\
                                      ev = probes_of answers);
  [ eapply obeys_weaken; [apply detection_exact |];
    intros ? ? (answers & ? & -> & ->); exists (found answers);
    split; [reflexivity |]; exists answers; auto
  | intros ? ? (answers & _ & _ & ->); apply requests_probes
  | intros ? ? (answers & Hanswers & -> & ->) ].

Ltac enumerated pms listings Hlistings :=
  eapply continues_bind_requests with
    (R := fun a ev => exists listings, List.length listings = List.length pms /\
                                       a = packages_listed pms listings /\
                                       ev = listings_of pms listings);
  [ eapply obeys_weaken; [apply enumerate_exact |];
    intros ? ? (listings & ? & -> & ->); eexists;
    split; [reflexivity |]; exists listings; auto
  | intros ? ? (listings & _ & _ & ->); apply requests_listings
  | intros ? ? (listings & Hlistings & -> & ->) ].

(** Every run of [run] is a search followed by one of the ends of
    [run_end]. *)
Lemma run_search_spec : obeys Cli.run (continues run_end []).
Proof.
  unfold Cli.run.
  do 3 apply continues_bind_output.
  detect answers Hanswers. cbn [app].
  destruct (_ =? 0)%nat eqn:Hmanagers.
  { apply obeys_exit_after_outputs. apply continues_end with (f := NoManager).
    - apply search_no_manager; [exact Hanswers | now apply found_none].
    - constructor. }
  apply found_some in Hmanagers.
  apply obeys_bind_ret.
  do 2 apply continues_bind_output.
  enumerated (found answers) listings Hlistings.
  destruct (_ =? 0)%nat eqn:Hpackages.
  { apply obeys_exit_after_outputs. apply continues_end with (f := NoPackage).
    - apply search_no_package; auto. now destruct (packages_listed _ _).
    - constructor. }
  apply found_some in Hpackages.
  apply obeys_bind_ret.
  do 2 apply continues_bind_output.
  eapply obeys_bind; [apply check_exact | | |].
  2: { intros e new1 (fetches & -> & [(? & E & _) | (E & Hlen & Hbefore & Hall)]);
         [discriminate | injection E as ->].
       rewrite <- (app_nil_r (map lookup_of _)).
       apply continues_requests; [apply requests_lookups |].
       apply continues_end with (f := CheckThrew); [| constructor].
       rewrite <- app_assoc. now apply search_check_threw. }
  2: { intros code new1 (fetches & _ & [(? & E & _) | (E & _)]); discriminate. }
  intros packagesWithLatest new1 (fetches & -> & [(? & E & Hlen & Hall) | (E & _)]);
    [injection E as <- | discriminate].
  eapply obeys_weaken;
    [| intros o new H; apply continues_requests; [apply requests_lookups | exact H]].
  rewrite <- app_assoc. cbv zeta.
  set (updatablePackages := filter hasUpdate packagesWithLatest) in *.
  destruct (List.length updatablePackages =? 0)%nat eqn:Hsome.
  { apply obeys_exit_after_outputs. apply continues_end with (f := UpToDate).
    - apply search_up_to_date with (packagesWithLatest := packagesWithLatest); auto.
      fold updatablePackages. now destruct updatablePackages.
    - constructor. }
  apply found_some in Hsome.
  apply obeys_bind_ret.
  apply continues_bind_output.
  assert (Hsearch : search
            (probes_of answers ++ listings_of (found answers) listings ++
             map lookup_of
               (combine (packages_listed (found answers) listings) fetches))
            (Updates updatablePackages)).
  { now apply search_updates. }
  eapply obeys_weaken with (Q := run_end (Updates updatablePackages));
    [| intros o new H; now apply continues_end with (f := Updates updatablePackages)].
  clear Hsearch.
  eapply obeys_bind with
    (Q1 := fun o new => exists r, o = Return r /\
             new = [EvMultiselect "Select packages to upgrade:" updatablePackages r]).
  { apply obeys_multiselect. eauto. }
  2, 3: (intros ? ? (r & E & _); discriminate).
  intros selected new1 (r & E & ->). injection E as ->.
  destruct r as [| values].
  { apply obeys_exit_after_output. constructor. }
  apply obeys_bind_ret.
  destruct values as [| v values].
  { cbn [List.length Nat.eqb]. apply obeys_exit_after_output. constructor. }
  cbn [List.length Nat.eqb]. apply obeys_bind_ret.
  eapply obeys_bind with
    (Q1 := fun o new => exists r, o = Return r /\
             new = [EvConfirm
                      ("Upgrade " ++ JS.show_nat (List.length (v :: values)) ++
                       " package" ++ plural (List.length (v :: values)) ++ "?") r]).
  { apply obeys_confirm. eauto. }
  2, 3: (intros ? ? (r & E & _); discriminate).
  intros answer new2 (r & E & ->). injection E as ->.
  assert (Hno : forall r0 : ConfirmResult, r0 <> Confirmed true ->
            obeys
              (bind (output (p_cancel "Operation cancelled") ;;; process_exit 0)
                 (fun _ : unit => Cli.upgrade (v :: values)))
              (fun o new3 =>
                 run_end (Updates updatablePackages) o
                   ([EvMultiselect "Select packages to upgrade:" updatablePackages
                       (Selected (v :: values))] ++
                    [EvConfirm
                       ("Upgrade " ++ JS.show_nat (List.length (v :: values)) ++
                        " package" ++ plural (List.length (v :: values)) ++ "?") r0] ++
                    new3))).
  { intros r0 Hr. apply obeys_exit_after_output.
    apply run_end_not_confirmed; [discriminate | exact Hr]. }
  destruct r as [| []]; [now apply Hno | | now apply Hno].
  apply obeys_bind_ret.
  eapply obeys_weaken; [apply cli_upgrade_shape |].
  intros o new3 (answers' & middle & -> & Hup & ->).
  apply (run_end_upgraded updatablePackages (v :: values) answers' middle);
    [discriminate | exact Hup].
Qed.

(** Every run of [execute] is a search followed by one of the ends of
    [execute_end]. *)
Lemma execute_search_spec (all : bool) :
  obeys (Index.execute all) (continues (execute_end all) []).
Proof.
  unfold Index.execute.
  apply continues_bind_output.
  detect answers Hanswers. cbn [app].
  destruct (_ =? 0)%nat eqn:Hmanagers.
  { apply obeys_throw_after_output. apply continues_end with (f := NoManager).
    - apply search_no_manager; [exact Hanswers | now apply found_none].
    - constructor. }
  apply found_some in Hmanagers.
  apply obeys_bind_ret.
  do 2 apply continues_bind_output.
  enumerated (found answers) listings Hlistings.
  destruct (_ =? 0)%nat eqn:Hpackages.
  { apply obeys_ret_after_output. apply continues_end with (f := NoPackage).
    - apply search_no_package; auto. now destruct (packages_listed _ _).
    - constructor. }
  apply found_some in Hpackages.
  do 2 apply continues_bind_output.
  eapply obeys_bind; [apply check_exact | | |].
  2: { intros e new1 (fetches & -> & [(? & E & _) | (E & Hlen & Hbefore & Hall)]);
         [discriminate | injection E as ->].
       rewrite <- (app_nil_r (map lookup_of _)).
       apply continues_requests; [apply requests_lookups |].
       apply continues_end with (f := CheckThrew); [| constructor].
       rewrite <- app_assoc. now apply search_check_threw. }
  2: { intros code new1 (fetches & _ & [(? & E & _) | (E & _)]); discriminate. }
  intros packagesWithLatest new1 (fetches & -> & [(? & E & Hlen & Hall) | (E & _)]);
    [injection E as <- | discriminate].
  eapply obeys_weaken;
    [| intros o new H; apply continues_requests; [apply requests_lookups | exact H]].
  rewrite <- app_assoc. cbv zeta.
  set (updatablePackages := filter hasUpdate packagesWithLatest) in *.
  destruct (List.length updatablePackages =? 0)%nat eqn:Hsome.
  { apply obeys_ret_after_output. apply continues_end with (f := UpToDate).
    - apply search_up_to_date with (packagesWithLatest := packagesWithLatest); auto.
      fold updatablePackages. now destruct updatablePackages.
    - constructor. }
  pose proof (found_some _ Hsome) as Hne.
  apply continues_bind_output.
  assert (Hsearch : search
            (probes_of answers ++ listings_of (found answers) listings ++
             map lookup_of
               (combine (packages_listed (found answers) listings) fetches))
            (Updates updatablePackages)).
  { now apply search_updates. }
  eapply obeys_weaken with (Q := execute_end all (Updates updatablePackages));
    [| intros o new H; now apply continues_end with (f := Updates updatablePackages)].
  clear Hsearch.
  assert (Hupgrade : forall values prompts,
            accepted all updatablePackages values prompts ->
            obeys (Index.upgrade values)
              (fun o new => execute_end all (Updates updatablePackages) o (prompts ++ new))).
  { intros values prompts Hacc.
    eapply obeys_weaken; [apply index_upgrade_shape |].
    intros o new (answers' & middle & Hup & -> & ->).
    now apply (execute_end_upgraded all updatablePackages values prompts answers' middle). }
  destruct all.
  - apply obeys_bind_ret. rewrite Hsome.
    apply (Hupgrade updatablePackages []). left. auto.
  - eapply obeys_bind; [apply prompt_shape | | |].
    + intros packagesToUpgrade prompts [[E Hdeclined] | (values & E & Hacc)].
      * injection E as ->. cbn [List.length Nat.eqb]. apply obeys_ret.
        rewrite app_nil_r. now apply execute_end_none_selected.
      * injection E as ->.
        assert (Hv : values <> []).
        { destruct Hacc as [(H & _) | (_ & H & _)]; [discriminate | exact H]. }
        destruct values as [| v values]; [congruence |]. cbn [List.length Nat.eqb].
        now apply Hupgrade.
    + intros e prompts [[E _] | (values & E & _)]; discriminate.
    + intros code prompts [[E _] | (values & E & _)]; discriminate.
Qed.

End SearchShapes.


(** ** What the shapes of the runs tell *)

Section Consequences.
Import Model Runtime Events Orchestrator Shapes Searches.
Context {W : World}.

Lemma calm_upgrade_commands (calm events : list Event) :
  forallb is_calm calm = true ->
  upgrade_commands (calm ++ events) = upgrade_commands events.
Proof.
  intros H. unfold upgrade_commands. rewrite filter_app.
  replace (filter is_upgrade calm) with (@nil Event); [reflexivity |].
  induction calm as [| e calm IH]; [reflexivity |].
  simpl in H. apply andb_prop in H. destruct H as [He H].
  unfold is_calm in He. apply andb_prop in He. destruct He as [He _].
  apply negb_true_iff in He. simpl. rewrite He. now apply IH.
Qed.

Lemma calm_confirmed_first (confirmed : bool) (calm events : list Event) :
  forallb is_calm calm = true ->
  confirmed_first confirmed (calm ++ events) = confirmed_first confirmed events.
Proof.
  intros H. induction calm as [| e calm IH]; [reflexivity |].
  simpl in H. apply andb_prop in H. destruct H as [He H].
  unfold is_calm in He. apply andb_prop in He. destruct He as [Hu Hp].
  apply negb_true_iff in Hu. simpl. rewrite Hu.
  replace (is_yes e) with false; [rewrite orb_false_r; now apply IH |].
  destruct e; try reflexivity; discriminate.
Qed.

Lemma confirmed_first_true (events : list Event) : confirmed_first true events = true.
Proof.
  induction events as [| e events IH]; [reflexivity |].
  simpl. now destruct (is_upgrade e).
Qed.

Lemma attempt_is_upgrade
    (a : (PackageManager * list PackageWithLatest) * ExecResult) :
  is_upgrade (attempt a) = true.
Proof. destruct a as [[pm packages] r]. destruct pm; reflexivity. Qed.

Lemma upgrade_commands_of (values : list PackageWithLatest) (answers : list ExecResult)
    (middle : list Event) :
  upgrades_of values answers middle ->
  upgrade_commands middle = map group_command (group_by_pm values).
Proof.
  intros (Hlen & Hexec & _). unfold upgrade_commands.
  assert (E : filter is_upgrade middle = filter is_upgrade (filter is_exec middle)).
  { clear. induction middle as [| e middle IH]; [reflexivity |].
    destruct e; cbn [filter is_exec is_upgrade]; try exact IH.
    destruct (is_upgrade_command command); [f_equal |]; exact IH. }
  rewrite E, Hexec.
  replace (filter is_upgrade (map attempt (combine (group_by_pm values) answers)))
    with (map attempt (combine (group_by_pm values) answers)).
  - now apply commands_of_attempts.
  - clear. induction (combine (group_by_pm values) answers) as [| a l IH];
      [reflexivity |].
    cbn [map filter]. rewrite attempt_is_upgrade. f_equal. exact IH.
Qed.

Lemma upgrade_commands_app (a b : list Event) :
  upgrade_commands (a ++ b) = (upgrade_commands a ++ upgrade_commands b)%list.
Proof. unfold upgrade_commands, commands_of. now rewrite filter_app, flat_map_app. Qed.

(** The requests of a search are neither prompts nor upgrades. *)
Lemma search_requests_calm (reqs : list Event) (f : Found) :
  search reqs f -> forallb is_calm reqs = true.
Proof.
  assert (Hprobes : forall answers, forallb is_calm (probes_of answers) = true).
  { intros answers. apply forallb_forall. intros e He. apply in_map_iff in He.
    destruct He as ([pm r] & <- & _). now destruct pm. }
  assert (Hlistings : forall managers results,
            forallb is_calm (listings_of managers results) = true).
  { intros managers results. apply forallb_forall. intros e He. apply in_map_iff in He.
    destruct He as ([pm r] & <- & _). now destruct pm. }
  assert (Hlookups : forall pairs, forallb is_calm (map lookup_of pairs) = true).
  { intros pairs. apply forallb_forall. intros e He. apply in_map_iff in He.
    now destruct He as (p & <- & _). }
  intros H. destruct H; rewrite ?forallb_app, ?Hprobes, ?Hlistings, ?Hlookups;
    reflexivity.
Qed.

Lemma search_calm (calm : list Event) (f : Found) :
  search (requests calm) f -> forallb is_calm calm = true.
Proof.
  intros H. apply search_requests_calm in H.
  apply forallb_forall. intros e He. rewrite forallb_forall in H.
  destruct (is_output e) eqn:Ho; [now destruct e |].
  apply H. apply filter_In. now rewrite Ho.
Qed.

Lemma calm_confirmed_selection (calm events : list Event) :
  forallb is_calm calm = true ->
  confirmed_selection (calm ++ events) = confirmed_selection events.
Proof.
  intros H. induction calm as [| e calm IH]; [reflexivity |].
  cbn [forallb] in H. apply andb_prop in H. destruct H as [He H].
  cbn [app confirmed_selection]. rewrite (IH H).
  destruct e; try reflexivity; discriminate.
Qed.

(** The upgrade commands of [run] come after the confirmation, and are
    those of the groups of the packages of the confirmed selection:
    none without one. *)
Theorem run_upgrades_the_confirmed_selection (t : Trace) :
  exists o new,
    Cli.run t = (o, (t ++ new)%list) /\
    confirmed_first false new = true /\
    upgrade_commands new = map group_command (group_by_pm (confirmed_selection new)).
Proof.
  destruct (run_search_spec t) as (o & new & E & calm & rest & f & -> & Hsearch & Hend).
  exists o, (calm ++ rest)%list. split; [exact E |].
  apply search_calm in Hsearch.
  rewrite (calm_confirmed_first _ _ _ Hsearch), (calm_upgrade_commands _ _ Hsearch),
    (calm_confirmed_selection _ _ Hsearch).
  destruct Hend as [ | | | | options | options | options values answer Hv Hno
                   | options values answers middle Hv Hup];
    try (split; reflexivity).
  - destruct answer as [| []]; [| congruence |]; split; reflexivity.
  - split.
    + cbn [app confirmed_first is_upgrade is_yes orb]. apply confirmed_first_true.
    + cbn [app confirmed_selection].
      change (?a :: ?b :: ?c :: middle ++ ?d)%list
        with ([a; b; c] ++ middle ++ d)%list.
      rewrite !upgrade_commands_app, (upgrade_commands_of _ _ _ Hup).
      cbn. now rewrite app_nil_r.
Qed.

(** Without [all], the upgrade commands of [execute] come after the
    confirmation, and are those of the groups of the packages of the
    confirmed selection: none without one. *)
Theorem execute_upgrades_the_confirmed_selection (t : Trace) :
  exists o new,
    Index.execute false t = (o, (t ++ new)%list) /\
    confirmed_first false new = true /\
    upgrade_commands new = map group_command (group_by_pm (confirmed_selection new)).
Proof.
  destruct (execute_search_spec false t)
    as (o & new & E & calm & rest & f & -> & Hsearch & Hend).
  exists o, (calm ++ rest)%list. split; [exact E |].
  apply search_calm in Hsearch.
  rewrite (calm_confirmed_first _ _ _ Hsearch), (calm_upgrade_commands _ _ Hsearch),
    (calm_confirmed_selection _ _ Hsearch).
  destruct Hend as [ | | | | options prompts _ Hd
                   | options values prompts answers middle Hacc Hup];
    try (split; reflexivity).
  - destruct Hd as [-> | [-> | (values & answer & Hv & Hno & ->)]];
      try (split; reflexivity).
    destruct answer as [| []]; [| congruence |]; split; reflexivity.
  - destruct Hacc as [(Hall & _) | (_ & Hv & ->)]; [discriminate |]. split.
    + cbn [app confirmed_first is_upgrade is_yes orb]. apply confirmed_first_true.
    + cbn [app confirmed_selection].
      change (?a :: ?b :: ?c :: middle ++ ?d)%list
        with ([a; b; c] ++ middle ++ d)%list.
      rewrite !upgrade_commands_app, (upgrade_commands_of _ _ _ Hup).
      cbn. destruct (forallb succeeded answers); cbn; now rewrite app_nil_r.
Qed.

Lemma calm_not_prompt (calm : list Event) :
  forallb is_calm calm = true -> forallb not_prompt calm = true.
Proof.
  intros H. apply forallb_forall. intros e He.
  rewrite forallb_forall in H. specialize (H e He).
  unfold is_calm in H. apply andb_prop in H. tauto.
Qed.

Lemma upgrades_not_prompt (values : list PackageWithLatest) (answers : list ExecResult)
    (middle : list Event) :
  upgrades_of values answers middle -> forallb not_prompt middle = true.
Proof.
  intros (_ & _ & H). apply forallb_forall. intros e He.
  rewrite forallb_forall in H. specialize (H e He). now destruct e.
Qed.

(** With [all], [execute] never prompts, never answers that no package
    was selected, and runs the upgrade commands of the groups of all
    the packages its search found to have an update: none when the
    search found none. *)
Theorem execute_all_upgrades_every_update (t : Trace) :
  exists o new,
    Index.execute true t = (o, (t ++ new)%list) /\
    forallb not_prompt new = true /\
    (forall message, o <> Return (Index.Outcome_of false message)) /\
    exists calm rest f,
      new = (calm ++ rest)%list /\ search (requests calm) f /\
      upgrade_commands new = map group_command (group_by_pm (updates f)).
Proof.
  destruct (execute_search_spec true t)
    as (o & new & E & calm & rest & f & -> & Hsearch & Hend).
  exists o, (calm ++ rest)%list. split; [exact E |].
  pose proof (search_calm _ _ Hsearch) as Hcalm.
  rewrite forallb_app, (calm_not_prompt _ Hcalm), (calm_upgrade_commands _ _ Hcalm).
  assert (Hrest : forallb not_prompt rest = true /\
                  (forall message, o <> Return (Index.Outcome_of false message)) /\
                  upgrade_commands rest = map group_command (group_by_pm (updates f))).
  { destruct Hend as [ | | | | options prompts Hall _
                     | options values prompts answers middle Hacc Hup];
      try (repeat split; discriminate); try discriminate.
    destruct Hacc as [(_ & -> & ->) | (Hall & _)]; [| discriminate].
    cbn [app updates]. split; [| split; [discriminate |]].
    - cbn [forallb not_prompt is_prompt negb andb]. rewrite forallb_app.
      rewrite (upgrades_not_prompt _ _ _ Hup). now destruct (forallb succeeded answers).
    - change (?a :: middle ++ ?d)%list with ([a] ++ middle ++ d)%list.
      rewrite !upgrade_commands_app, (upgrade_commands_of _ _ _ Hup).
      cbn. destruct (forallb succeeded answers); cbn; now rewrite app_nil_r. }
  destruct Hrest as (H1 & H2 & H3). split; [exact H1 |]. split; [exact H2 |].
  now exists calm, rest, f.
Qed.

(** The entry point never throws: it returns, or exits with the code 0
    or 1; when [run] throws, it reports the error and exits with 1. *)
Theorem main_never_throws (t : Trace) :
  exists o new,
    Cli.main t = (o, (t ++ new)%list) /\
    (o = Return tt \/ o = Exit 0 \/ o = Exit 1) /\
    (forall e,
       fst (Cli.run t) = Throw e ->
       o = Exit 1 /\
       Cli.main t =
         (Exit 1, (snd (Cli.run t) ++ [EvOutput (console_error "Fatal error:" e)])%list)).
Proof.
  destruct (run_shape_spec t) as (o & new & E & Hshape).
  unfold Cli.main, try_catch. rewrite E. cbn [fst snd].
  destruct Hshape;
    try (eexists _, _; split; [reflexivity |]; split; [tauto | discriminate]).
  unfold bind, output, process_exit.
  exists (Exit 1), (calm ++ [EvOutput (console_error "Fatal error:" e)])%list.
  rewrite <- app_assoc. split; [reflexivity |]. split; [tauto |].
  intros e' He'. injection He' as <-.
  split; [reflexivity | now rewrite app_assoc].
Qed.

Lemma calm_offers_updates (calm : list Event) :
  forallb is_calm calm = true -> forallb offers_updates calm = true.
Proof.
  intros H. apply forallb_forall. intros e He.
  rewrite forallb_forall in H. specialize (H e He).
  unfold is_calm in H. apply andb_prop in H. destruct H as [_ H]. now destruct e.
Qed.

Lemma upgrades_offer_updates (values : list PackageWithLatest)
    (answers : list ExecResult) (middle : list Event) :
  upgrades_of values answers middle -> forallb offers_updates middle = true.
Proof.
  intros (_ & _ & H). apply forallb_forall. intros e He.
  rewrite forallb_forall in H. specialize (H e He). now destruct e.
Qed.

Lemma offers_some (options : list PackageWithLatest) (r : SelectResult) :
  options <> [] -> forallb newer options = true ->
  offers_updates (EvMultiselect "Select packages to upgrade:" options r) = true.
Proof. intros Hne H. simpl. rewrite H. now destruct options. Qed.

(** The packages offered for upgrade all have an update: the selection
    prompt of [run] and of [execute] lists one package at least, and
    only packages whose latest version [compareVersions] finds newer. *)
Theorem only_updates_are_offered (t : Trace) :
  (exists o new,
     Cli.run t = (o, (t ++ new)%list) /\ forallb offers_updates new = true) /\
  (forall all,
   exists o new,
     Index.execute all t = (o, (t ++ new)%list) /\ forallb offers_updates new = true).
Proof.
  split.
  - destruct (run_shape_spec t) as (o & new & E & Hshape).
    exists o, new. split; [exact E |].
    destruct Hshape as
      [calm Hc | calm Hc | calm e Hc | calm Hc | calm options Hc Hne Hn
      | calm options Hc Hne Hn | calm options values answer Hc Hne Hn _ _
      | calm options values answers middle Hc Hne Hn _ Hup];
      rewrite ?forallb_app, ?calm_offers_updates by assumption;
      try reflexivity; try assumption.
    1-3: (cbn [forallb]; now rewrite offers_some).
    rewrite (upgrades_offer_updates _ _ _ Hup).
    cbn [forallb]. now rewrite offers_some.
  - intros all. destruct (execute_shape_spec all t) as (o & new & E & Hshape).
    exists o, new. split; [exact E |].
    destruct Hshape as
      [calm Hc | calm Hc | calm e Hc | calm Hc | calm options prompts Hc Hne Hn _ Hd
      | calm options values prompts answers middle Hc Hne Hn Hacc Hup];
      rewrite ?forallb_app, ?calm_offers_updates by assumption;
      try reflexivity.
    + destruct Hd as [-> | [-> | (values & answer & _ & _ & ->)]];
        cbn [forallb]; now rewrite offers_some.
    + rewrite (upgrades_offer_updates _ _ _ Hup).
      destruct Hacc as [(_ & _ & ->) | (_ & _ & ->)];
        cbn [forallb]; rewrite ?offers_some by assumption; reflexivity.
Qed.

(** Every run of [run] is a search followed by an end that what the
    search found allows: the requests of the search are the four
    probes, the listings of the managers found and the requests to the
    registry for the packages listed, in this order and with messages
    only between them. *)
Theorem run_has_a_shape (t : Trace) :
  exists o new,
    Cli.run t = (o, (t ++ new)%list) /\
    exists calm rest f,
      new = (calm ++ rest)%list /\ search (requests calm) f /\ run_end f o rest.
Proof. apply run_search_spec. Qed.

(** Every run of [execute] is a search followed by an end that what the
    search found allows. *)
Theorem execute_has_a_shape (all : bool) (t : Trace) :
  exists o new,
    Index.execute all t = (o, (t ++ new)%list) /\
    exists calm rest f,
      new = (calm ++ rest)%list /\ search (requests calm) f /\
      execute_end all f o rest.
Proof. apply execute_search_spec. Qed.

End Consequences.


(** ** Failures that look like nothing to do *)

Section MaskedFailures.
Import Model Runtime Events Orchestrator Shapes.
Context {W : World}.








End MaskedFailures.

(** ** Versions written from numbers *)

Section NumericVersions.
Import Decimals Ranking Text.

(** A natural number of 53 bits at most is rounded to itself. *)
Lemma normalize_exact (p : positive) :
  (Z.pos (digits2_pos p) <= 53)%Z ->
  binary_normalize JS.prec JS.emax (Z.pos p) 0 false = float_of (Npos p).
Proof.
  intros Hsize. unfold binary_normalize, binary_round, float_of, JS.prec, JS.emax.
  assert (Hfexp : fexp 53 1024 (Z.pos (digits2_pos p) + 0) =
                  (Z.pos (digits2_pos p) - 53)%Z).
  { unfold fexp, emin. lia. }
  rewrite Hfexp. unfold shl_align. rewrite Z.sub_0_r.
  assert (Haux : forall m e,
            (Z.pos (digits2_pos m) = 53)%Z -> (-52 <= e <= 0)%Z ->
            binary_round_aux 53 1024 false (Z.pos m) e loc_Exact =
            S754_finite false m e).
  { intros m e Hm He. unfold binary_round_aux.
    assert (Hshr : shr_fexp 53 1024 (Z.pos m) e loc_Exact =
                   ({| shr_m := Z.pos m; shr_r := false; shr_s := false |}, e)).
    { unfold shr_fexp, fexp, emin. cbn [Zdigits2]. rewrite Hm.
      replace (Z.max (53 + e - 53) (3 - 1024 - 53) - e)%Z with 0%Z by lia.
      reflexivity. }
    rewrite Hshr. cbn [shr_m loc_of_shr_record round_nearest_even].
    rewrite Hshr. cbn [shr_m].
    replace (e <=? 1024 - 53)%Z with true; [reflexivity |].
    symmetry. apply Z.leb_le. lia. }
  destruct (Z.pos (digits2_pos p) - 53)%Z as [| k | k] eqn:E.
  - apply Haux; lia.
  - lia.
  - apply Haux; [| lia].
    change (PosDef.Pos.iter xO p k) with (shift_pos k p).
    assert (Hd : forall k p, digits2_pos (shift_pos k p) = (digits2_pos p + k)%positive).
    { clear. intros k p. unfold shift_pos.
      induction k as [| k IH] using Pos.peano_ind.
      - simpl. now rewrite Pos.add_1_r.
      - rewrite Pos.iter_succ. simpl. rewrite IH. lia. }
    rewrite Hd. lia.
Qed.

Ltac by_character c :=
  destruct c as [[] [] [] [] [] [] [] []]; try discriminate; try reflexivity.

Lemma digits2_pos_size (p : positive) : digits2_pos p = Pos.size p.
Proof. induction p as [p IH | p IH |]; simpl; now rewrite ?IH. Qed.

Lemma size_bounds (p : positive) :
  (2 ^ Z.pos (Pos.size p) <= 2 * Z.pos p < 2 * 2 ^ Z.pos (Pos.size p))%Z.
Proof.
  pose proof (Pos.size_gt p) as Hgt. pose proof (Pos.size_le p) as Hle.
  apply Pos2Z.pos_lt_pos in Hgt. apply Pos2Z.pos_le_pos in Hle.
  rewrite Pos2Z.inj_pow in Hgt, Hle.
  change (Z.pos p~0) with (2 * Z.pos p)%Z in Hle. lia.
Qed.

Lemma size_small (p : positive) : (N.pos p < 2 ^ 53)%N -> (Z.pos (Pos.size p) <= 53)%Z.
Proof.
  intros H. destruct (Z.le_gt_cases (Z.pos (Pos.size p)) 53) as [Hs | Hs]; [exact Hs |].
  pose proof (size_bounds p) as [Hle _].
  assert (2 ^ 54 <= 2 ^ Z.pos (Pos.size p))%Z by (apply Z.pow_le_mono_r; lia).
  assert (Z.pos p < 2 ^ 53)%Z by (change (2 ^ 53)%Z with (Z.of_N (2 ^ 53)); lia).
  change (2 ^ 54)%Z with (2 * 2 ^ 53)%Z in *. lia.
Qed.

(** The exponent of such a Number grows with the size of the natural
    number, and its significand is the number shifted to 53 bits. *)
Lemma rank_float_of (p : positive) :
  (Z.pos (Pos.size p) <= 53)%Z ->
  rank (float_of (N.pos p)) =
  (1, (Z.pos (Pos.size p) - 53, 2 ^ (53 - Z.pos (Pos.size p)) * Z.pos p))%Z.
Proof.
  intros Hs. unfold float_of. rewrite digits2_pos_size.
  destruct (Z.pos (Pos.size p) - 53)%Z as [| k | k] eqn:E; cbn [rank].
  - replace (53 - Z.pos (Pos.size p))%Z with 0%Z by lia.
    now rewrite Z.pow_0_r, Z.mul_1_l.
  - lia.
  - replace (53 - Z.pos (Pos.size p))%Z with (Z.pos k) by lia.
    now rewrite shift_pos_correct.
Qed.

(** The Numbers of the natural numbers below [2 ^ 53] are in the order
    of the natural numbers. *)
Lemma float_of_increasing (n m : N) :
  (n < m)%N -> (m < 2 ^ 53)%N -> before (rank (float_of n)) (rank (float_of m)).
Proof.
  intros Hnm Hm. destruct m as [| q]; [lia |].
  rewrite (rank_float_of q) by now apply size_small.
  destruct n as [| p]; [left; simpl; lia |].
  rewrite (rank_float_of p) by (apply size_small; lia).
  pose proof (size_bounds p) as [Hp1 Hp2]. pose proof (size_bounds q) as [Hq1 Hq2].
  assert (Hpq : (Z.pos p < Z.pos q)%Z) by lia.
  unfold before. cbn [fst snd]. right. split; [reflexivity |].
  destruct (Z.lt_trichotomy (Z.pos (Pos.size p)) (Z.pos (Pos.size q))) as [H | [H | H]].
  - left. lia.
  - right. split; [lia |]. rewrite H.
    apply Z.mul_lt_mono_pos_l; [| exact Hpq].
    apply Z.pow_pos_nonneg; [lia |].
    pose proof (size_small q Hm). lia.
  - exfalso.
    assert (2 * 2 ^ Z.pos (Pos.size q) <= 2 ^ Z.pos (Pos.size p))%Z.
    { replace (2 * 2 ^ Z.pos (Pos.size q))%Z with (2 ^ (Z.pos (Pos.size q) + 1))%Z
        by (rewrite Z.pow_add_r; lia).
      apply Z.pow_le_mono_r; lia. }
    lia.
Qed.

Lemma float_of_order (n m : N) :
  (n < 2 ^ 53)%N -> (m < 2 ^ 53)%N ->
  (rank (float_of n) = rank (float_of m) <-> n = m) /\
  (before (rank (float_of n)) (rank (float_of m)) <-> (n < m)%N).
Proof.
  intros Hn Hm.
  assert (Hno : forall a b : Z * (Z * Z), before a b -> ~ before b a /\ a <> b).
  { intros [a1 [a2 a3]] [b1 [b2 b3]]. unfold before. cbn [fst snd].
    intros H. split; [lia |]. intros E. inversion E. lia. }
  destruct (N.lt_trichotomy n m) as [H | [H | H]].
  - pose proof (float_of_increasing n m H Hm) as Hb. destruct (Hno _ _ Hb) as [_ Hne].
    split; split; intros; try lia; try easy.
  - subst m. split; split; intros; try lia; try easy.
    destruct (Hno _ _ H) as [_ Hne]. now destruct Hne.
  - pose proof (float_of_increasing m n H Hn) as Hb. destruct (Hno _ _ Hb) as [Hnb Hne].
    split; split; intros; try lia; try easy.
    now destruct Hne.
Qed.

(** *** The decimal writing is read back *)

Lemma string_of_uint_digits (d : Decimal.uint) :
  all_chars JS.is_digit (NilEmpty.string_of_uint d) = true.
Proof. induction d; simpl; auto. Qed.

Lemma show_digits (n : N) : all_chars JS.is_digit (show n) = true.
Proof. apply string_of_uint_digits. Qed.

Lemma show_not_empty (n : N) : show n <> "".
Proof.
  unfold show. destruct n as [| p]; [discriminate |].
  simpl. pose proof (DecimalPos.Unsigned.to_uint_nonnil p) as H.
  destruct (Pos.to_uint p); [congruence | ..]; discriminate.
Qed.

Lemma digits_from_acc (d : Decimal.uint) (p : positive) :
  JS.digits_from 10 (Z.pos p) (NilEmpty.string_of_uint d) =
  Some (Z.pos (Pos.of_uint_acc d p)).
Proof.
  revert p. induction d; intros p; cbn [NilEmpty.string_of_uint JS.digits_from Pos.of_uint_acc];
    [reflexivity | ..];
    match goal with
    | |- context [JS.digit_value ?c] =>
        let v := eval vm_compute in (JS.digit_value c) in
        change (JS.digit_value c) with v; cbv iota
    end;
    match goal with
    | |- context [(?a <? 10)%Z] => change (a <? 10)%Z with true; cbv iota
    end;
    rewrite <- IHd; f_equal; lia.
Qed.

Lemma digits_from_uint (d : Decimal.uint) :
  JS.digits_from 10 0 (NilEmpty.string_of_uint d) = Some (Z.of_N (Pos.of_uint d)).
Proof.
  induction d; cbn [NilEmpty.string_of_uint JS.digits_from Pos.of_uint];
    [reflexivity | ..];
    match goal with
    | |- context [JS.digit_value ?c] =>
        let v := eval vm_compute in (JS.digit_value c) in
        change (JS.digit_value c) with v; cbv iota
    end;
    match goal with
    | |- context [(?a <? 10)%Z] => change (a <? 10)%Z with true; cbv iota
    end;
    [exact IHd | ..]; apply digits_from_acc.
Qed.

Lemma digits_show (n : N) : JS.digits 10 (show n) = Some (Z.of_N n).
Proof.
  pose proof (show_not_empty n) as Hne. unfold JS.digits.
  destruct (show n) eqn:E; [congruence |]. rewrite <- E.
  unfold show. rewrite digits_from_uint.
  change (Pos.of_uint (N.to_uint n)) with (N.of_uint (N.to_uint n)).
  now rewrite DecimalN.Unsigned.of_to.
Qed.

Lemma digit_is_graph (c : ascii) : JS.is_digit c = true -> is_graph c = true.
Proof. by_character c. Qed.

Lemma span_all (P : ascii -> bool) (s : string) :
  all_chars P s = true -> JS.span P s = (s, "").
Proof.
  induction s as [| c s IH]; simpl; [reflexivity |].
  intros H. apply andb_prop in H. destruct H as [Hc H]. now rewrite Hc, (IH H).
Qed.

(** [Number] reads the decimal writing of a natural number below
    [2 ^ 53] as that number. *)
Lemma Number_show (n : N) : (n < 2 ^ 53)%N -> JS.Number (show n) = float_of n.
Proof.
  intros Hn. unfold JS.Number.
  pose proof (show_digits n) as Hd. pose proof (show_not_empty n) as Hne.
  pose proof (digits_show n) as Hv.
  assert (Hw : word (show n) = true).
  { unfold word. apply andb_true_intro. split.
    - apply negb_true_iff. now apply String.eqb_neq.
    - revert Hd. apply all_chars_impl. exact digit_is_graph. }
  rewrite (trim_phrase _ (word_phrase _ Hw)).
  rewrite (proj2 (String.eqb_neq _ _) Hne).
  assert (Hnd : JS.non_decimal (show n) = None).
  { destruct (show n) as [| c0 r]; [reflexivity |].
    cbn [all_chars] in Hd. apply andb_prop in Hd. destruct Hd as [Hc0 Hd].
    destruct r as [| c1 r].
    - revert Hc0. clear. by_character c0.
    - cbn [all_chars] in Hd. apply andb_prop in Hd. destruct Hd as [Hc1 _].
      revert Hc0 Hc1. clear. by_character c0; intros _; by_character c1. }
  rewrite Hnd. unfold JS.decimal.
  assert (Hs : JS.signed (show n) = (false, show n)).
  { destruct (show n) as [| c0 r]; [reflexivity |].
    simpl in Hd. apply andb_prop in Hd. destruct Hd as [Hc0 _].
    revert Hc0. clear. by_character c0. }
  rewrite Hs.
  assert (Hi : String.eqb (show n) "Infinity" = false).
  { destruct (show n) as [| c0 r]; [reflexivity |].
    simpl in Hd. apply andb_prop in Hd. destruct Hd as [Hc0 _].
    apply String.eqb_neq. intros E. inversion E. subst c0. discriminate Hc0. }
  rewrite Hi, (span_all _ _ Hd).
  cbn [JS.exponent String.length]. 
  replace (show n ++ "") with (show n) by (clear; induction (show n); simpl; congruence).
  rewrite Hv. unfold JS.of_decimal.
  destruct n as [| p]; [reflexivity |]. cbn [Z.of_N].
  change (0 <=? 0 - Z.of_nat 0)%Z with true. cbv iota.
  change (10 ^ (0 - Z.of_nat 0))%Z with 1%Z. rewrite Z.mul_1_r. cbn [cond_Zopp].
  apply normalize_exact. rewrite digits2_pos_size. now apply size_small.
Qed.

Lemma digit_is_no_dot (c : ascii) :
  JS.is_digit c = true -> negb (Ascii.eqb c ".") = true.
Proof. destruct c as [[] [] [] [] [] [] [] []]; try discriminate; reflexivity. Qed.

Lemma components_version_text (numbers : list N) :
  numbers <> [] -> Forall small numbers ->
  Registry.components (version_text numbers) = map float_of numbers.
Proof.
  intros Hne Hsmall. unfold Registry.components, Registry.strip_non_digit_prefix.
  assert (Hstrip : JS.span (fun c => negb (JS.is_digit c)) (version_text numbers) =
                   ("", version_text numbers)).
  { destruct numbers as [| n rest]; [congruence |].
    assert (Hfirst : exists c r, version_text (n :: rest) = String c r /\ JS.is_digit c = true).
    { pose proof (show_digits n) as Hd. pose proof (show_not_empty n) as Hn.
      unfold version_text. cbn [map JS.join].
      destruct (show n) as [| c r]; [congruence |].
      cbn [all_chars] in Hd. apply andb_prop in Hd. destruct Hd as [Hc _].
      destruct (map show rest); [now exists c, r |].
      now exists c, (r ++ "." ++ JS.join "." (s :: l)). }
    destruct Hfirst as (c & r & -> & Hc). simpl. now rewrite Hc. }
  rewrite Hstrip. cbn [snd]. unfold Registry.parts, version_text.
  rewrite split_join.
  - rewrite map_map. apply map_ext_in. intros n Hn. apply Number_show.
    now apply (proj1 (Forall_forall _ _) Hsmall).
  - now destruct numbers.
  - apply Forall_forall. intros x Hx. apply in_map_iff in Hx.
    destruct Hx as (n & <- & _). generalize (show_digits n).
    apply all_chars_impl. exact digit_is_no_dot.
Qed.

Lemma version_text_not_empty (n : N) (rest : list N) : version_text (n :: rest) <> "".
Proof.
  pose proof (show_not_empty n) as Hn. unfold version_text. cbn [map JS.join].
  destruct (show n) as [| c r]; [congruence |].
  now destruct (map show rest).
Qed.

Lemma index_or_zero_float_of (numbers : list N) (i : nat) :
  JS.index_or_zero (map float_of numbers) i = float_of (nth i numbers 0%N).
Proof.
  unfold JS.index_or_zero. revert i.
  induction numbers as [| n rest IH]; intros [| i]; try reflexivity.
  - cbn [map nth_error nth]. destruct n as [| p]; [reflexivity |].
    unfold float_of. now destruct (Z.pos (digits2_pos p) - 53)%Z.
  - apply IH.
Qed.

Lemma nth_small (numbers : list N) (i : nat) :
  Forall small numbers -> small (nth i numbers 0%N).
Proof.
  intros H. revert i. induction H as [| n rest Hn _ IH]; intros [| i]; simpl; auto;
    reflexivity.
Qed.

(** [numbers_newer] looks for the first position where the two lists
    differ. *)
Lemma numbers_newer_first_difference (current latest : list N) :
  numbers_newer current latest = true <->
  exists k, (forall j, j < k -> nth j current 0%N = nth j latest 0%N) /\
            (nth k current 0 < nth k latest 0)%N.
Proof.
  revert latest. induction current as [| c current IH]; intros latest.
  - cbn [numbers_newer]. induction latest as [| l latest IHl].
    + split; [discriminate |]. intros (k & _ & H). destruct k; simpl in H; lia.
    + cbn [existsb]. destruct (N.ltb_spec 0 l) as [Hl | Hl]; cbn [orb].
      * split; [| reflexivity]. intros _. exists 0. split; [lia | exact Hl].
      * rewrite IHl. split.
        -- intros (k & Heq & Hlt). exists (S k). split; [| now destruct k].
           intros [| j] Hj; [simpl; lia |].
           specialize (Heq j ltac:(lia)). now destruct j.
        -- intros ([| k] & Heq & Hlt); [simpl in Hlt; lia |].
           exists k. split; [| now destruct k].
           intros j Hj. specialize (Heq (S j) ltac:(lia)). now destruct j.
  - destruct latest as [| l latest]; cbn [numbers_newer].
    + split; [discriminate |]. intros (k & _ & H). destruct k; simpl in H; lia.
    + destruct (N.ltb_spec c l) as [Hcl | Hcl].
      { split; [| reflexivity]. intros _. exists 0. split; [lia | exact Hcl]. }
      destruct (N.ltb_spec l c) as [Hlc | Hlc].
      { split; [discriminate |]. intros ([| k] & Heq & Hlt); [simpl in Hlt; lia |].
        specialize (Heq 0 ltac:(lia)). simpl in Heq. lia. }
      rewrite IH. split.
      * intros (k & Heq & Hlt). exists (S k). split; [| exact Hlt].
        intros [| j] Hj; [simpl; lia |]. apply Heq. lia.
      * intros ([| k] & Heq & Hlt); [simpl in Hlt; lia |].
        exists k. split; [| exact Hlt].
        intros j Hj. apply (Heq (S j)). lia.
Qed.

Lemma ahead_numbers (current latest : list N) :
  Forall small current -> Forall small latest ->
  (ahead (map float_of current) (map float_of latest) <->
   numbers_newer current latest = true).
Proof.
  intros Hc Hl. rewrite numbers_newer_first_difference. unfold ahead.
  split; intros (k & Heq & Hlt); exists k; split.
  - intros j Hj. specialize (Heq j Hj). rewrite !index_or_zero_float_of in Heq.
    now apply (float_of_order _ _ (nth_small _ j Hc) (nth_small _ j Hl)).
  - rewrite !index_or_zero_float_of in Hlt.
    now apply (float_of_order _ _ (nth_small _ k Hc) (nth_small _ k Hl)).
  - intros j Hj. rewrite !index_or_zero_float_of. now rewrite (Heq j Hj).
  - rewrite !index_or_zero_float_of.
    now apply (float_of_order _ _ (nth_small _ k Hc) (nth_small _ k Hl)).
Qed.

(** Versions that are numbers below [2 ^ 53] separated by dots are
    compared as the lists of their numbers: [latest] is newer when it is
    greater at the first position where the two differ, a missing
    number counting as 0. *)
Theorem compareVersions_numeric (c l : N) (current latest : list N) :
  Forall small (c :: current) -> Forall small (l :: latest) ->
  Registry.compareVersions (version_text (c :: current)) (version_text (l :: latest)) =
  numbers_newer (c :: current) (l :: latest).
Proof.
  intros Hc Hl. apply eq_true_iff_eq.
  rewrite compareVersions_ahead, !components_version_text by (discriminate || assumption).
  rewrite (ahead_numbers _ _ Hc Hl).
  pose proof (version_text_not_empty c current). pose proof (version_text_not_empty l latest).
  tauto.
Qed.

Lemma compareVersions_numeric_witness :
  Registry.compareVersions "1.9.12" "1.10" = true.
Proof.
  apply (eq_trans (compareVersions_numeric 1 1 [9; 12] [10]
           ltac:(repeat constructor) ltac:(repeat constructor))%N).
  reflexivity.
Defined.

End NumericVersions.


(** ** Further runs in the example worlds *)

Section FurtherScenarios.
Import Model Runtime Events Listings Shapes.

Lemma bun_listing_round_trip_witness :
  PM.bun_packages bun
    (listing
       (map bun_line
          [BunOther "/root/.bun/install/global node_modules (2)";
           BunPackage false "@angular/cli" "17.0.0";
           BunPackage true "typescript" "5.0.0"])) =
  [{| name := "@angular/cli"; version := JS.JStr "17.0.0"; pm := bun |};
   {| name := "typescript"; version := JS.JStr "5.0.0"; pm := bun |}].
Proof.
  apply (bun_listing_round_trip bun
           [BunOther "/root/.bun/install/global node_modules (2)";
            BunPackage false "@angular/cli" "17.0.0";
            BunPackage true "typescript" "5.0.0"]).
  reflexivity.
Defined.

(** The legend of the listing of pnpm is a word, a space and what
    follows, and so becomes a record. *)
Lemma pnpm_listing_round_trip_witness :
  PM.pnpm_packages pnpm
    (listing
       (map pnpm_line
          [PnpmPair "Legend:" "production dependency, optional only, dev only";
           PnpmWord "";
           PnpmWord "/root/.local/share/pnpm/global/5";
           PnpmWord "";
           PnpmWord "dependencies:";
           PnpmPair "typescript" "5.0.0"])) =
  [{| name := "Legend:";
      version := JS.JStr "production dependency, optional only, dev only";
      pm := pnpm |};
   {| name := "typescript"; version := JS.JStr "5.0.0"; pm := pnpm |}].
Proof.
  apply (pnpm_listing_round_trip pnpm
           [PnpmPair "Legend:" "production dependency, optional only, dev only";
            PnpmWord "";
            PnpmWord "/root/.local/share/pnpm/global/5";
            PnpmWord "";
            PnpmWord "dependencies:";
            PnpmPair "typescript" "5.0.0"]).
  reflexivity.
Defined.

Lemma npm_listing_records_witness :
  fst (PM.getGlobalPackages (W := Examples.npm_only Examples.npm_listing) npm []) =
  Return [{| name := "typescript"; version := JS.JStr "5.0.0"; pm := npm |}].
Proof.
  apply (npm_listing_records (W := Examples.npm_only Examples.npm_listing) []
           Examples.npm_listing Examples.npm_document
           [("typescript", JS.JObj [("version", JS.JStr "5.0.0")]);
            ("broken", JS.JObj [])]);
    [reflexivity | reflexivity | reflexivity |].
  repeat constructor; discriminate.
Defined.

Lemma npm_listing_unreadable_witness :
  fst (PM.getGlobalPackages (W := Examples.npm_only "npm ERR! code EJSONPARSE") npm []) =
  Return [].
Proof.
  apply (npm_listing_unreadable (W := Examples.npm_only "npm ERR! code EJSONPARSE") []
           "npm ERR! code EJSONPARSE");
    [reflexivity | left; reflexivity].
Defined.



End FurtherScenarios.
